(** * MFEM data collections (fem/datacollection.cpp)

    A shallow embedding of [DataCollection] and [VisItDataCollection]:
    the naming rules, the save and load protocols with their error flag
    and ownership flag, and the VisIt root file (a JSON document built
    and read back through picojson). *)

From Stdlib Require Import ZArith List Bool Ascii String Lia.
From Stdlib Require Import OrdersEx.
Import ListNotations.

Local Open Scope string_scope.
Local Open Scope Z_scope.

(** ** Characters and strings *)

Definition char_code (c : ascii) : Z := Z.of_N (N_of_ascii c).

Definition char_of_code (z : Z) : ascii := ascii_of_N (Z.to_N z).

Definition is_digit (c : ascii) : bool :=
  (48 <=? char_code c) && (char_code c <=? 57).

Definition digit_char (d : Z) : ascii := char_of_code (48 + d).

Definition digit_val (c : ascii) : Z := char_code c - 48.

(** [std::string(n, c)] *)
Fixpoint fill (n : nat) (c : ascii) : string :=
  match n with
  | O => ""
  | S n' => String c (fill n' c)
  end.

Fixpoint all_chars (p : ascii -> bool) (s : string) : bool :=
  match s with
  | "" => true
  | String c s' => p c && all_chars p s'
  end.

(** ** Helper string functions *)

(** The digits that [operator<<] prints for a non-negative [int], most
    significant first, in front of [acc].  The fuel is the binary
    logarithm of the number, which bounds its decimal length. *)
Fixpoint dec_digits (fuel : nat) (n : Z) (acc : string) : string :=
  let acc' := String (digit_char (n mod 10)) acc in
  match fuel with
  | O => acc'
  | S f => if n <? 10 then acc' else dec_digits f (n / 10) acc'
  end.

Definition dec_of_nonneg (n : Z) : string :=
  dec_digits (Z.to_nat (Z.log2 n)) n "".

(** [ss << i] for an [int] with the default flags. *)
Definition put_int (i : Z) : string :=
  if i <? 0 then String "-" (dec_of_nonneg (- i)) else dec_of_nonneg i.

Definition is_blank (c : ascii) : bool :=
  (char_code c =? 32) || (char_code c =? 9).

(** [s.substr(s.find_first_not_of(" \t"))] *)
Fixpoint trim_leading (s : string) : string :=
  match s with
  | "" => ""
  | String c s' => if is_blank c then trim_leading s' else s
  end.

Definition to_string (i : Z) : string := trim_leading (put_int i).

(** [oss << setw(digits) << setfill('0') << i]: the fill characters go to
    the left of the whole number (sign included), and a number wider than
    [digits] is not cut. *)
Definition to_padded_string (i digits : Z) : string :=
  let s := put_int i in
  fill (Z.to_nat digits - String.length s) "0" ++ s.

Definition INT_MAX : Z := 2147483647.
Definition INT_MIN : Z := -2147483648.

Definition int_range (z : Z) : Prop := INT_MIN <= z <= INT_MAX.

(** [isspace] in the C locale *)
Definition is_space (c : ascii) : bool :=
  (char_code c =? 32) || ((9 <=? char_code c) && (char_code c <=? 13)).

Fixpoint skip_ws (s : string) : string :=
  match s with
  | "" => ""
  | String c s' => if is_space c then skip_ws s' else s
  end.

(** The digits at the front of [s] read as a number on top of [acc];
    [seen] tells whether a digit was read. *)
Fixpoint scan_digits (s : string) (acc : Z) (seen : bool) : Z * bool :=
  match s with
  | "" => (acc, seen)
  | String c s' =>
      if is_digit c then scan_digits s' (10 * acc + digit_val c) true
      else (acc, seen)
  end.

(** The number that a string of digits spells. *)
Definition dval (s : string) : Z := fst (scan_digits s 0 false).

Definition clamp_int (z : Z) : Z :=
  if z <? INT_MIN then INT_MIN else if INT_MAX <? z then INT_MAX else z.

(** [stringstream(str) >> i]: blanks, an optional sign, digits.  Without a
    digit the extraction fails and [i] is 0; a number out of range is
    stored as the nearest bound (both as C++11 has it). *)
Definition to_int (str : string) : Z :=
  let s := skip_ws str in
  let '(neg, s1) :=
    match s with
    | String "-" s' => (true, s')
    | String "+" s' => (false, s')
    | _ => (false, s)
    end in
  let '(v, seen) := scan_digits s1 0 false in
  if seen then clamp_int (if neg then - v else v) else 0.

(** [s.find(c)] *)
Fixpoint find_char (c : ascii) (s : string) : option nat :=
  match s with
  | "" => None
  | String c' s' =>
      if Ascii.eqb c' c then Some O
      else match find_char c s' with
           | Some n => Some (S n)
           | None => None
           end
  end.

(** [s.substr(0, n)] *)
Definition substr0 (n : nat) (s : string) : string := String.substring 0 n s.

Definition string_empty (s : string) : bool :=
  match s with "" => true | _ => false end.

(** [s[s.size()-1]] of a non-empty string *)
Fixpoint last_char (s : string) (d : ascii) : ascii :=
  match s with
  | "" => d
  | String c s' => last_char s' c
  end.

(** Whether [sub] occurs in [s]. *)
Fixpoint contains (sub s : string) : bool :=
  String.prefix sub s ||
  match s with
  | "" => false
  | String _ s' => contains sub s'
  end.

(** ** [std::map<std::string, V>]

    The entries in the order of the iteration, which is the order of the
    keys as [std::string] compares them. *)

Module StrMap.

Definition t (V : Type) : Type := list (string * V).

Definition empty {V : Type} : t V := [].

Fixpoint find {V : Type} (k : string) (m : t V) : option V :=
  match m with
  | [] => None
  | (k', v) :: m' => if String.eqb k k' then Some v else find k m'
  end.

(** [m[k] = v] *)
Fixpoint insert {V : Type} (k : string) (v : V) (m : t V) : t V :=
  match m with
  | [] => [(k, v)]
  | (k', v') :: m' =>
      match String.compare k k' with
      | Lt => (k, v) :: m
      | Eq => (k, v) :: m'
      | Gt => (k', v') :: insert k v m'
      end
  end.

Definition keys {V : Type} (m : t V) : list string := map fst m.

Definition is_empty {V : Type} (m : t V) : bool :=
  match m with [] => true | _ => false end.

(** The keys grow strictly along the list. *)
Fixpoint sorted_from {V : Type} (k : string) (m : t V) : Prop :=
  match m with
  | [] => True
  | (k', _) :: m' => String.compare k k' = Lt /\ sorted_from k' m'
  end.

Definition sorted {V : Type} (m : t V) : Prop :=
  match m with
  | [] => True
  | (k, _) :: m' => sorted_from k m'
  end.

End StrMap.

(** ** Collaborators

    What the collection takes from the rest of the library: the mesh and
    grid function classes, the numbers of the root file, and the two
    default constants of the class declaration. *)

Class Collaborators : Type := {
  (** a finite [double] *)
  double : Type;
  (** [double(i)] and [int(x)] *)
  double_of_int : Z -> double;
  int_of_double : double -> Z;
  (** how picojson prints a number ("%.f" for an integer below [2^53],
      "%.17g" otherwise) and how [strtod] reads a whole token back *)
  double_to_str : double -> string;
  strtod : string -> option double;
  Mesh : Type;
  SpaceDimension : Mesh -> Z;
  Dimension : Mesh -> Z;
  (** [GetMyRank()] and [GetNRanks()] when the mesh is a [ParMesh] *)
  ParMesh_ranks : Mesh -> option (Z * Z);
  (** [Print(out)] on a stream of the given precision *)
  Mesh_Print : Mesh -> Z -> string;
  (** [Mesh(input, 1, 1)] *)
  Mesh_read : string -> Mesh;
  GridFunction : Type;
  VectorDim : GridFunction -> Z;
  (** [Save(out)] on a stream of the given precision *)
  GridFunction_Save : GridFunction -> Z -> string;
  (** [GridFunction(mesh, input)] *)
  GridFunction_read : Mesh -> string -> GridFunction;
  precision_default : Z;
  pad_digits_default : Z
}.

(** The character set of a number token in picojson's reader. *)
Definition is_num_char (c : ascii) : bool :=
  is_digit c || Ascii.eqb c "+" || Ascii.eqb c "-" || Ascii.eqb c "."
  || Ascii.eqb c "e" || Ascii.eqb c "E".

Definition starts_number (c : ascii) : bool := is_digit c || Ascii.eqb c "-".

(** What the proofs about the root file use of the numbers: an [int]
    survives the conversion to [double] and back, is printed as an
    integer, and a printed number is one token that reads back. *)
Class DoubleLaws (C : Collaborators) : Prop := {
  int_of_double_of_int :
    forall z, int_range z -> int_of_double (double_of_int z) = z;
  double_to_str_of_int :
    forall z, int_range z -> double_to_str (double_of_int z) = put_int z;
  strtod_to_str : forall d, strtod (double_to_str d) = Some d;
  double_to_str_chars : forall d, all_chars is_num_char (double_to_str d) = true;
  double_to_str_head :
    forall d, exists c s, double_to_str d = String c s /\ starts_number c = true
}.

(** ** The world around a collection *)

Definition addr := nat.

Inductive event : Type :=
| EvMkdir (dir : string)
| EvWrite (path : string)
| EvRead (path : string)
| EvNewMesh (a : addr)
| EvNewField (a : addr)
| EvDeleteMesh (a : addr)
| EvDeleteField (a : addr)
| EvWarning (msg : string).

Section Embedding.

Context {C : Collaborators}.

(** The file system (regular files by path; the environment decides for
    which paths creating the directory or writing the file fails), the
    live objects of the heap, and the log of what was done, oldest
    first. *)
Record World : Type := {
  files : StrMap.t string;
  failing_dirs : list string;
  failing_files : list string;
  meshes : list (addr * Mesh);
  gfuncs : list (addr * GridFunction);
  next_addr : addr;
  log : list event
}.

Definition set_files (f : StrMap.t string) (w : World) : World :=
  {| files := f; failing_dirs := failing_dirs w; failing_files := failing_files w;
     meshes := meshes w; gfuncs := gfuncs w; next_addr := next_addr w;
     log := log w |}.

Definition set_meshes (m : list (addr * Mesh)) (w : World) : World :=
  {| files := files w; failing_dirs := failing_dirs w;
     failing_files := failing_files w;
     meshes := m; gfuncs := gfuncs w; next_addr := next_addr w;
     log := log w |}.

Definition set_gfuncs (g : list (addr * GridFunction)) (w : World) : World :=
  {| files := files w; failing_dirs := failing_dirs w;
     failing_files := failing_files w;
     meshes := meshes w; gfuncs := g; next_addr := next_addr w;
     log := log w |}.

Definition set_next_addr (a : addr) (w : World) : World :=
  {| files := files w; failing_dirs := failing_dirs w;
     failing_files := failing_files w;
     meshes := meshes w; gfuncs := gfuncs w; next_addr := a;
     log := log w |}.

Definition add_event (e : event) (w : World) : World :=
  {| files := files w; failing_dirs := failing_dirs w;
     failing_files := failing_files w;
     meshes := meshes w; gfuncs := gfuncs w; next_addr := next_addr w;
     log := log w ++ [e] |}.

(** Whether [mkdir] on a path fails for a reason other than [EEXIST], and
    whether a stream written to a path ends in a failed state. *)
Definition mkdir_fails (w : World) (dir : string) : bool :=
  existsb (String.eqb dir) (failing_dirs w).

Definition write_fails (w : World) (path : string) : bool :=
  existsb (String.eqb path) (failing_files w).

(** A call either returns in a new world or runs into undefined behaviour
    (a null or dangling pointer, a failed assertion of picojson) in the
    world reached so far. *)
Inductive outcome (A : Type) : Type :=
| Ok (a : A) (w : World)
| Abort (w : World).

Arguments Ok {A} a w.
Arguments Abort {A} w.

Definition M (A : Type) : Type := World -> outcome A.

Definition ret {A : Type} (a : A) : M A := fun w => Ok a w.

Definition bind {A B : Type} (m : M A) (k : A -> M B) : M B :=
  fun w => match m w with
           | Ok a w' => k a w'
           | Abort w' => Abort w'
           end.

Definition abort {A : Type} : M A := fun w => Abort w.

Definition emit (e : event) : M unit := fun w => Ok tt (add_event e w).

Definition world_of {A : Type} (o : outcome A) : World :=
  match o with Ok _ w => w | Abort w => w end.

End Embedding.

Arguments Ok {C A} a w.
Arguments Abort {C A} w.

Declare Scope coll_scope.
Delimit Scope coll_scope with coll.
Notation "x <- m ;; k" := (bind m (fun x => k))
  (at level 61, m at next level, right associativity) : coll_scope.
Notation "m ;;; k" := (bind m (fun _ => k))
  (at level 61, right associativity) : coll_scope.

Local Open Scope coll_scope.

(** ** Heap and file primitives *)

Section Primitives.

Context {C : Collaborators}.

Fixpoint heap_find {A : Type} (a : addr) (h : list (addr * A)) : option A :=
  match h with
  | [] => None
  | (a', x) :: h' => if Nat.eqb a a' then Some x else heap_find a h'
  end.

Fixpoint heap_remove {A : Type} (a : addr) (h : list (addr * A))
  : list (addr * A) :=
  match h with
  | [] => []
  | (a', x) :: h' =>
      if Nat.eqb a a' then heap_remove a h' else (a', x) :: heap_remove a h'
  end.

(** [*p] for a [Mesh *p] *)
Definition deref_mesh (p : option addr) : M Mesh :=
  fun w =>
    match p with
    | None => Abort w
    | Some a => match heap_find a (meshes w) with
                | Some m => Ok m w
                | None => Abort w
                end
    end.

Definition deref_field (p : option addr) : M GridFunction :=
  fun w =>
    match p with
    | None => Abort w
    | Some a => match heap_find a (gfuncs w) with
                | Some g => Ok g w
                | None => Abort w
                end
    end.

(** [delete p]: nothing for a null pointer; deleting an object that is
    not live is undefined. *)
Definition delete_mesh (p : option addr) : M unit :=
  fun w =>
    match p with
    | None => Ok tt w
    | Some a =>
        let w' := add_event (EvDeleteMesh a) w in
        match heap_find a (meshes w) with
        | Some _ => Ok tt (set_meshes (heap_remove a (meshes w')) w')
        | None => Abort w'
        end
    end.

Definition delete_field (p : option addr) : M unit :=
  fun w =>
    match p with
    | None => Ok tt w
    | Some a =>
        let w' := add_event (EvDeleteField a) w in
        match heap_find a (gfuncs w) with
        | Some _ => Ok tt (set_gfuncs (heap_remove a (gfuncs w')) w')
        | None => Abort w'
        end
    end.

Definition new_mesh (m : Mesh) : M (option addr) :=
  fun w =>
    let a := next_addr w in
    Ok (Some a)
       (add_event (EvNewMesh a)
          (set_next_addr (S a) (set_meshes ((a, m) :: meshes w) w))).

Definition new_field (g : GridFunction) : M (option addr) :=
  fun w =>
    let a := next_addr w in
    Ok (Some a)
       (add_event (EvNewField a)
          (set_next_addr (S a) (set_gfuncs ((a, g) :: gfuncs w) w))).

(** [dynamic_cast<ParMesh*>(mesh)], with the rank and the number of
    ranks of the parallel mesh. *)
Definition par_ranks (p : option addr) : M (option (Z * Z)) :=
  match p with
  | None => ret None
  | Some _ => m <- deref_mesh p ;; ret (ParMesh_ranks m)
  end.

(** [mkdir(dir, 0777)] followed by [(err && errno != EEXIST) ? 1 : 0];
    with a parallel mesh the result is then sent to the other ranks. *)
Definition sys_mkdir (dir : string) : M Z :=
  fun w => Ok (if mkdir_fails w dir then 1 else 0) (add_event (EvMkdir dir) w).

(** The value that [MPI_Bcast] delivers from rank 0. *)
Definition bcast_mkdir (dir : string) : M Z :=
  fun w => Ok (if mkdir_fails w dir then 1 else 0) w.

(** [ofstream f(path)] *)
Definition open_out (path : string) : M unit := emit (EvWrite path).

(** The text sent to the stream so far and the final [(bool)f]: a stream
    that did not fail leaves the text in the file. *)
Definition stream_out (path content : string) : M bool :=
  fun w =>
    if write_fails w path then Ok false w
    else Ok true (set_files (StrMap.insert path content (files w)) w).

(** [ifstream f(path)]: the contents, or nothing when the file cannot be
    opened. *)
Definition open_in (path : string) : M (option string) :=
  fun w => Ok (StrMap.find path (files w)) (add_event (EvRead path) w).

Definition MFEM_WARNING (msg : string) : M unit := emit (EvWarning msg).

End Primitives.

(** ** class DataCollection *)

Inductive error_t : Type := NO_ERROR | READ_ERROR | WRITE_ERROR.

(** [if (error)] *)
Definition is_error (e : error_t) : bool :=
  match e with NO_ERROR => false | _ => true end.

Module DataCollection.
Section Class.

Context {C : Collaborators}.

Record t : Type := {
  name : string;
  prefix_path : string;
  field_map : StrMap.t (option addr);
  mesh : option addr;
  cycle : Z;
  time : double;
  serial : bool;
  myid : Z;
  num_procs : Z;
  own_data : bool;
  precision : Z;
  pad_digits : Z;
  error : error_t
}.

Definition set_name (x : string) (dc : t) : t :=
  {| name := x;
     prefix_path := prefix_path dc;
     field_map := field_map dc;
     mesh := mesh dc;
     cycle := cycle dc;
     time := time dc;
     serial := serial dc;
     myid := myid dc;
     num_procs := num_procs dc;
     own_data := own_data dc;
     precision := precision dc;
     pad_digits := pad_digits dc;
     error := error dc |}.

Definition set_prefix_path (x : string) (dc : t) : t :=
  {| name := name dc;
     prefix_path := x;
     field_map := field_map dc;
     mesh := mesh dc;
     cycle := cycle dc;
     time := time dc;
     serial := serial dc;
     myid := myid dc;
     num_procs := num_procs dc;
     own_data := own_data dc;
     precision := precision dc;
     pad_digits := pad_digits dc;
     error := error dc |}.

Definition set_field_map (x : StrMap.t (option addr)) (dc : t) : t :=
  {| name := name dc;
     prefix_path := prefix_path dc;
     field_map := x;
     mesh := mesh dc;
     cycle := cycle dc;
     time := time dc;
     serial := serial dc;
     myid := myid dc;
     num_procs := num_procs dc;
     own_data := own_data dc;
     precision := precision dc;
     pad_digits := pad_digits dc;
     error := error dc |}.

Definition set_mesh (x : option addr) (dc : t) : t :=
  {| name := name dc;
     prefix_path := prefix_path dc;
     field_map := field_map dc;
     mesh := x;
     cycle := cycle dc;
     time := time dc;
     serial := serial dc;
     myid := myid dc;
     num_procs := num_procs dc;
     own_data := own_data dc;
     precision := precision dc;
     pad_digits := pad_digits dc;
     error := error dc |}.

Definition set_cycle (x : Z) (dc : t) : t :=
  {| name := name dc;
     prefix_path := prefix_path dc;
     field_map := field_map dc;
     mesh := mesh dc;
     cycle := x;
     time := time dc;
     serial := serial dc;
     myid := myid dc;
     num_procs := num_procs dc;
     own_data := own_data dc;
     precision := precision dc;
     pad_digits := pad_digits dc;
     error := error dc |}.

Definition set_time (x : double) (dc : t) : t :=
  {| name := name dc;
     prefix_path := prefix_path dc;
     field_map := field_map dc;
     mesh := mesh dc;
     cycle := cycle dc;
     time := x;
     serial := serial dc;
     myid := myid dc;
     num_procs := num_procs dc;
     own_data := own_data dc;
     precision := precision dc;
     pad_digits := pad_digits dc;
     error := error dc |}.

Definition set_serial (x : bool) (dc : t) : t :=
  {| name := name dc;
     prefix_path := prefix_path dc;
     field_map := field_map dc;
     mesh := mesh dc;
     cycle := cycle dc;
     time := time dc;
     serial := x;
     myid := myid dc;
     num_procs := num_procs dc;
     own_data := own_data dc;
     precision := precision dc;
     pad_digits := pad_digits dc;
     error := error dc |}.

Definition set_myid (x : Z) (dc : t) : t :=
  {| name := name dc;
     prefix_path := prefix_path dc;
     field_map := field_map dc;
     mesh := mesh dc;
     cycle := cycle dc;
     time := time dc;
     serial := serial dc;
     myid := x;
     num_procs := num_procs dc;
     own_data := own_data dc;
     precision := precision dc;
     pad_digits := pad_digits dc;
     error := error dc |}.

Definition set_num_procs (x : Z) (dc : t) : t :=
  {| name := name dc;
     prefix_path := prefix_path dc;
     field_map := field_map dc;
     mesh := mesh dc;
     cycle := cycle dc;
     time := time dc;
     serial := serial dc;
     myid := myid dc;
     num_procs := x;
     own_data := own_data dc;
     precision := precision dc;
     pad_digits := pad_digits dc;
     error := error dc |}.

Definition set_own_data (x : bool) (dc : t) : t :=
  {| name := name dc;
     prefix_path := prefix_path dc;
     field_map := field_map dc;
     mesh := mesh dc;
     cycle := cycle dc;
     time := time dc;
     serial := serial dc;
     myid := myid dc;
     num_procs := num_procs dc;
     own_data := x;
     precision := precision dc;
     pad_digits := pad_digits dc;
     error := error dc |}.

Definition set_error (x : error_t) (dc : t) : t :=
  {| name := name dc;
     prefix_path := prefix_path dc;
     field_map := field_map dc;
     mesh := mesh dc;
     cycle := cycle dc;
     time := time dc;
     serial := serial dc;
     myid := myid dc;
     num_procs := num_procs dc;
     own_data := own_data dc;
     precision := precision dc;
     pad_digits := pad_digits dc;
     error := x |}.

(** [DataCollection(const char *collection_name)] *)
Definition create (collection_name : string) : t :=
  {| name := collection_name;
     prefix_path := "";
     field_map := StrMap.empty;
     mesh := None;
     myid := 0;
     num_procs := 1;
     serial := true;
     own_data := false;
     cycle := -1;
     time := double_of_int 0;
     precision := precision_default;
     pad_digits := pad_digits_default;
     error := NO_ERROR |}.

(** The rank data taken from a [ParMesh] (in a build with MPI). *)
Definition use_ranks (pr : option (Z * Z)) (dc : t) : t :=
  match pr with
  | Some (rank, nranks) =>
      set_serial false (set_num_procs nranks (set_myid rank dc))
  | None => dc
  end.

(** [DataCollection(const char *collection_name, Mesh *_mesh)] *)
Definition create_with_mesh (collection_name : string) (_mesh : option addr)
  : M t :=
  pr <- par_ranks _mesh ;;
  ret (use_ranks pr (set_mesh _mesh (create collection_name))).

Definition SetMesh (new_mesh : option addr) (dc : t) : M t :=
  (if own_data dc then delete_mesh (mesh dc) else ret tt) ;;;
  let dc := set_serial true (set_num_procs 1 (set_myid 0
              (set_mesh new_mesh dc))) in
  pr <- par_ranks new_mesh ;;
  ret (use_ranks pr dc).

Definition HasField (nm : string) (dc : t) : bool :=
  match StrMap.find nm (field_map dc) with Some _ => true | None => false end.

(** [field_map[nm]] of a present key *)
Definition field_at (nm : string) (dc : t) : option addr :=
  match StrMap.find nm (field_map dc) with Some p => p | None => None end.

Definition RegisterField (nm : string) (gf : option addr) (dc : t) : M t :=
  (if own_data dc && HasField nm dc
   then delete_field (field_at nm dc) else ret tt) ;;;
  ret (set_field_map (StrMap.insert nm gf (field_map dc)) dc).

Definition GetField (field_name : string) (dc : t) : option addr :=
  if HasField field_name dc then field_at field_name dc else None.

Definition SetPrefixPath (prefix : option string) (dc : t) : t :=
  match prefix with
  | Some p =>
      if negb (string_empty p)
         && negb (Ascii.eqb (last_char p "/") "/")
      then set_prefix_path (p ++ "/") dc
      else set_prefix_path p dc
  | None => set_prefix_path "" dc
  end.

Definition create_directory (dir_name : string) (mesh : option addr)
    (myid : Z) : M Z :=
  pmesh <- par_ranks mesh ;;
  if (myid =? 0) || match pmesh with None => true | Some _ => false end
  then sys_mkdir dir_name
  else bcast_mkdir dir_name.

(** The directory of the current cycle, as [SaveMesh] and [SaveOneField]
    build it. *)
Definition dir_name (dc : t) : string :=
  if cycle dc =? -1 then prefix_path dc ++ name dc
  else prefix_path dc ++ name dc ++ "_"
         ++ to_padded_string (cycle dc) (pad_digits dc).

Definition mesh_name (dc : t) : string :=
  if serial dc then dir_name dc ++ "/mesh"
  else dir_name dc ++ "/mesh." ++ to_padded_string (myid dc) (pad_digits dc).

Definition file_name (field : string) (dc : t) : string :=
  if serial dc then dir_name dc ++ "/" ++ field
  else dir_name dc ++ "/" ++ field ++ "."
         ++ to_padded_string (myid dc) (pad_digits dc).

(** The last part of [SaveMesh], once both directories are there. *)
Definition write_mesh (dc : t) : M t :=
  open_out (mesh_name dc) ;;;
  m <- deref_mesh (mesh dc) ;;
  ok <- stream_out (mesh_name dc) (Mesh_Print m (precision dc)) ;;
  if ok then ret dc
  else
    MFEM_WARNING ("Error writing mesh to file: " ++ mesh_name dc) ;;;
    ret (set_error WRITE_ERROR dc).

Definition make_cycle_dir (dc : t) : M t :=
  err <- create_directory (dir_name dc) (mesh dc) (myid dc) ;;
  if negb (err =? 0) then
    MFEM_WARNING ("Error creating directory: " ++ dir_name dc) ;;;
    ret (set_error WRITE_ERROR dc)
  else write_mesh dc.

Definition SaveMesh (dc : t) : M t :=
  if negb (string_empty (prefix_path dc)) then
    err <- create_directory (prefix_path dc) (mesh dc) (myid dc) ;;
    if negb (err =? 0) then
      MFEM_WARNING ("Error creating directory: " ++ prefix_path dc) ;;;
      ret (set_error WRITE_ERROR dc)
    else make_cycle_dir dc
  else make_cycle_dir dc.

Definition SaveOneField (it : string * option addr) (dc : t) : M t :=
  open_out (file_name (fst it) dc) ;;;
  gf <- deref_field (snd it) ;;
  ok <- stream_out (file_name (fst it) dc)
          (GridFunction_Save gf (precision dc)) ;;
  if ok then ret dc
  else
    MFEM_WARNING ("Error writting field to file: " ++ fst it) ;;;
    ret (set_error WRITE_ERROR dc).

(** The loop of [Save] over the entries of [field_map]. *)
Fixpoint save_fields (its : list (string * option addr)) (dc : t) : M t :=
  match its with
  | [] => ret dc
  | it :: its' => dc' <- SaveOneField it dc ;; save_fields its' dc'
  end.

Definition Save (dc : t) : M t :=
  dc <- SaveMesh dc ;;
  if is_error (error dc) then ret dc
  else save_fields (field_map dc) dc.

Definition SaveField (field_name : string) (dc : t) : M t :=
  match StrMap.find field_name (field_map dc) with
  | Some p => SaveOneField (field_name, p) dc
  | None => ret dc
  end.

(** The loop of [DeleteData]: every value is deleted when the data is
    owned, and set to null. *)
Fixpoint delete_fields (own : bool) (its : list (string * option addr))
  : M (StrMap.t (option addr)) :=
  match its with
  | [] => ret []
  | (k, p) :: its' =>
      (if own then delete_field p else ret tt) ;;;
      rest <- delete_fields own its' ;;
      ret ((k, None) :: rest)
  end.

Definition DeleteData (dc : t) : M t :=
  (if own_data dc then delete_mesh (mesh dc) else ret tt) ;;;
  let dc1 := set_mesh None dc in
  fm <- delete_fields (own_data dc1) (field_map dc1) ;;
  ret (set_own_data false (set_field_map fm dc1)).

Definition DeleteAll (dc : t) : M t :=
  dc <- DeleteData dc ;;
  ret (set_field_map StrMap.empty dc).

(** The loop of the destructor. *)
Fixpoint destroy_fields (its : list (string * option addr)) : M unit :=
  match its with
  | [] => ret tt
  | (_, p) :: its' => delete_field p ;;; destroy_fields its'
  end.

(** [~DataCollection()] *)
Definition destroy (dc : t) : M unit :=
  if own_data dc then
    delete_mesh (mesh dc) ;;; destroy_fields (field_map dc)
  else ret tt.

End Class.
End DataCollection.

(** ** picojson

    Modelled from the spec: picojson.h is not among the sources.  The
    document type, the pretty printer behind [serialize(true)] and the
    reader behind [parse] are written after the root file format of the
    specification (objects with their keys in order, two spaces of
    indentation per level, one space after the colon, numeric tags as
    strings). *)

Definition dquote : ascii := "034"%char.
Definition backslash : ascii := "092"%char.
Definition newline : ascii := "010"%char.

Module picojson.
Section Json.

Context {C : Collaborators}.

#[local] Unset Elimination Schemes.

Inductive value : Type :=
| null_
| boolean_ (b : bool)
| number_ (d : double)
| string_ (s : string)
| array_ (a : list value)
| object_ (o : list (string * value)).

#[local] Set Elimination Schemes.

Definition object : Type := StrMap.t value.

(** [v.get(key)]: asserts that [v] is an object; a missing key gives the
    null value. *)
Definition get (key : string) (v : value) : option value :=
  match v with
  | object_ o =>
      Some (match StrMap.find key o with Some x => x | None => null_ end)
  | _ => None
  end.

(** [v.get<double>()] and [v.get<std::string>()] assert the type. *)
Definition get_double (v : value) : option double :=
  match v with number_ d => Some d | _ => None end.

Definition get_string (v : value) : option string :=
  match v with string_ s => Some s | _ => None end.

Definition is_object (v : value) : bool :=
  match v with object_ _ => true | _ => false end.

Definition hex_char (n : Z) : ascii :=
  if n <? 10 then char_of_code (48 + n) else char_of_code (87 + n).

Definition serialize_str_char (c : ascii) : string :=
  let n := char_code c in
  if n =? 34 then String backslash (String dquote "")
  else if n =? 92 then String backslash (String backslash "")
  else if n =? 47 then String backslash "/"
  else if n =? 8 then String backslash "b"
  else if n =? 12 then String backslash "f"
  else if n =? 10 then String backslash "n"
  else if n =? 13 then String backslash "r"
  else if n =? 9 then String backslash "t"
  else if (n <? 32) || (n =? 127) then
    String backslash
      ("u00" ++ String (hex_char (n / 16)) (String (hex_char (n mod 16)) ""))
  else String c "".

Fixpoint serialize_chars (s : string) : string :=
  match s with
  | "" => ""
  | String c s' => serialize_str_char c ++ serialize_chars s'
  end.

Definition serialize_str (s : string) : string :=
  String dquote (serialize_chars s ++ String dquote "").

Definition INDENT_WIDTH : Z := 2.

Definition _indent (indent : Z) : string :=
  String newline (fill (Z.to_nat (indent * INDENT_WIDTH)) " ").

Definition to_str (v : value) : string :=
  match v with
  | null_ => "null"
  | boolean_ b => if b then "true" else "false"
  | number_ d => double_to_str d
  | string_ s => s
  | array_ _ => "array"
  | object_ _ => "object"
  end.

(** [indent] is -1 for the compact form and the depth otherwise. *)
Fixpoint _serialize (v : value) (indent : Z) {struct v} : string :=
  let inner := if indent =? -1 then indent else indent + 1 in
  let body :=
    match v with
    | string_ s => serialize_str s
    | array_ a =>
        "[" ++
        (fix items (first : bool) (l : list value) {struct l} : string :=
           match l with
           | [] => ""
           | x :: l' =>
               (if first then "" else ",")
               ++ (if inner =? -1 then "" else _indent inner)
               ++ _serialize x inner ++ items false l'
           end) true a
        ++ (if indent =? -1 then ""
            else match a with [] => "" | _ => _indent indent end)
        ++ "]"
    | object_ o =>
        "{" ++
        (fix items (first : bool) (l : list (string * value)) {struct l}
           : string :=
           match l with
           | [] => ""
           | (k, x) :: l' =>
               (if first then "" else ",")
               ++ (if inner =? -1 then "" else _indent inner)
               ++ serialize_str k ++ ":"
               ++ (if inner =? -1 then "" else " ")
               ++ _serialize x inner ++ items false l'
           end) true o
        ++ (if indent =? -1 then ""
            else match o with [] => "" | _ => _indent indent end)
        ++ "}"
    | _ => to_str v
    end in
  body ++ (if indent =? 0 then String newline "" else "").

Definition serialize (prettify : bool) (v : value) : string :=
  _serialize v (if prettify then 0 else -1).

(** *** The reader *)

Definition is_json_ws (c : ascii) : bool :=
  let n := char_code c in
  (n =? 32) || (n =? 9) || (n =? 10) || (n =? 13).

Fixpoint skip_ws (s : string) : string :=
  match s with
  | "" => ""
  | String c s' => if is_json_ws c then skip_ws s' else s
  end.

(** [in.expect(c)]: the input after [c], or nothing. *)
Definition expect (c : ascii) (s : string) : option string :=
  match skip_ws s with
  | String c' s' => if Ascii.eqb c' c then Some s' else None
  | "" => None
  end.

(** [in.match(pattern)] *)
Fixpoint match_ (pattern s : string) : option string :=
  match pattern with
  | "" => Some s
  | String p pattern' =>
      match s with
      | String c s' => if Ascii.eqb c p then match_ pattern' s' else None
      | "" => None
      end
  end.

Definition hex_val (c : ascii) : option Z :=
  let n := char_code c in
  if (48 <=? n) && (n <=? 57) then Some (n - 48)
  else if (65 <=? n) && (n <=? 70) then Some (n - 65 + 10)
  else if (97 <=? n) && (n <=? 102) then Some (n - 97 + 10)
  else None.

Definition _parse_quadhex (s : string) : option (Z * string) :=
  match s with
  | String c1 (String c2 (String c3 (String c4 s'))) =>
      match hex_val c1, hex_val c2, hex_val c3, hex_val c4 with
      | Some h1, Some h2, Some h3, Some h4 =>
          Some (((h1 * 16 + h2) * 16 + h3) * 16 + h4, s')
      | _, _, _, _ => None
      end
  | _ => None
  end.

(** The UTF-8 bytes of a code point. *)
Definition utf8 (u : Z) : string :=
  let byte z := char_of_code z in
  if u <? 128 then String (byte u) ""
  else
    let last := String (byte (Z.lor 128 (Z.land u 63))) "" in
    if u <? 2048 then String (byte (Z.lor 192 (Z.shiftr u 6))) last
    else
      let mid := String (byte (Z.lor 128 (Z.land (Z.shiftr u 6) 63))) last in
      if u <? 65536 then String (byte (Z.lor 224 (Z.shiftr u 12))) mid
      else
        String (byte (Z.lor 240 (Z.shiftr u 18)))
          (String (byte (Z.lor 128 (Z.land (Z.shiftr u 12) 63))) mid).

Definition _parse_codepoint (s : string) : option (string * string) :=
  match _parse_quadhex s with
  | None => None
  | Some (uni_ch, s1) =>
      if (55296 <=? uni_ch) && (uni_ch <=? 57343) then
        if 56320 <=? uni_ch then None
        else
          match s1 with
          | String b (String u s2) =>
              if Ascii.eqb b backslash && Ascii.eqb u "u" then
                match _parse_quadhex s2 with
                | None => None
                | Some (second, s3) =>
                    if (56320 <=? second) && (second <=? 57343) then
                      Some (utf8 (Z.lor (Z.shiftl (uni_ch - 55296) 10)
                                        (Z.land (second - 56320) 1023)
                                  + 65536), s3)
                    else None
                end
              else None
          | _ => None
          end
      else Some (utf8 uni_ch, s1)
  end.

Definition unescape (c : ascii) : option ascii :=
  let n := char_code c in
  if n =? 34 then Some dquote
  else if n =? 92 then Some backslash
  else if n =? 47 then Some "/"%char
  else if n =? 98 then Some (char_of_code 8)
  else if n =? 102 then Some (char_of_code 12)
  else if n =? 110 then Some (char_of_code 10)
  else if n =? 114 then Some (char_of_code 13)
  else if n =? 116 then Some (char_of_code 9)
  else None.

(** The text of a string after its opening quote, and the input after the
    closing one. *)
Fixpoint _parse_string (fuel : nat) (s : string) : option (string * string) :=
  match fuel with
  | O => None
  | S f =>
      match s with
      | "" => None
      | String ch s1 =>
          if char_code ch <? 32 then None
          else if Ascii.eqb ch dquote then Some ("", s1)
          else if Ascii.eqb ch backslash then
            match s1 with
            | "" => None
            | String e s2 =>
                if Ascii.eqb e "u" then
                  match _parse_codepoint s2 with
                  | None => None
                  | Some (bytes, s3) =>
                      match _parse_string f s3 with
                      | Some (out, rest) => Some (bytes ++ out, rest)
                      | None => None
                      end
                  end
                else
                  match unescape e with
                  | None => None
                  | Some c =>
                      match _parse_string f s2 with
                      | Some (out, rest) => Some (String c out, rest)
                      | None => None
                      end
                  end
            end
          else
            match _parse_string f s1 with
            | Some (out, rest) => Some (String ch out, rest)
            | None => None
            end
      end
  end.

(** The longest run of number characters at the front of the input. *)
Fixpoint _parse_number (s : string) : string * string :=
  match s with
  | "" => ("", "")
  | String c s' =>
      if is_num_char c then
        let '(num_str, rest) := _parse_number s' in (String c num_str, rest)
      else ("", s)
  end.

Section Loops.

Variable parse_value : string -> option (value * string).

(** The do-while loop of [_parse_array], after a first [expect(']')]
    failed. *)
Fixpoint _parse_array_items (n : nat) (s : string)
  : option (list value * string) :=
  match n with
  | O => None
  | S n' =>
      match parse_value s with
      | None => None
      | Some (v, s1) =>
          match expect "," s1 with
          | Some s2 =>
              match _parse_array_items n' s2 with
              | Some (l, s3) => Some (v :: l, s3)
              | None => None
              end
          | None =>
              match expect "]" s1 with
              | Some s2 => Some ([v], s2)
              | None => None
              end
          end
      end
  end.

(** The do-while loop of [_parse_object]; each item is stored under its
    key in the object read so far. *)
Fixpoint _parse_object_items (n : nat) (s : string) (o : object)
  : option (object * string) :=
  match n with
  | O => None
  | S n' =>
      match expect dquote s with
      | None => None
      | Some s1 =>
          match _parse_string (String.length s1) s1 with
          | None => None
          | Some (key, s2) =>
              match expect ":" s2 with
              | None => None
              | Some s3 =>
                  match parse_value s3 with
                  | None => None
                  | Some (v, s4) =>
                      let o' := StrMap.insert key v o in
                      match expect "," s4 with
                      | Some s5 => _parse_object_items n' s5 o'
                      | None =>
                          match expect "}" s4 with
                          | Some s5 => Some (o', s5)
                          | None => None
                          end
                      end
                  end
              end
          end
      end
  end.

End Loops.

(** [_parse]: one value and the input after it.  Every nested value
    stands behind at least one character of its parent, so the length of
    the input is fuel enough. *)
Fixpoint _parse (fuel : nat) (s : string) : option (value * string) :=
  match fuel with
  | O => None
  | S f =>
      match skip_ws s with
      | "" => None
      | String ch s1 =>
          if Ascii.eqb ch "n" then
            match match_ "ull" s1 with
            | Some s2 => Some (null_, s2)
            | None => None
            end
          else if Ascii.eqb ch "t" then
            match match_ "rue" s1 with
            | Some s2 => Some (boolean_ true, s2)
            | None => None
            end
          else if Ascii.eqb ch "f" then
            match match_ "alse" s1 with
            | Some s2 => Some (boolean_ false, s2)
            | None => None
            end
          else if Ascii.eqb ch "[" then
            match expect "]" s1 with
            | Some s2 => Some (array_ [], s2)
            | None =>
                match _parse_array_items (_parse f) (String.length s1) s1 with
                | Some (l, s2) => Some (array_ l, s2)
                | None => None
                end
            end
          else if Ascii.eqb ch "{" then
            match expect "}" s1 with
            | Some s2 => Some (object_ [], s2)
            | None =>
                match _parse_object_items (_parse f) (String.length s1) s1
                        StrMap.empty with
                | Some (o, s2) => Some (object_ o, s2)
                | None => None
                end
            end
          else if Ascii.eqb ch dquote then
            match _parse_string (String.length s1) s1 with
            | Some (str, s2) => Some (string_ str, s2)
            | None => None
            end
          else if starts_number ch then
            let '(num_str, s2) := _parse_number (String ch s1) in
            match strtod num_str with
            | Some f => Some (number_ f, s2)
            | None => None
            end
          else None
      end
  end.

(** [picojson::parse(out, json)]: the document, or nothing when the
    returned error text is not empty. *)
Definition parse (json : string) : option value :=
  match _parse (S (String.length json)) json with
  | Some (v, _) => Some v
  | None => None
  end.

End Json.
End picojson.

(** ** class VisItDataCollection *)

Record VisItFieldInfo : Type := {
  association : string;
  num_components : Z
}.

Module VisItDataCollection.
Section Class.

Context {C : Collaborators}.

Import DataCollection.

Record t : Type := {
  base : DataCollection.t;
  spatial_dim : Z;
  topo_dim : Z;
  visit_max_levels_of_detail : Z;
  field_info_map : StrMap.t VisItFieldInfo
}.

Definition set_base (x : DataCollection.t) (dc : t) : t :=
  {| base := x;
     spatial_dim := spatial_dim dc;
     topo_dim := topo_dim dc;
     visit_max_levels_of_detail := visit_max_levels_of_detail dc;
     field_info_map := field_info_map dc |}.

Definition set_spatial_dim (x : Z) (dc : t) : t :=
  {| base := base dc;
     spatial_dim := x;
     topo_dim := topo_dim dc;
     visit_max_levels_of_detail := visit_max_levels_of_detail dc;
     field_info_map := field_info_map dc |}.

Definition set_topo_dim (x : Z) (dc : t) : t :=
  {| base := base dc;
     spatial_dim := spatial_dim dc;
     topo_dim := x;
     visit_max_levels_of_detail := visit_max_levels_of_detail dc;
     field_info_map := field_info_map dc |}.

Definition set_visit_max_levels_of_detail (x : Z) (dc : t) : t :=
  {| base := base dc;
     spatial_dim := spatial_dim dc;
     topo_dim := topo_dim dc;
     visit_max_levels_of_detail := x;
     field_info_map := field_info_map dc |}.

Definition set_field_info_map (x : StrMap.t VisItFieldInfo) (dc : t) : t :=
  {| base := base dc;
     spatial_dim := spatial_dim dc;
     topo_dim := topo_dim dc;
     visit_max_levels_of_detail := visit_max_levels_of_detail dc;
     field_info_map := x |}.

(** A change of the inherited members. *)
Definition on_base (f : DataCollection.t -> DataCollection.t) (dc : t) : t :=
  set_base (f (base dc)) dc.

(** [VisItDataCollection(const char *collection_name)] *)
Definition create (collection_name : string) : t :=
  {| base := set_cycle 0 (set_serial false
               (DataCollection.create collection_name));
     spatial_dim := 0;
     topo_dim := 0;
     visit_max_levels_of_detail := 32;
     field_info_map := StrMap.empty |}.

(** [VisItDataCollection(const char *collection_name, Mesh *mesh)] *)
Definition create_with_mesh (collection_name : string) (mesh : option addr)
  : M t :=
  b <- DataCollection.create_with_mesh collection_name mesh ;;
  m <- deref_mesh mesh ;;
  ret {| base := set_cycle 0 (set_serial false b);
         spatial_dim := SpaceDimension m;
         topo_dim := Dimension m;
         visit_max_levels_of_detail := 32;
         field_info_map := StrMap.empty |}.

Definition SetMesh (new_mesh : option addr) (dc : t) : M t :=
  b <- DataCollection.SetMesh new_mesh (base dc) ;;
  let dc := set_base (set_serial false b) dc in
  m <- deref_mesh (mesh (base dc)) ;;
  ret (set_topo_dim (Dimension m) (set_spatial_dim (SpaceDimension m) dc)).

Definition RegisterField (nm : string) (gf : option addr) (dc : t) : M t :=
  b <- DataCollection.RegisterField nm gf (base dc) ;;
  g <- deref_field gf ;;
  ret (set_field_info_map
         (StrMap.insert nm {| association := "nodes";
                              num_components := VectorDim g |}
            (field_info_map dc))
         (set_base b dc)).

Definition SetMaxLevelsOfDetail (max_levels_of_detail : Z) (dc : t) : t :=
  set_visit_max_levels_of_detail max_levels_of_detail dc.

Definition DeleteAll (dc : t) : M t :=
  let dc := set_field_info_map StrMap.empty dc in
  b <- DataCollection.DeleteAll (base dc) ;;
  ret (set_base b dc).

(** The name shared by the cycle directory and the root file:
    [prefix_path + name + "_" + to_padded_string(cycle, pad_digits)]. *)
Definition cycle_path (dc : t) : string :=
  prefix_path (base dc) ++ name (base dc) ++ "_"
  ++ to_padded_string (cycle (base dc)) (pad_digits (base dc)).

Definition root_name (dc : t) : string := cycle_path dc ++ ".mfem_root".

(** The loop of [GetVisItRootString] over [field_info_map]; [ftags] and
    [field] are the objects reused from one entry to the next. *)
Fixpoint root_fields (path_str file_ext_format : string)
    (its : list (string * VisItFieldInfo))
    (ftags field fields : picojson.object) : picojson.object :=
  match its with
  | [] => fields
  | (k, info) :: its' =>
      let ftags :=
        StrMap.insert "assoc" (picojson.string_ (association info)) ftags in
      let ftags :=
        StrMap.insert "comps"
          (picojson.string_ (to_string (num_components info))) ftags in
      let field :=
        StrMap.insert "path"
          (picojson.string_ (path_str ++ k ++ file_ext_format)) field in
      let field := StrMap.insert "tags" (picojson.object_ ftags) field in
      root_fields path_str file_ext_format its' ftags field
        (StrMap.insert k (picojson.object_ field) fields)
  end.

(** The document that [GetVisItRootString] serializes. *)
Definition root_document (dc : t) : picojson.value :=
  let b := base dc in
  let path_str :=
    name b ++ "_" ++ to_padded_string (cycle b) (pad_digits b) ++ "/" in
  let file_ext_format := ".%0" ++ to_string (pad_digits b) ++ "d" in
  let mtags :=
    StrMap.insert "max_lods"
      (picojson.string_ (to_string (visit_max_levels_of_detail dc)))
      (StrMap.insert "topo_dim" (picojson.string_ (to_string (topo_dim dc)))
         (StrMap.insert "spatial_dim"
            (picojson.string_ (to_string (spatial_dim dc))) StrMap.empty)) in
  let mesh :=
    StrMap.insert "tags" (picojson.object_ mtags)
      (StrMap.insert "path"
         (picojson.string_ (path_str ++ "mesh" ++ file_ext_format))
         StrMap.empty) in
  let fields :=
    root_fields path_str file_ext_format (field_info_map dc)
      StrMap.empty StrMap.empty StrMap.empty in
  let main :=
    StrMap.insert "mesh" (picojson.object_ mesh)
      (StrMap.insert "domains" (picojson.number_ (double_of_int (num_procs b)))
         (StrMap.insert "time" (picojson.number_ (time b))
            (StrMap.insert "cycle" (picojson.number_ (double_of_int (cycle b)))
               StrMap.empty))) in
  let main :=
    if negb (StrMap.is_empty (field_info_map dc))
    then StrMap.insert "fields" (picojson.object_ fields) main
    else main in
  let dsets := StrMap.insert "main" (picojson.object_ main) StrMap.empty in
  picojson.object_
    (StrMap.insert "dsets" (picojson.object_ dsets) StrMap.empty).

Definition GetVisItRootString (dc : t) : string :=
  picojson.serialize true (root_document dc).

Definition SaveRootFile (dc : t) : M t :=
  if myid (base dc) =? 0 then
    open_out (root_name dc) ;;;
    ok <- stream_out (root_name dc) (GetVisItRootString dc) ;;
    if ok then ret dc
    else
      MFEM_WARNING ("Error writting VisIt Root file: " ++ root_name dc) ;;;
      ret (on_base (set_error WRITE_ERROR) dc)
  else ret dc.

Definition Save (dc : t) : M t :=
  b <- DataCollection.Save (base dc) ;;
  SaveRootFile (set_base b dc).

(** An assertion of picojson: the value, or the end of the run. *)
Definition asserted {A : Type} (o : option A) : M A :=
  match o with
  | Some a => ret a
  | None => abort
  end.

(** The loop of [ParseVisItRootString] over the members of "fields". *)
Fixpoint parse_fields (its : list (string * picojson.value))
    (fim : StrMap.t VisItFieldInfo) : M (StrMap.t VisItFieldInfo) :=
  match its with
  | [] => ret fim
  | (k, v) :: its' =>
      tags <- asserted (picojson.get "tags" v) ;;
      assoc <- asserted (picojson.get "assoc" tags) ;;
      assoc <- asserted (picojson.get_string assoc) ;;
      comps <- asserted (picojson.get "comps" tags) ;;
      comps <- asserted (picojson.get_string comps) ;;
      parse_fields its'
        (StrMap.insert k {| association := assoc;
                            num_components := to_int comps |} fim)
  end.

Definition read_tag (key : string) (mesh : picojson.value) : M Z :=
  tags <- asserted (picojson.get "tags" mesh) ;;
  v <- asserted (picojson.get key tags) ;;
  s <- asserted (picojson.get_string v) ;;
  ret (to_int s).

Definition ParseVisItRootString (json : string) (dc : t) : M t :=
  match picojson.parse json with
  | None =>
      MFEM_WARNING "Unable to parse visit root data." ;;;
      ret (on_base (set_error READ_ERROR) dc)
  | Some top =>
      dsets <- asserted (picojson.get "dsets" top) ;;
      main <- asserted (picojson.get "main" dsets) ;;
      v <- asserted (picojson.get "cycle" main) ;;
      d <- asserted (picojson.get_double v) ;;
      let dc := on_base (set_cycle (int_of_double d)) dc in
      v <- asserted (picojson.get "time" main) ;;
      d <- asserted (picojson.get_double v) ;;
      let dc := on_base (set_time d) dc in
      v <- asserted (picojson.get "domains" main) ;;
      d <- asserted (picojson.get_double v) ;;
      let dc := on_base (set_num_procs (int_of_double d)) dc in
      mesh <- asserted (picojson.get "mesh" main) ;;
      fields <- asserted (picojson.get "fields" main) ;;
      v <- asserted (picojson.get "path" mesh) ;;
      path <- asserted (picojson.get_string v) ;;
      match find_char "_" path with
      | None =>
          MFEM_WARNING "Unable to parse visit root data." ;;;
          ret (on_base (set_error READ_ERROR) dc)
      | Some right_sep =>
          let dc := on_base (set_name (substr0 right_sep path)) dc in
          sd <- read_tag "spatial_dim" mesh ;;
          let dc := set_spatial_dim sd dc in
          td <- read_tag "topo_dim" mesh ;;
          let dc := set_topo_dim td dc in
          ml <- read_tag "max_lods" mesh ;;
          let dc := set_visit_max_levels_of_detail ml dc in
          let dc := set_field_info_map StrMap.empty dc in
          match fields with
          | picojson.object_ fields_obj =>
              fim <- parse_fields fields_obj (field_info_map dc) ;;
              ret (set_field_info_map fim dc)
          | _ => ret dc
          end
      end
  end.

Definition LoadVisItRootFile (root_name : string) (dc : t) : M t :=
  buffer <- open_in root_name ;;
  match buffer with
  | Some (String c text) => ParseVisItRootString (String c text) dc
  | _ =>
      MFEM_WARNING ("Error reading the VisIt Root file: " ++ root_name) ;;;
      ret (on_base (set_error READ_ERROR) dc)
  end.

Definition mesh_fname (dc : t) : string :=
  cycle_path dc ++ "/mesh."
  ++ to_padded_string (myid (base dc)) (pad_digits (base dc)).

Definition LoadMesh (dc : t) : M t :=
  file <- open_in (mesh_fname dc) ;;
  match file with
  | None =>
      MFEM_WARNING ("Unable to open mesh file: " ++ mesh_fname dc) ;;;
      ret (on_base (set_error READ_ERROR) dc)
  | Some text =>
      p <- new_mesh (Mesh_read text) ;;
      let dc := on_base (set_mesh p) dc in
      m <- deref_mesh (mesh (base dc)) ;;
      ret (set_topo_dim (Dimension m) (set_spatial_dim (SpaceDimension m) dc))
  end.

Definition field_fname (field : string) (dc : t) : string :=
  (cycle_path dc ++ "/") ++ field
  ++ ("." ++ to_padded_string (myid (base dc)) (pad_digits (base dc))).

(** The loop of [LoadFields] over [field_info_map]. *)
Fixpoint load_fields (its : list (string * VisItFieldInfo)) (dc : t) : M t :=
  match its with
  | [] => ret dc
  | (k, _) :: its' =>
      file <- open_in (field_fname k dc) ;;
      match file with
      | None =>
          MFEM_WARNING ("Unable to open field file: " ++ field_fname k dc) ;;;
          ret (on_base (set_error READ_ERROR) dc)
      | Some text =>
          m <- deref_mesh (mesh (base dc)) ;;
          p <- new_field (GridFunction_read m text) ;;
          load_fields its'
            (on_base (fun b =>
                        set_field_map (StrMap.insert k p (field_map b)) b) dc)
      end
  end.

Definition LoadFields (dc : t) : M t :=
  let dc := on_base (set_field_map StrMap.empty) dc in
  load_fields (field_info_map dc) dc.

Definition Load (_cycle : Z) (dc : t) : M t :=
  dc <- DeleteAll dc ;;
  let dc := on_base (set_cycle _cycle) dc in
  dc <- LoadVisItRootFile (root_name dc) dc ;;
  dc <- (if negb (is_error (error (base dc))) then LoadMesh dc else ret dc) ;;
  dc <- (if negb (is_error (error (base dc))) then LoadFields dc else ret dc) ;;
  if negb (is_error (error (base dc)))
  then ret (on_base (set_own_data true) dc)
  else DeleteAll dc.

(** [~VisItDataCollection()] *)
Definition destroy (dc : t) : M unit := DataCollection.destroy (base dc).

End Class.
End VisItDataCollection.

(** ** Vocabulary of the statements *)

Section Vocabulary.

Context {C : Collaborators}.

Local Open Scope list_scope.

(** [grows P w o]: the call that led from [w] to [o] only appended events,
    and all of them satisfy [P]. *)
Definition grows {A : Type} (P : event -> Prop) (w : World) (o : outcome A)
  : Prop :=
  exists l, log (world_of o) = log w ++ l /\ Forall P l.

(** What a call may change besides the log: a call that keeps the heap
    and the environment. *)
Definition same_heap (w w' : World) : Prop :=
  failing_dirs w' = failing_dirs w /\ failing_files w' = failing_files w
  /\ meshes w' = meshes w /\ gfuncs w' = gfuncs w
  /\ next_addr w' = next_addr w.

(** A mesh pointer that can be used: null where the code only casts it,
    or the address of a live mesh. *)
Definition mesh_ok (p : option addr) (w : World) : Prop :=
  match p with
  | None => True
  | Some a => exists m, heap_find a (meshes w) = Some m
  end.

Definition ranks_of (p : option addr) (w : World) : option (Z * Z) :=
  match p with
  | None => None
  | Some a => match heap_find a (meshes w) with
              | Some m => ParMesh_ranks m
              | None => None
              end
  end.

(** Whether this process is the one that calls [mkdir]. *)
Definition creates (myid : Z) (pmesh : option (Z * Z)) : bool :=
  (myid =? 0) || match pmesh with None => true | Some _ => false end.

Definition mkdir_events (dir : string) (myid : Z) (pmesh : option (Z * Z))
  : list event :=
  if creates myid pmesh then [EvMkdir dir] else [].

(** Every value of the field map is the address of a live grid
    function. *)
Definition fields_live (its : list (string * option addr)) (w : World) : Prop :=
  Forall (fun it => exists a g,
            snd it = Some a /\ heap_find a (gfuncs w) = Some g) its.

(** What [SaveOneField] logs for an entry: the file is opened, and a
    warning follows when the stream failed. *)
Definition field_events (w : World) (dc : DataCollection.t)
    (it : string * option addr) : list event :=
  let f := DataCollection.file_name (fst it) dc in
  EvWrite f ::
  (if write_fails w f
   then [EvWarning ("Error writting field to file: " ++ fst it)%string]
   else []).

Definition field_fails (w : World) (dc : DataCollection.t)
    (it : string * option addr) : bool :=
  write_fails w (DataCollection.file_name (fst it) dc).


(** One of the two directory creations of [SaveMesh] fails. *)
Definition dirs_fail (w : World) (dc : DataCollection.t) : bool :=
  (negb (string_empty (DataCollection.prefix_path dc))
   && mkdir_fails w (DataCollection.prefix_path dc))
  || mkdir_fails w (DataCollection.dir_name dc).

(** A collection whose mesh and fields can be written. *)
Definition saveable (dc : DataCollection.t) (w : World) : Prop :=
  (exists a m, DataCollection.mesh dc = Some a
               /\ heap_find a (meshes w) = Some m)
  /\ fields_live (DataCollection.field_map dc) w.

(** What the last part of [SaveMesh] logs: the mesh file is opened, and a
    warning follows when the stream failed. *)
Definition mesh_events (w : World) (dc : DataCollection.t) : list event :=
  let f := DataCollection.mesh_name dc in
  EvWrite f ::
  (if write_fails w f
   then [EvWarning ("Error writing mesh to file: " ++ f)%string]
   else []).

(** What the creation of the cycle directory logs. *)
Definition cycle_dir_events (w : World) (dc : DataCollection.t) : list event :=
  let d := DataCollection.dir_name dc in
  mkdir_events d (DataCollection.myid dc) (ranks_of (DataCollection.mesh dc) w)
  ++ (if mkdir_fails w d
      then [EvWarning ("Error creating directory: " ++ d)%string]
      else []).

(** What the two directory creations of [SaveMesh] log. *)
Definition dir_events (w : World) (dc : DataCollection.t) : list event :=
  let p := DataCollection.prefix_path dc in
  if string_empty p then cycle_dir_events w dc
  else
    mkdir_events p (DataCollection.myid dc) (ranks_of (DataCollection.mesh dc) w)
    ++ (if mkdir_fails w p
        then [EvWarning ("Error creating directory: " ++ p)%string]
        else cycle_dir_events w dc).

(** The error flag after a step that fails when [failed] holds. *)
Definition flag (failed : bool) (dc : DataCollection.t) : DataCollection.t :=
  if failed then DataCollection.set_error WRITE_ERROR dc else dc.

(** What [Save] logs after the directories. *)
Definition save_events (w : World) (dc : DataCollection.t) : list event :=
  if dirs_fail w dc then []
  else
    mesh_events w dc
    ++ (if write_fails w (DataCollection.mesh_name dc)
           || is_error (DataCollection.error dc)
        then []
        else flat_map (field_events w dc) (DataCollection.field_map dc)).

Definition is_write (e : event) : Prop :=
  match e with EvWrite _ => True | _ => False end.

Definition is_delete (e : event) : Prop :=
  match e with
  | EvDeleteMesh _ | EvDeleteField _ => True
  | _ => False
  end.

(** The collection after [DeleteAll]: no mesh, no field, nothing owned,
    everything else as before. *)
Definition emptied (dc : DataCollection.t) : DataCollection.t :=
  DataCollection.set_field_map StrMap.empty
    (DataCollection.set_own_data false (DataCollection.set_mesh None dc)).

Definition visit_emptied (dc : VisItDataCollection.t) : VisItDataCollection.t :=
  VisItDataCollection.set_base (emptied (VisItDataCollection.base dc))
    (VisItDataCollection.set_field_info_map StrMap.empty dc).

(** [returns o Q]: the call returned, with a value and in a world that
    satisfy [Q]. *)
Definition returns {A : Type} (o : outcome A)
    (Q : A -> World -> Prop) : Prop :=
  match o with
  | Ok a w => Q a w
  | Abort _ => False
  end.

(** [ensures R o]: a call that returned, returned a value in [R]. *)
Definition ensures {A : Type} (R : A -> Prop) (o : outcome A) : Prop :=
  match o with
  | Ok a _ => R a
  | Abort _ => True
  end.

Definition flags_kept (b b' : DataCollection.t) : Prop :=
  DataCollection.own_data b' = DataCollection.own_data b
  /\ DataCollection.serial b' = DataCollection.serial b.

Definition visit_flags_kept (dc dc' : VisItDataCollection.t) : Prop :=
  flags_kept (VisItDataCollection.base dc) (VisItDataCollection.base dc').

Inductive op : Type :=
| OpSetMesh (new_mesh : option addr)
| OpRegisterField (name : string) (gf : option addr)
| OpSetPrefixPath (prefix : option string)
| OpSetMaxLevelsOfDetail (max_levels_of_detail : Z)
| OpSave
| OpSaveField (field_name : string)
| OpDeleteData
| OpDeleteAll
| OpLoad (cycle : Z).

Definition run_op (o : op) (dc : VisItDataCollection.t)
  : M VisItDataCollection.t :=
  match o with
  | OpSetMesh p => VisItDataCollection.SetMesh p dc
  | OpRegisterField nm gf => VisItDataCollection.RegisterField nm gf dc
  | OpSetPrefixPath prefix =>
      ret (VisItDataCollection.on_base
             (DataCollection.SetPrefixPath prefix) dc)
  | OpSetMaxLevelsOfDetail n =>
      ret (VisItDataCollection.SetMaxLevelsOfDetail n dc)
  | OpSave => VisItDataCollection.Save dc
  | OpSaveField nm =>
      b <- DataCollection.SaveField nm (VisItDataCollection.base dc) ;;
      ret (VisItDataCollection.set_base b dc)
  | OpDeleteData =>
      b <- DataCollection.DeleteData (VisItDataCollection.base dc) ;;
      ret (VisItDataCollection.set_base b dc)
  | OpDeleteAll => VisItDataCollection.DeleteAll dc
  | OpLoad c => VisItDataCollection.Load c dc
  end.

(** [Unloaded dc w dc' w']: a run of operations from [dc] in [w] to [dc']
    in [w'] after each of which the collection owns no data, that is, a
    run without a successful [Load]. *)
Inductive Unloaded : VisItDataCollection.t -> World ->
                     VisItDataCollection.t -> World -> Prop :=
| Unloaded_refl dc w : Unloaded dc w dc w
| Unloaded_step dc w dc1 w1 o dc2 w2 :
    Unloaded dc w dc1 w1 ->
    run_op o dc1 w1 = Ok dc2 w2 ->
    DataCollection.own_data (VisItDataCollection.base dc2) = false ->
    Unloaded dc w dc2 w2.

(** [Reachable dc w dc' w']: any run of operations. *)
Inductive Reachable : VisItDataCollection.t -> World ->
                      VisItDataCollection.t -> World -> Prop :=
| Reachable_refl dc w : Reachable dc w dc w
| Reachable_step dc w dc1 w1 o dc2 w2 :
    Reachable dc w dc1 w1 ->
    run_op o dc1 w1 = Ok dc2 w2 ->
    Reachable dc w dc2 w2.

(** The files opened for reading, in the order of the log. *)
Definition reads (l : list event) : list string :=
  flat_map (fun e => match e with EvRead p => [p] | _ => [] end) l.

(** The collection after [ParseVisItRootString] gave up at the missing
    underscore: cycle, time and number of ranks are those of the root
    file already. *)
Definition half_parsed (dcycle dtime ddomains : double)
    (dc : VisItDataCollection.t) : VisItDataCollection.t :=
  VisItDataCollection.on_base (DataCollection.set_error READ_ERROR)
    (VisItDataCollection.on_base
       (DataCollection.set_num_procs (int_of_double ddomains))
       (VisItDataCollection.on_base (DataCollection.set_time dtime)
          (VisItDataCollection.on_base
             (DataCollection.set_cycle (int_of_double dcycle)) dc))).

(** The entries of a field map with every value set to null. *)
Definition nulled (its : list (string * option addr)) : StrMap.t (option addr) :=
  map (fun it => (fst it, @None addr)) its.

(** The addresses held by a field map, in the order of the names. *)
Definition field_addrs (its : list (string * option addr)) : list addr :=
  flat_map (fun it => match snd it with Some a => [a] | None => [] end) its.

(** The field map that [LoadFields] builds on [fm] when every file is
    there: the handles are allocated one after the other from [a], in
    the order of the names. *)
Fixpoint loaded_map (its : list (string * VisItFieldInfo)) (a : addr)
    (fm : StrMap.t (option addr)) : StrMap.t (option addr) :=
  match its with
  | [] => fm
  | (k, _) :: its' => loaded_map its' (S a) (StrMap.insert k (Some a) fm)
  end.

(** What the loop of [LoadFields] logs when every file is there: each
    file is opened and its field allocated, in the order of the names. *)
Fixpoint load_events (fname : string -> string)
    (its : list (string * VisItFieldInfo)) (a : addr) : list event :=
  match its with
  | [] => []
  | (k, _) :: its' =>
      EvRead (fname k) :: EvNewField a :: load_events fname its' (S a)
  end.

(** The field map of a successful load as a list: the names of the field
    info, each with the next handle. *)
Fixpoint loaded_list (its : list (string * VisItFieldInfo)) (a : addr)
  : StrMap.t (option addr) :=
  match its with
  | [] => []
  | (k, _) :: its' => (k, Some a) :: loaded_list its' (S a)
  end.

(** Every name of [fm] comes before [k]. *)
Definition below {V : Type} (fm : StrMap.t V) (k : string) : Prop :=
  forall k', In k' (StrMap.keys fm) -> String.compare k' k = Lt.

(** The addresses allocated and the addresses deleted in a log. *)
Definition news (l : list event) : list addr :=
  flat_map (fun e => match e with
                     | EvNewMesh a | EvNewField a => [a]
                     | _ => []
                     end) l.

Definition deletes (l : list event) : list addr :=
  flat_map (fun e => match e with
                     | EvDeleteMesh a | EvDeleteField a => [a]
                     | _ => []
                     end) l.

(** The name that [ParseVisItRootString] takes from the mesh path of a
    collection called [nm]: the path up to its first underscore. *)
Definition name_read_back (nm : string) : string :=
  match find_char "_" nm with Some n => substr0 n nm | None => nm end.

(** The member of "fields" that [GetVisItRootString] writes for a field. *)
Definition field_member (path_str file_ext_format : string)
    (it : string * VisItFieldInfo) : string * picojson.value :=
  (fst it,
   picojson.object_
     [("path"%string, picojson.string_ (path_str ++ fst it ++ file_ext_format)%string);
      ("tags"%string,
       picojson.object_
         [("assoc"%string, picojson.string_ (association (snd it)));
          ("comps"%string,
           picojson.string_ (to_string (num_components (snd it))))])]).

(** The objects [ftags] and [field] of [GetVisItRootString] before an
    entry: empty at first, then holding the two members of the entry
    before. *)
Definition empty_or_pair {V : Type} (k1 k2 : string) (m : StrMap.t V) : Prop :=
  m = [] \/ exists v1 v2, m = [(k1, v1); (k2, v2)].

(** The field info that [ParseVisItRootString] reads from the member
    written for [it]. *)
Definition read_info (it : string * VisItFieldInfo) : VisItFieldInfo :=
  {| association := association (snd it);
     num_components := to_int (to_string (num_components (snd it))) |}.

(** A VisIt collection on rank 0 that [Save] can write and whose root
    file can be read back: mesh and fields are live, nothing fails in
    the world, no error is pending, the numbers of the root file are in
    the range of [int], and the field info names the registered
    fields. *)
Definition ready_to_save (dc : VisItDataCollection.t) (w : World) : Prop :=
  let b := VisItDataCollection.base dc in
  saveable b w
  /\ failing_dirs w = [] /\ failing_files w = []
  /\ DataCollection.serial b = false
  /\ DataCollection.myid b = 0
  /\ DataCollection.error b = NO_ERROR
  /\ int_range (DataCollection.cycle b)
  /\ int_range (DataCollection.num_procs b)
  /\ int_range (VisItDataCollection.spatial_dim dc)
  /\ int_range (VisItDataCollection.topo_dim dc)
  /\ int_range (VisItDataCollection.visit_max_levels_of_detail dc)
  /\ StrMap.sorted (VisItDataCollection.field_info_map dc)
  /\ Forall (fun it : string * VisItFieldInfo =>
               int_range (num_components (snd it)))
       (VisItDataCollection.field_info_map dc)
  /\ StrMap.keys (DataCollection.field_map b)
     = StrMap.keys (VisItDataCollection.field_info_map dc).

(** A collection that can load what [dc] saved: it owns nothing, has no
    error, and has the name, the prefix and the pad digits of [dc], on
    rank 0. *)
Definition loads_for (dc l : VisItDataCollection.t) : Prop :=
  let b := VisItDataCollection.base dc in
  let lb := VisItDataCollection.base l in
  DataCollection.own_data lb = false
  /\ DataCollection.error lb = NO_ERROR
  /\ DataCollection.name lb = DataCollection.name b
  /\ DataCollection.prefix_path lb = DataCollection.prefix_path b
  /\ DataCollection.pad_digits lb = DataCollection.pad_digits b
  /\ DataCollection.myid lb = 0.

(** What [m[k] = v] does to the names of a map. *)
Fixpoint insert_key (k : string) (l : list string) : list string :=
  match l with
  | [] => [k]
  | k' :: l' =>
      match String.compare k k' with
      | Lt => k :: l
      | Eq => k :: l'
      | Gt => k' :: insert_key k l'
      end
  end.

(** The two maps of a VisIt collection hold the same names, in strictly
    increasing order. *)
Definition in_step (dc : VisItDataCollection.t) : Prop :=
  StrMap.sorted (DataCollection.field_map (VisItDataCollection.base dc))
  /\ StrMap.sorted (VisItDataCollection.field_info_map dc)
  /\ StrMap.keys (DataCollection.field_map (VisItDataCollection.base dc))
     = StrMap.keys (VisItDataCollection.field_info_map dc).

End Vocabulary.

(** ** A small instance of the collaborators

    For the concrete scenarios: the numbers of the root file are the
    integral ones, a mesh is its two dimensions and its rank data, and a
    grid function is its vector dimension; both are written as decimal
    text. *)

Module Demo.

Record mesh_t : Type := {
  space_dim : Z;
  dim : Z;
  ranks : option (Z * Z)
}.

(** [strtod] on a token that spells an integer. *)
Definition strtod_int (s : string) : option Z :=
  let '(neg, digits) :=
    match s with
    | String "-" s' => (true, s')
    | _ => (false, s)
    end in
  if negb (string_empty digits) && all_chars is_digit digits
  then Some (if neg then - dval digits else dval digits)
  else None.

Definition print_mesh (m : mesh_t) (precision : Z) : string :=
  to_string (space_dim m) ++ " " ++ to_string (dim m).

Definition read_mesh (text : string) : mesh_t :=
  match find_char " " text with
  | Some n =>
      {| space_dim := to_int (substr0 n text);
         dim := to_int (String.substring (S n) (String.length text) text);
         ranks := None |}
  | None => {| space_dim := 0; dim := 0; ranks := None |}
  end.

#[export] Instance collaborators : Collaborators := {|
  double := Z;
  double_of_int := fun z => z;
  int_of_double := fun z => z;
  double_to_str := put_int;
  strtod := strtod_int;
  Mesh := mesh_t;
  SpaceDimension := space_dim;
  Dimension := dim;
  ParMesh_ranks := ranks;
  Mesh_Print := print_mesh;
  Mesh_read := read_mesh;
  GridFunction := Z;
  VectorDim := fun g => g;
  GridFunction_Save := fun g _ => to_string g;
  GridFunction_read := fun _ text => to_int text;
  precision_default := 6;
  pad_digits_default := 6
|}.

(** A world with no file, in which nothing fails, holding the given
    objects. *)
Definition world (ms : list (addr * mesh_t)) (gs : list (addr * Z)) : World :=
  {| files := StrMap.empty;
     failing_dirs := [];
     failing_files := [];
     meshes := ms;
     gfuncs := gs;
     next_addr := 100%nat;
     log := [] |}.

Definition with_write_fails (f : list string) (w : World) : World :=
  {| files := files w; failing_dirs := failing_dirs w; failing_files := f;
     meshes := meshes w; gfuncs := gfuncs w; next_addr := next_addr w;
     log := log w |}.

Definition with_mkdir_fails (f : list string) (w : World) : World :=
  {| files := files w; failing_dirs := f; failing_files := failing_files w;
     meshes := meshes w; gfuncs := gfuncs w; next_addr := next_addr w;
     log := log w |}.

Definition clear_log (w : World) : World :=
  {| files := files w; failing_dirs := failing_dirs w;
     failing_files := failing_files w;
     meshes := meshes w; gfuncs := gfuncs w; next_addr := next_addr w;
     log := [] |}.

(** The scenario of the specification: collection "run", six pad digits,
    cycle 3, two ranks, one field "pressure" with one component.  Each
    rank holds its part of the mesh at address 1 and its part of the field
    at address 2. *)
Definition run_mesh (rank : Z) : mesh_t :=
  {| space_dim := 2; dim := 2; ranks := Some (rank, 2) |}.

Definition run_world (rank : Z) : World :=
  world [(1%nat, run_mesh rank)] [(2%nat, 1)].

(** The collection of a rank after [SetCycle(3)]. *)
Definition run_collection : M VisItDataCollection.t :=
  dc <- VisItDataCollection.create_with_mesh "run" (Some 1%nat) ;;
  dc <- VisItDataCollection.RegisterField "pressure" (Some 2%nat) dc ;;
  ret (VisItDataCollection.on_base (DataCollection.set_cycle 3) dc).

Definition run_save : M VisItDataCollection.t :=
  dc <- run_collection ;; VisItDataCollection.Save dc.

(** Rank 1 saves into the directory tree that rank 0 left. *)
Definition run_world_after_rank0 : World :=
  set_files (files (world_of (run_save (run_world 0)))) (run_world 1).

(** The collection of rank 0, ready to be saved. *)
Definition run_dc : VisItDataCollection.t :=
  match run_collection (run_world 0) with
  | Ok dc _ => dc
  | Abort _ => VisItDataCollection.create "run"
  end.

(** The world of rank 0 when the stream of its mesh file fails. *)
Definition mesh_stream_fails : World :=
  with_write_fails ["run_000003/mesh.000000"] (run_world 0).


(** The world of rank 0 after its [Save], with an empty log. *)
Definition run_world_saved : World :=
  clear_log (world_of (run_save (run_world 0))).

(** What a call returned, for the calls of the scenarios (all of which
    return). *)
Definition result_of (o : outcome VisItDataCollection.t)
  : VisItDataCollection.t :=
  match o with
  | Ok dc _ => dc
  | Abort _ => VisItDataCollection.create ""
  end.

(** A directory tree that only holds the root file of the scenario. *)
Definition run_world_root_only : World :=
  set_files
    (StrMap.insert "run_000003.mfem_root"
       (VisItDataCollection.GetVisItRootString run_dc) StrMap.empty)
    (world [] []).

(** The tree of the scenario without the file of the field. *)
Definition run_world_no_field : World :=
  set_files
    (StrMap.insert "run_000003/mesh.000000" "2 2"
       (files run_world_root_only))
    (world [] []).

(** The root file stage of [Load(3)] on a new collection "run". *)
Definition run_root_stage (w : World) : outcome VisItDataCollection.t :=
  let dc0 := visit_emptied (VisItDataCollection.create "run") in
  let dc0 := VisItDataCollection.on_base (DataCollection.set_cycle 3) dc0 in
  VisItDataCollection.LoadVisItRootFile (VisItDataCollection.root_name dc0)
    dc0 w.

(** The document behind an option, for the documents of the scenarios. *)
Definition value_of (o : option picojson.value) : picojson.value :=
  match o with
  | Some v => v
  | None => picojson.null_
  end.

Definition is_some {A : Type} (o : option A) : bool :=
  match o with Some _ => true | None => false end.

(** A root file for cycle 7 at time 2 on 4 ranks whose mesh path has no
    underscore. *)
Definition bad_root_document : picojson.value :=
  picojson.object_
    [("dsets",
      picojson.object_
        [("main",
          picojson.object_
            [("cycle", picojson.number_ 7);
             ("domains", picojson.number_ 4);
             ("mesh",
              picojson.object_ [("path", picojson.string_ "nounderscore")]);
             ("time", picojson.number_ 2)])])].

Definition bad_root_text : string := picojson.serialize true bad_root_document.

Definition bad_root_world : World :=
  set_files (StrMap.insert "run_000003.mfem_root" bad_root_text StrMap.empty)
    (world [] []).

(** A serial run of a collection called [nm] with one field "pressure":
    the collection before [Save] at cycle 3, and the world after its
    [Save], with an empty log. *)
Definition serial_mesh : mesh_t := {| space_dim := 3; dim := 2; ranks := None |}.

Definition named_collection (nm : string) : M VisItDataCollection.t :=
  dc <- VisItDataCollection.create_with_mesh nm (Some 1%nat) ;;
  dc <- VisItDataCollection.RegisterField "pressure" (Some 2%nat) dc ;;
  ret (VisItDataCollection.on_base (DataCollection.set_cycle 3) dc).

Definition named_dc (nm : string) : VisItDataCollection.t :=
  result_of (named_collection nm (world [(1%nat, serial_mesh)] [(2%nat, 1)])).

Definition named_world_saved (nm : string) : World :=
  clear_log
    (world_of (VisItDataCollection.Save (named_dc nm)
                 (world [(1%nat, serial_mesh)] [(2%nat, 1)]))).

(** Whether two documents are the same. *)
Fixpoint value_eqb (a b : picojson.value) {struct a} : bool :=
  match a, b with
  | picojson.null_, picojson.null_ => true
  | picojson.boolean_ x, picojson.boolean_ y => Bool.eqb x y
  | picojson.number_ x, picojson.number_ y => Z.eqb x y
  | picojson.string_ x, picojson.string_ y => String.eqb x y
  | picojson.array_ x, picojson.array_ y =>
      (fix items (l1 l2 : list picojson.value) {struct l1} : bool :=
         match l1, l2 with
         | [], [] => true
         | v1 :: l1', v2 :: l2' => value_eqb v1 v2 && items l1' l2'
         | _, _ => false
         end) x y
  | picojson.object_ x, picojson.object_ y =>
      (fix items (l1 l2 : list (string * picojson.value)) {struct l1} : bool :=
         match l1, l2 with
         | [], [] => true
         | (k1, v1) :: l1', (k2, v2) :: l2' =>
             String.eqb k1 k2 && value_eqb v1 v2 && items l1' l2'
         | _, _ => false
         end) x y
  | _, _ => false
  end.

(** Whether the reader gave the document [v]. *)
Definition same_document (o : option picojson.value) (v : picojson.value)
  : bool :=
  match o with Some x => value_eqb x v | None => false end.

(** A text between double quotes. *)
Definition quoted (s : string) : string :=
  String dquote (s ++ String dquote "").

End Demo.

(* ================================================================= *)
(** * Properties *)

Example to_string_ex : to_string 32 = "32" /\ to_string (-7) = "-7"
                       /\ to_string 0 = "0".
Proof. repeat split. Qed.

Example to_padded_string_ex :
  to_padded_string 3 6 = "000003" /\ to_padded_string 1234567 6 = "1234567"
  /\ to_padded_string (-1) 6 = "0000-1" /\ to_padded_string 5 0 = "5".
Proof. repeat split. Qed.

Example to_int_ex : to_int "32" = 32 /\ to_int " -7x" = -7 /\ to_int "abc" = 0.
Proof. repeat split. Qed.

(** ** Decimal printing and reading *)

Lemma append_assoc (s1 s2 s3 : string) : (s1 ++ s2) ++ s3 = s1 ++ (s2 ++ s3).
Proof. induction s1 as [|c s1 IH]; simpl; [reflexivity | now rewrite IH]. Qed.

Lemma append_nil_r (s : string) : s ++ "" = s.
Proof. induction s as [|c s IH]; simpl; [reflexivity | now rewrite IH]. Qed.

Lemma length_append (s1 s2 : string) :
  String.length (s1 ++ s2) = (String.length s1 + String.length s2)%nat.
Proof. induction s1 as [|c s1 IH]; simpl; [reflexivity | now rewrite IH]. Qed.

Lemma char_code_of_code z : 0 <= z < 256 -> char_code (char_of_code z) = z.
Proof.
  intros H. unfold char_code, char_of_code.
  rewrite N_ascii_embedding by lia. lia.
Qed.

Lemma char_of_code_code c : char_of_code (char_code c) = c.
Proof.
  unfold char_code, char_of_code. rewrite N2Z.id. apply ascii_N_embedding.
Qed.

Lemma char_code_range c : 0 <= char_code c < 256.
Proof.
  unfold char_code. pose proof (N_ascii_bounded c). lia.
Qed.

Lemma char_code_inj c1 c2 : char_code c1 = char_code c2 -> c1 = c2.
Proof.
  intros H. rewrite <- (char_of_code_code c1), <- (char_of_code_code c2).
  now rewrite H.
Qed.

Lemma digit_char_code d : 0 <= d < 10 -> char_code (digit_char d) = 48 + d.
Proof. intros H. unfold digit_char. apply char_code_of_code. lia. Qed.

Lemma digit_char_is_digit d : 0 <= d < 10 -> is_digit (digit_char d) = true.
Proof.
  intros H. unfold is_digit. rewrite digit_char_code by assumption.
  apply andb_true_intro. split; apply Z.leb_le; lia.
Qed.

Lemma digit_val_char d : 0 <= d < 10 -> digit_val (digit_char d) = d.
Proof. intros H. unfold digit_val. rewrite digit_char_code by assumption. lia. Qed.

Lemma digit_val_range c : is_digit c = true -> 0 <= digit_val c < 10.
Proof.
  unfold is_digit, digit_val. intros H.
  apply andb_prop in H. destruct H as [H1 H2].
  apply Z.leb_le in H1. apply Z.leb_le in H2. lia.
Qed.

Lemma dec_digits_app fuel : forall n acc,
  dec_digits fuel n acc = dec_digits fuel n "" ++ acc.
Proof.
  induction fuel as [|f IH]; intros n acc; simpl.
  - reflexivity.
  - destruct (n <? 10); [reflexivity|].
    rewrite IH. rewrite (IH _ (String _ "")).
    rewrite append_assoc. reflexivity.
Qed.

Lemma all_chars_app p s1 s2 :
  all_chars p (s1 ++ s2) = all_chars p s1 && all_chars p s2.
Proof.
  induction s1 as [|c s1 IH]; simpl; [reflexivity|].
  rewrite IH. now rewrite andb_assoc.
Qed.

Lemma dec_digits_all_digits fuel : forall n acc,
  0 <= n -> all_chars is_digit acc = true ->
  all_chars is_digit (dec_digits fuel n acc) = true.
Proof.
  induction fuel as [|f IH]; intros n acc Hn Hacc; simpl.
  - rewrite digit_char_is_digit by (apply Z.mod_pos_bound; lia). exact Hacc.
  - assert (Hd : is_digit (digit_char (n mod 10)) = true)
      by (apply digit_char_is_digit, Z.mod_pos_bound; lia).
    destruct (n <? 10); simpl.
    + now rewrite Hd.
    + apply IH; [apply Z.div_pos; lia|]. simpl. now rewrite Hd.
Qed.

Lemma dec_of_nonneg_all_digits n :
  0 <= n -> all_chars is_digit (dec_of_nonneg n) = true.
Proof. intros H. now apply dec_digits_all_digits. Qed.

Lemma scan_dec_digits fuel : forall n acc seen,
  0 <= n < 2 ^ (Z.of_nat fuel + 1) ->
  scan_digits (dec_digits fuel n acc) 0 seen = scan_digits acc n true.
Proof.
  induction fuel as [|f IH]; intros n acc seen Hn.
  - simpl in Hn. assert (Hm : n mod 10 = n) by (apply Z.mod_small; lia).
    simpl. rewrite Hm.
    rewrite digit_char_is_digit, digit_val_char by lia.
    f_equal.
  - simpl dec_digits.
    assert (Hmod : 0 <= n mod 10 < 10) by (apply Z.mod_pos_bound; lia).
    destruct (Z.ltb_spec n 10) as [Hlt|Hge].
    + assert (Hm : n mod 10 = n) by (apply Z.mod_small; lia).
      simpl. rewrite Hm.
      rewrite digit_char_is_digit, digit_val_char by lia. f_equal.
    + rewrite IH.
      * cbn [scan_digits]. rewrite digit_char_is_digit, digit_val_char by lia.
        f_equal. pose proof (Z.div_mod n 10). lia.
      * split; [apply Z.div_pos; lia|].
        apply Z.div_lt_upper_bound; [lia|].
        replace (Z.of_nat (S f) + 1) with (Z.succ (Z.of_nat f + 1)) in Hn by lia.
        rewrite Z.pow_succ_r in Hn by lia. lia.
Qed.

Lemma log2_fuel n : 0 <= n -> 0 <= n < 2 ^ (Z.of_nat (Z.to_nat (Z.log2 n)) + 1).
Proof.
  intros Hn. split; [assumption|].
  rewrite Z2Nat.id by apply Z.log2_nonneg.
  destruct (Z.eq_dec n 0) as [->|Hne]; [reflexivity|].
  pose proof (Z.log2_spec n). unfold Z.succ in *. lia.
Qed.

Lemma scan_dec_of_nonneg n rest seen :
  0 <= n ->
  scan_digits (dec_of_nonneg n ++ rest) 0 seen = scan_digits rest n true.
Proof.
  intros Hn. unfold dec_of_nonneg. rewrite <- dec_digits_app.
  apply scan_dec_digits, log2_fuel, Hn.
Qed.

Lemma dec_digits_nonempty fuel n acc : exists c s, dec_digits fuel n acc = String c s
  /\ is_digit c = true.
Proof.
  revert n acc. induction fuel as [|f IH]; intros n acc; simpl.
  - eexists _, _. split; [reflexivity|].
    apply digit_char_is_digit, Z.mod_pos_bound. lia.
  - destruct (n <? 10).
    + eexists _, _. split; [reflexivity|].
      apply digit_char_is_digit, Z.mod_pos_bound. lia.
    + apply IH.
Qed.

Lemma is_digit_not_blank c : is_digit c = true -> is_blank c = false.
Proof.
  unfold is_digit, is_blank. intros H. apply andb_prop in H.
  destruct H as [H1 H2]. apply Z.leb_le in H1.
  apply orb_false_intro; apply Z.eqb_neq; lia.
Qed.

Lemma is_digit_not_space c : is_digit c = true -> is_space c = false.
Proof.
  unfold is_digit, is_space. intros H. apply andb_prop in H.
  destruct H as [H1 H2]. apply Z.leb_le in H1.
  apply orb_false_intro; [apply Z.eqb_neq; lia|].
  apply andb_false_intro2. apply Z.leb_gt. lia.
Qed.

Lemma to_string_put_int i : to_string i = put_int i.
Proof.
  unfold to_string, put_int. destruct (i <? 0); [reflexivity|].
  unfold dec_of_nonneg.
  destruct (dec_digits_nonempty (Z.to_nat (Z.log2 i)) i "") as (c & s & -> & Hc).
  simpl. now rewrite is_digit_not_blank.
Qed.

(** Reading back what [to_string] printed gives the number. *)
Lemma to_int_to_string i : int_range i -> to_int (to_string i) = i.
Proof.
  intros [Hlo Hhi]. rewrite to_string_put_int. unfold put_int, to_int.
  unfold INT_MIN, INT_MAX in *.
  destruct (Z.ltb_spec i 0) as [Hneg|Hpos].
  - simpl skip_ws. cbv iota beta.
    rewrite <- (append_nil_r (dec_of_nonneg (- i))) at 1.
    rewrite scan_dec_of_nonneg by lia. simpl.
    unfold clamp_int, INT_MIN, INT_MAX.
    destruct (Z.ltb_spec (- - i) (-2147483648)); [lia|].
    destruct (Z.ltb_spec 2147483647 (- - i)); lia.
  - unfold dec_of_nonneg.
    destruct (dec_digits_nonempty (Z.to_nat (Z.log2 i)) i "") as (c & s & E & Hc).
    pose proof (scan_dec_of_nonneg i "" false Hpos) as Hs.
    unfold dec_of_nonneg in Hs. rewrite append_nil_r in Hs.
    rewrite E in *. simpl skip_ws. rewrite is_digit_not_space by assumption.
    assert (Hm : c <> "-"%char /\ c <> "+"%char).
    { split; intros ->; discriminate Hc. }
    destruct Hm as [Hm1 Hm2].
    replace (match String c s with
             | String "-" s' => (true, s')
             | String "+" s' => (false, s')
             | _ => (false, String c s)
             end) with (false, String c s).
    + rewrite Hs. simpl. unfold clamp_int, INT_MIN, INT_MAX.
      destruct (Z.ltb_spec i (-2147483648)); [lia|].
      destruct (Z.ltb_spec 2147483647 i); lia.
    + destruct c as [[] [] [] [] [] [] [] []]; try reflexivity; congruence.
Qed.

(** ** Fixed-width decimal names *)

Lemma scan_all_digits s : forall acc seen,
  all_chars is_digit s = true ->
  fst (scan_digits s acc seen) = acc * 10 ^ Z.of_nat (String.length s) + dval s
  /\ 0 <= dval s < 10 ^ Z.of_nat (String.length s).
Proof.
  unfold dval.
  induction s as [|c s IH]; intros acc seen H.
  - simpl. split; lia.
  - cbn [all_chars] in H. apply andb_prop in H. destruct H as [Hc Hs].
    cbn [scan_digits String.length]. rewrite Hc.
    destruct (IH (10 * acc + digit_val c) true Hs) as [E1 B].
    destruct (IH (10 * 0 + digit_val c) true Hs) as [E2 _].
    rewrite E1, E2.
    pose proof (digit_val_range c Hc) as Hd.
    rewrite Nat2Z.inj_succ, Z.pow_succ_r by lia.
    split; nia.
Qed.

Lemma ascii_compare_code c1 c2 :
  Ascii.compare c1 c2 = (char_code c1 ?= char_code c2).
Proof.
  unfold Ascii.compare, char_code. now rewrite N2Z.inj_compare.
Qed.

(** On digit strings of one length the dictionary order is the order of
    the numbers. *)
Lemma compare_digit_strings s1 : forall s2,
  all_chars is_digit s1 = true -> all_chars is_digit s2 = true ->
  String.length s1 = String.length s2 ->
  String.compare s1 s2 = (dval s1 ?= dval s2).
Proof.
  induction s1 as [|c1 s1 IH]; intros [|c2 s2] H1 H2 L; try discriminate L.
  - reflexivity.
  - cbn [all_chars] in H1, H2.
    apply andb_prop in H1. destruct H1 as [Hc1 Hs1].
    apply andb_prop in H2. destruct H2 as [Hc2 Hs2].
    injection L as L.
    cbn [String.compare]. rewrite ascii_compare_code.
    unfold dval. cbn [scan_digits]. rewrite Hc1, Hc2.
    destruct (scan_all_digits s1 (10 * 0 + digit_val c1) true Hs1) as [E1 B1].
    destruct (scan_all_digits s2 (10 * 0 + digit_val c2) true Hs2) as [E2 B2].
    rewrite E1, E2, <- L. rewrite <- L in B2.
    specialize (IH s2 Hs1 Hs2 L).
    unfold digit_val.
    set (p := 10 ^ Z.of_nat (String.length s1)) in *.
    destruct (Z.compare_spec (char_code c1) (char_code c2)) as [E|Lt|Gt].
    + rewrite IH, E. symmetry.
      destruct (Z.compare_spec (dval s1) (dval s2)) as [E'|Lt'|Gt'].
      * apply Z.compare_eq_iff. lia.
      * apply Z.compare_lt_iff. lia.
      * apply Z.compare_gt_iff. lia.
    + symmetry. apply Z.compare_lt_iff. nia.
    + symmetry. apply Z.compare_gt_iff. nia.
Qed.

Lemma compare_common_prefix p : forall s1 s2,
  String.compare (p ++ s1) (p ++ s2) = String.compare s1 s2.
Proof.
  induction p as [|c p IH]; intros s1 s2; simpl; [reflexivity|].
  rewrite ascii_compare_code, Z.compare_refl. apply IH.
Qed.

Lemma dec_digits_length fuel : forall n (d : nat),
  0 <= n < 10 ^ Z.of_nat d -> (1 <= d)%nat ->
  (String.length (dec_digits fuel n "") <= d)%nat.
Proof.
  induction fuel as [|f IH]; intros n d Hn Hd.
  - simpl. lia.
  - cbn [dec_digits]. destruct (Z.ltb_spec n 10) as [Hlt|Hge].
    + simpl. lia.
    + rewrite dec_digits_app, length_append. simpl.
      destruct d as [|d]; [lia|].
      rewrite Nat2Z.inj_succ, Z.pow_succ_r in Hn by lia.
      destruct d as [|d]; [simpl in Hn; lia|].
      assert (String.length (dec_digits f (n / 10) "") <= S d)%nat.
      { apply IH; [|lia]. split; [apply Z.div_pos; lia|].
        apply Z.div_lt_upper_bound; lia. }
      lia.
Qed.

Lemma fill_length n c : String.length (fill n c) = n.
Proof. induction n as [|n IH]; simpl; [reflexivity | now rewrite IH]. Qed.

Lemma fill_all p n c : p c = true -> all_chars p (fill n c) = true.
Proof. intros H. induction n as [|n IH]; simpl; [reflexivity | now rewrite H, IH]. Qed.

Lemma scan_digits_fst_seen s : forall acc seen seen',
  fst (scan_digits s acc seen) = fst (scan_digits s acc seen').
Proof.
  induction s as [|c s IH]; intros acc seen seen'; simpl; [reflexivity|].
  destruct (is_digit c); [apply IH | reflexivity].
Qed.

Lemma dval_fill_zero n s : dval (fill n "0" ++ s) = dval s.
Proof.
  unfold dval. induction n as [|n IH]; [reflexivity|].
  cbn [fill String.append scan_digits].
  change (is_digit "0") with true. change (digit_val "0") with 0. cbv iota.
  rewrite (scan_digits_fst_seen _ _ true false). exact IH.
Qed.

Lemma dval_dec_of_nonneg n : 0 <= n -> dval (dec_of_nonneg n) = n.
Proof.
  intros H. unfold dval.
  rewrite <- (append_nil_r (dec_of_nonneg n)).
  now rewrite scan_dec_of_nonneg.
Qed.

(** What [to_padded_string] yields for a number that fits the width. *)
Lemma to_padded_string_fits (r : Z) (d : nat) :
  (1 <= d)%nat -> 0 <= r < 10 ^ Z.of_nat d ->
  let s := to_padded_string r (Z.of_nat d) in
  String.length s = d /\ all_chars is_digit s = true /\ dval s = r
  /\ s = fill (d - String.length (dec_of_nonneg r)) "0" ++ dec_of_nonneg r.
Proof.
  intros Hd Hr. unfold to_padded_string, put_int.
  destruct (Z.ltb_spec r 0) as [?|_]; [lia|]. rewrite Nat2Z.id. cbv zeta.
  assert (HL : (String.length (dec_of_nonneg r) <= d)%nat)
    by (apply dec_digits_length; assumption).
  repeat split.
  - rewrite length_append, fill_length. lia.
  - rewrite all_chars_app, fill_all by reflexivity.
    apply dec_of_nonneg_all_digits. lia.
  - rewrite dval_fill_zero. apply dval_dec_of_nonneg. lia.
Qed.

(** ** Per-rank file names *)

Lemma Z_to_nat_pow_bound (r d : Z) :
  1 <= d -> 0 <= r < 10 ^ d ->
  (1 <= Z.to_nat d)%nat /\ 0 <= r < 10 ^ Z.of_nat (Z.to_nat d).
Proof. intros Hd Hr. rewrite Z2Nat.id by lia. split; [lia | exact Hr]. Qed.

Lemma padded_rank_compare (d r1 r2 : Z) :
  1 <= d -> 0 <= r1 < 10 ^ d -> 0 <= r2 < 10 ^ d ->
  String.compare (to_padded_string r1 d) (to_padded_string r2 d) = (r1 ?= r2).
Proof.
  intros Hd H1 H2.
  destruct (Z_to_nat_pow_bound r1 d Hd H1) as [Hn B1].
  destruct (Z_to_nat_pow_bound r2 d Hd H2) as [_ B2].
  pose proof (to_padded_string_fits r1 (Z.to_nat d) Hn B1) as F1.
  pose proof (to_padded_string_fits r2 (Z.to_nat d) Hn B2) as F2.
  rewrite Z2Nat.id in F1, F2 by lia. cbv zeta in F1, F2.
  destruct F1 as (L1 & D1 & V1 & _). destruct F2 as (L2 & D2 & V2 & _).
  rewrite compare_digit_strings by congruence.
  now rewrite V1, V2.
Qed.

(** C8.  With [padDigits >= 1] and at most [10^padDigits] ranks, the
    padded rank of every rank below [rankCount] has exactly [padDigits]
    characters, all of them decimal digits, is the decimal text of the
    rank behind a run of zeros and reads back as the rank; the per-rank
    names of the mesh file and of a field file end in it, and the
    dictionary order of two such names is the order of their ranks. *)
Theorem rank_padding_order {C : Collaborators}
    (dc : DataCollection.t) (E : string) (padDigits rankCount : Z) :
  1 <= padDigits ->
  rankCount <= 10 ^ padDigits ->
  DataCollection.serial dc = false ->
  DataCollection.pad_digits dc = padDigits ->
  forall r1 r2, 0 <= r1 < rankCount -> 0 <= r2 < rankCount ->
    let pad r := to_padded_string r padDigits in
    let file r := DataCollection.file_name E (DataCollection.set_myid r dc) in
    let mesh r := DataCollection.mesh_name (DataCollection.set_myid r dc) in
    String.length (pad r1) = Z.to_nat padDigits
    /\ all_chars is_digit (pad r1) = true
    /\ pad r1 = fill (Z.to_nat padDigits - String.length (dec_of_nonneg r1)) "0"
                ++ dec_of_nonneg r1
    /\ dval (pad r1) = r1
    /\ file r1 = DataCollection.dir_name dc ++ "/" ++ E ++ "." ++ pad r1
    /\ mesh r1 = DataCollection.dir_name dc ++ "/mesh." ++ pad r1
    /\ String.compare (file r1) (file r2) = (r1 ?= r2)
    /\ String.compare (mesh r1) (mesh r2) = (r1 ?= r2).
Proof.
  intros Hd Hcount Hserial Hpad r1 r2 H1 H2 pad file mesh.
  assert (B1 : 0 <= r1 < 10 ^ padDigits) by lia.
  assert (B2 : 0 <= r2 < 10 ^ padDigits) by lia.
  destruct (Z_to_nat_pow_bound r1 padDigits Hd B1) as [Hn N1].
  pose proof (to_padded_string_fits r1 (Z.to_nat padDigits) Hn N1) as F1.
  rewrite Z2Nat.id in F1 by lia. cbv zeta in F1.
  destruct F1 as (L1 & D1 & V1 & Z1).
  assert (Hfile : forall r, file r
            = DataCollection.dir_name dc ++ "/" ++ E ++ "." ++ pad r).
  { intros r. unfold file, DataCollection.file_name, DataCollection.dir_name.
    cbn. now rewrite Hserial, Hpad. }
  assert (Hmesh : forall r, mesh r
            = DataCollection.dir_name dc ++ "/mesh." ++ pad r).
  { intros r. unfold mesh, DataCollection.mesh_name, DataCollection.dir_name.
    cbn. now rewrite Hserial, Hpad. }
  repeat split; try assumption.
  - apply Hfile.
  - apply Hmesh.
  - rewrite !Hfile. repeat rewrite compare_common_prefix.
    now apply padded_rank_compare.
  - rewrite !Hmesh. rewrite compare_common_prefix.
    rewrite (compare_common_prefix "/mesh.").
    now apply padded_rank_compare.
Qed.

Lemma rank_padding_order_witness :
  String.compare
    (DataCollection.file_name "pressure"
       (DataCollection.set_myid 0
          (DataCollection.set_serial false
             (DataCollection.create (C := Demo.collaborators) "run"))))
    (DataCollection.file_name "pressure"
       (DataCollection.set_myid 1
          (DataCollection.set_serial false
             (DataCollection.create (C := Demo.collaborators) "run"))))
  = Lt.
Proof.
  assert (H1 : 1 <= 6) by lia.
  assert (H2 : 2 <= 10 ^ 6) by (vm_compute; discriminate).
  assert (H3 : 0 <= 0 < 2) by lia.
  assert (H4 : 0 <= 1 < 2) by lia.
  exact (proj1 (proj2 (proj2 (proj2 (proj2 (proj2 (proj2
    (rank_padding_order (C := Demo.collaborators)
       (DataCollection.set_serial false (DataCollection.create "run"))
       "pressure" 6 2 H1 H2 eq_refl eq_refl 0 1 H3 H4)))))))).
Defined.

(** ** The log of a call *)

Section LogLemmas.

Context {C : Collaborators}.

Local Open Scope list_scope.

Lemma grows_ret {A : Type} P (a : A) w : grows P w (ret a w).
Proof. exists []. split; [simpl; now rewrite app_nil_r | constructor]. Qed.

Lemma grows_abort {A : Type} P w : grows P w (@abort C A w).
Proof. exists []. split; [simpl; now rewrite app_nil_r | constructor]. Qed.

Lemma grows_bind {A B : Type} P (m : M A) (k : A -> M B) w :
  grows P w (m w) ->
  (forall a w', m w = Ok a w' -> grows P w' (k a w')) ->
  grows P w (bind m k w).
Proof.
  intros [l1 [E1 F1]] Hk. unfold bind.
  destruct (m w) as [a w'|w'] eqn:Em.
  - destruct (Hk a w' eq_refl) as [l2 [E2 F2]].
    exists (l1 ++ l2). split.
    + rewrite E2. simpl in E1. rewrite E1. now rewrite app_assoc.
    + apply Forall_app. now split.
  - exists l1. now split.
Qed.

Lemma grows_emit P e w : P e -> grows P w (emit e w).
Proof.
  intros H. exists [e]. split; [reflexivity | now constructor].
Qed.

Lemma grows_weaken {A : Type} (P Q : event -> Prop) w (o : outcome A) :
  (forall e, P e -> Q e) -> grows P w o -> grows Q w o.
Proof.
  intros H [l [E F]]. exists l. split; [exact E|].
  eapply Forall_impl; eassumption.
Qed.

Lemma grows_silent {A : Type} P w (o : outcome A) :
  log (world_of o) = log w -> grows P w o.
Proof.
  intros E. exists []. split; [now rewrite app_nil_r | constructor].
Qed.

End LogLemmas.

(** ** Running the primitives *)

Section RunLemmas.

Context {C : Collaborators}.

Local Open Scope list_scope.

Lemma bind_run {A B : Type} (m : M A) (k : A -> M B) w a w' :
  m w = Ok a w' -> bind m k w = k a w'.
Proof. intros H. unfold bind. now rewrite H. Qed.

Lemma bind_abort {A B : Type} (m : M A) (k : A -> M B) w w' :
  m w = Abort w' -> bind m k w = Abort w'.
Proof. intros H. unfold bind. now rewrite H. Qed.

Lemma bind_ret {A B : Type} (a : A) (k : A -> M B) w : bind (ret a) k w = k a w.
Proof. reflexivity. Qed.

Lemma same_heap_refl w : same_heap w w.
Proof. repeat split. Qed.

Lemma same_heap_write_fails w w' :
  same_heap w w' -> write_fails w' = write_fails w.
Proof. intros (_ & H & _). unfold write_fails. now rewrite H. Qed.

Lemma same_heap_mkdir_fails w w' :
  same_heap w w' -> mkdir_fails w' = mkdir_fails w.
Proof. intros (H & _). unfold mkdir_fails. now rewrite H. Qed.

Lemma same_heap_trans w1 w2 w3 :
  same_heap w1 w2 -> same_heap w2 w3 -> same_heap w1 w3.
Proof.
  unfold same_heap. intros (a & b & c & d & e) (a' & b' & c' & d' & e').
  repeat split; congruence.
Qed.

Lemma par_ranks_null w : par_ranks None w = Ok None w.
Proof. reflexivity. Qed.

Lemma deref_mesh_live a m w :
  heap_find a (meshes w) = Some m -> deref_mesh (Some a) w = Ok m w.
Proof. intros H. unfold deref_mesh. now rewrite H. Qed.

Lemma deref_field_live a g w :
  heap_find a (gfuncs w) = Some g -> deref_field (Some a) w = Ok g w.
Proof. intros H. unfold deref_field. now rewrite H. Qed.

Lemma par_ranks_live a m w :
  heap_find a (meshes w) = Some m ->
  par_ranks (Some a) w = Ok (ParMesh_ranks m) w.
Proof.
  intros H. unfold par_ranks. now rewrite (bind_run _ _ _ _ _ (deref_mesh_live a m w H)).
Qed.

Lemma par_ranks_ok p w :
  mesh_ok p w -> par_ranks p w = Ok (ranks_of p w) w.
Proof.
  destruct p as [a|]; simpl; [|reflexivity].
  intros [m H]. rewrite H. now apply par_ranks_live.
Qed.

Lemma create_directory_run dir p myid w :
  mesh_ok p w ->
  exists w',
    DataCollection.create_directory dir p myid w
    = Ok (if mkdir_fails w dir then 1 else 0) w'
    /\ log w' = log w ++ mkdir_events dir myid (ranks_of p w)
    /\ same_heap w w' /\ files w' = files w.
Proof.
  intros H. unfold DataCollection.create_directory.
  rewrite (bind_run _ _ _ _ _ (par_ranks_ok p w H)).
  unfold mkdir_events, creates.
  destruct ((myid =? 0) || match ranks_of p w with None => true | Some _ => false end).
  - eexists. split; [reflexivity|]. repeat split.
  - eexists. split; [reflexivity|]. simpl. rewrite app_nil_r. repeat split.
Qed.

End RunLemmas.


(** ** Save *)

Section SaveLemmas.

Context {C : Collaborators}.

Local Open Scope list_scope.

Import DataCollection.

Lemma stream_out_run path content w :
  exists w', stream_out path content w = Ok (negb (write_fails w path)) w'
             /\ log w' = log w /\ same_heap w w'.
Proof.
  unfold stream_out. destruct (write_fails w path).
  - eexists. split; [reflexivity|]. repeat split.
  - eexists. split; [reflexivity|]. repeat split.
Qed.

Lemma SaveOneField_run it dc w :
  (exists a g, snd it = Some a /\ heap_find a (gfuncs w) = Some g) ->
  exists w',
    SaveOneField it dc w
    = Ok (if field_fails w dc it then set_error WRITE_ERROR dc else dc) w'
    /\ log w' = log w ++ field_events w dc it
    /\ same_heap w w'.
Proof.
  intros (a & g & Hp & Hg). unfold SaveOneField, field_fails, field_events.
  set (f := file_name (fst it) dc).
  unfold open_out. rewrite (bind_run _ _ w tt (add_event (EvWrite f) w) eq_refl).
  rewrite Hp.
  rewrite (bind_run _ _ _ _ _ (deref_field_live a g (add_event (EvWrite f) w) Hg)).
  destruct (stream_out_run f (GridFunction_Save g (precision dc))
              (add_event (EvWrite f) w)) as (w1 & E1 & L1 & S1).
  rewrite (bind_run _ _ _ _ _ E1).
  change (write_fails (add_event (EvWrite f) w) f) with (write_fails w f).
  destruct (write_fails w f); cbn [negb].
  - eexists. unfold MFEM_WARNING, emit, bind, ret. split; [reflexivity|].
    cbn [log add_event]. rewrite L1. cbn [log add_event].
    rewrite <- app_assoc. split; [reflexivity|].
    destruct S1 as (s1 & s2 & s3 & s4 & s5). repeat split; assumption.
  - exists w1. unfold ret. split; [reflexivity|].
    rewrite L1. cbn [log add_event]. split; [reflexivity|].
    destruct S1 as (s1 & s2 & s3 & s4 & s5). repeat split; assumption.
Qed.

Lemma existsb_pointwise {A : Type} (f g : A -> bool) (l : list A) :
  (forall x, f x = g x) -> existsb f l = existsb g l.
Proof.
  intros H. induction l as [|x l IH]; simpl; [reflexivity|].
  now rewrite H, IH.
Qed.

Lemma flat_map_pointwise {A B : Type} (f g : A -> list B) (l : list A) :
  (forall x, f x = g x) -> flat_map f l = flat_map g l.
Proof.
  intros H. induction l as [|x l IH]; simpl; [reflexivity|].
  now rewrite H, IH.
Qed.

Lemma fields_live_same_heap its w w' :
  same_heap w w' -> fields_live its w -> fields_live its w'.
Proof.
  intros (_ & _ & _ & Hg & _) H. unfold fields_live in *.
  eapply Forall_impl; [|exact H]. intros it (a & g & E1 & E2).
  exists a, g. rewrite Hg. now split.
Qed.

Lemma save_fields_run its : forall dc w,
  fields_live its w ->
  exists w',
    save_fields its dc w
    = Ok (if existsb (field_fails w dc) its
          then set_error WRITE_ERROR dc else dc) w'
    /\ log w' = log w ++ flat_map (field_events w dc) its
    /\ same_heap w w'.
Proof.
  induction its as [|it its IH]; intros dc w Hlive.
  - exists w. cbn. rewrite app_nil_r. repeat split.
  - inversion Hlive as [|? ? Hit Hrest]; subst.
    destruct (SaveOneField_run it dc w Hit) as (w1 & E1 & L1 & S1).
    cbn [save_fields]. rewrite (bind_run _ _ _ _ _ E1).
    pose proof (fields_live_same_heap its w w1 S1 Hrest) as Hlive1.
    destruct (IH (if field_fails w dc it then set_error WRITE_ERROR dc else dc)
                w1 Hlive1) as (w2 & E2 & L2 & S2).
    exists w2. rewrite E2.
    assert (Hw : write_fails w1 = write_fails w) by (apply same_heap_write_fails; exact S1).
    assert (Hff : forall x d, field_fails w1 d x = field_fails w d x)
      by (intros; unfold field_fails; now rewrite Hw).
    assert (Hfe : forall x d, field_events w1 d x = field_events w d x)
      by (intros; unfold field_events; now rewrite Hw).
    split; [|split].
    + f_equal. cbn [existsb].
      rewrite (existsb_pointwise _ _ its (fun x => Hff x _)).
      destruct (field_fails w dc it); cbn [orb].
      * match goal with |- context [existsb ?f its] =>
          destruct (existsb f its) end; reflexivity.
      * reflexivity.
    + rewrite L2, L1. cbn [flat_map]. rewrite <- app_assoc. f_equal. f_equal.
      rewrite (flat_map_pointwise _ _ its (fun x => Hfe x _)).
      destruct (field_fails w dc it); reflexivity.
    + eapply same_heap_trans; eassumption.
Qed.

End SaveLemmas.

Section SaveMeshLemmas.

Context {C : Collaborators}.

Local Open Scope list_scope.

Import DataCollection.

Lemma ranks_of_same_heap p w w' :
  same_heap w w' -> ranks_of p w' = ranks_of p w.
Proof.
  intros (_ & _ & Hm & _). unfold ranks_of. now rewrite Hm.
Qed.

Lemma mesh_ok_same_heap p w w' : same_heap w w' -> mesh_ok p w -> mesh_ok p w'.
Proof.
  intros (_ & _ & Hm & _). unfold mesh_ok. now rewrite Hm.
Qed.

Lemma write_mesh_run dc w a m :
  mesh dc = Some a -> heap_find a (meshes w) = Some m ->
  exists w',
    write_mesh dc w = Ok (flag (write_fails w (mesh_name dc)) dc) w'
    /\ log w' = log w ++ mesh_events w dc
    /\ same_heap w w'.
Proof.
  intros Hp Hm. unfold write_mesh, mesh_events, flag.
  set (f := mesh_name dc).
  unfold open_out. rewrite (bind_run _ _ w tt (add_event (EvWrite f) w) eq_refl).
  rewrite Hp.
  rewrite (bind_run _ _ _ _ _ (deref_mesh_live a m (add_event (EvWrite f) w) Hm)).
  destruct (stream_out_run f (Mesh_Print m (precision dc))
              (add_event (EvWrite f) w)) as (w1 & E1 & L1 & S1).
  rewrite (bind_run _ _ _ _ _ E1).
  change (write_fails (add_event (EvWrite f) w) f) with (write_fails w f).
  destruct (write_fails w f); cbn [negb].
  - eexists. unfold MFEM_WARNING, emit, bind, ret. split; [reflexivity|].
    cbn [log add_event]. rewrite L1. cbn [log add_event].
    rewrite <- app_assoc. split; [reflexivity|].
    destruct S1 as (s1 & s2 & s3 & s4 & s5). repeat split; assumption.
  - exists w1. unfold ret. split; [reflexivity|].
    rewrite L1. cbn [log add_event]. split; [reflexivity|].
    destruct S1 as (s1 & s2 & s3 & s4 & s5). repeat split; assumption.
Qed.

Lemma make_cycle_dir_run dc w a m :
  mesh dc = Some a -> heap_find a (meshes w) = Some m ->
  exists w',
    make_cycle_dir dc w
    = Ok (flag (mkdir_fails w (dir_name dc) || write_fails w (mesh_name dc)) dc) w'
    /\ log w' = log w ++ cycle_dir_events w dc
                  ++ (if mkdir_fails w (dir_name dc) then [] else mesh_events w dc)
    /\ same_heap w w'.
Proof.
  intros Hp Hm. unfold make_cycle_dir, cycle_dir_events.
  assert (Hok : mesh_ok (mesh dc) w) by (rewrite Hp; now exists m).
  destruct (create_directory_run (dir_name dc) (mesh dc) (myid dc) w Hok)
    as (w1 & E1 & L1 & S1 & F1).
  rewrite (bind_run _ _ _ _ _ E1).
  destruct (mkdir_fails w (dir_name dc)) eqn:Ef; cbn [negb Z.eqb orb flag].
  - eexists. unfold MFEM_WARNING, emit, bind, ret. split; [reflexivity|].
    cbn [log add_event]. rewrite L1, app_nil_r, <- app_assoc.
    split; [reflexivity|].
    destruct S1 as (s1 & s2 & s3 & s4 & s5). repeat split; assumption.
  - assert (Hm1 : heap_find a (meshes w1) = Some m)
      by (destruct S1 as (_ & _ & s3 & _); now rewrite s3).
    destruct (write_mesh_run dc w1 a m Hp Hm1) as (w2 & E2 & L2 & S2).
    assert (Hw : write_fails w1 = write_fails w)
      by (apply same_heap_write_fails; exact S1).
    exists w2. rewrite E2, Hw. split; [reflexivity|].
    split; [|eapply same_heap_trans; eassumption].
    rewrite L2, L1. unfold mesh_events. rewrite Hw, app_nil_r.
    now rewrite <- app_assoc.
Qed.

Lemma SaveMesh_run dc w a m :
  mesh dc = Some a -> heap_find a (meshes w) = Some m ->
  exists w',
    SaveMesh dc w
    = Ok (flag (dirs_fail w dc || write_fails w (mesh_name dc)) dc) w'
    /\ log w' = log w ++ dir_events w dc
                  ++ (if dirs_fail w dc then [] else mesh_events w dc)
    /\ same_heap w w'.
Proof.
  intros Hp Hm. unfold SaveMesh, dir_events, dirs_fail.
  destruct (string_empty (prefix_path dc)) eqn:Ee; cbn [negb andb orb].
  - exact (make_cycle_dir_run dc w a m Hp Hm).
  - assert (Hok : mesh_ok (mesh dc) w) by (rewrite Hp; now exists m).
    destruct (create_directory_run (prefix_path dc) (mesh dc) (myid dc) w Hok)
      as (w1 & E1 & L1 & S1 & F1).
    rewrite (bind_run _ _ _ _ _ E1).
    destruct (mkdir_fails w (prefix_path dc)) eqn:Ef; cbn [negb Z.eqb orb flag].
    + eexists. unfold MFEM_WARNING, emit, bind, ret. split; [reflexivity|].
      cbn [log add_event]. rewrite L1, app_nil_r, <- app_assoc.
      split; [reflexivity|].
      destruct S1 as (s1 & s2 & s3 & s4 & s5). repeat split; assumption.
    + assert (Hm1 : heap_find a (meshes w1) = Some m)
        by (destruct S1 as (_ & _ & s3 & _); now rewrite s3).
      destruct (make_cycle_dir_run dc w1 a m Hp Hm1) as (w2 & E2 & L2 & S2).
      assert (Hw : write_fails w1 = write_fails w)
        by (apply same_heap_write_fails; exact S1).
      assert (Hd : mkdir_fails w1 = mkdir_fails w)
        by (apply same_heap_mkdir_fails; exact S1).
      exists w2. rewrite E2, Hw, Hd. split; [reflexivity|].
      split; [|eapply same_heap_trans; eassumption].
      rewrite L2, L1. unfold cycle_dir_events, mesh_events.
      rewrite Hw, Hd, (ranks_of_same_heap _ _ _ S1).
      now rewrite <- !app_assoc.
Qed.

(** [Save] in closed form, for a collection whose data can be written. *)
Lemma Save_run dc w :
  saveable dc w ->
  exists w',
    Save dc w
    = Ok (flag (dirs_fail w dc || write_fails w (mesh_name dc)
                || (negb (is_error (error dc))
                    && existsb (field_fails w dc) (field_map dc))) dc) w'
    /\ log w' = log w ++ dir_events w dc ++ save_events w dc
    /\ same_heap w w'.
Proof.
  intros [(a & m & Hp & Hm) Hlive]. unfold Save, save_events.
  destruct (SaveMesh_run dc w a m Hp Hm) as (w1 & E1 & L1 & S1).
  rewrite (bind_run _ _ _ _ _ E1).
  destruct (dirs_fail w dc) eqn:Ed; cbn [orb flag].
  - cbn [error set_error is_error]. exists w1. split; [reflexivity|].
    split; [exact L1 | exact S1].
  - destruct (write_fails w (mesh_name dc)) eqn:Ew; cbn [orb flag].
    + cbn [error set_error is_error]. exists w1. split; [reflexivity|].
      split; [|exact S1]. rewrite L1. now rewrite app_nil_r.
    + destruct (is_error (error dc)) eqn:Ee; cbn [negb andb].
      * exists w1. split; [reflexivity|]. split; [|exact S1].
        rewrite L1. now rewrite app_nil_r.
      * pose proof (fields_live_same_heap _ _ _ S1 Hlive) as Hlive1.
        destruct (save_fields_run (field_map dc) dc w1 Hlive1)
          as (w2 & E2 & L2 & S2).
        assert (Hw : write_fails w1 = write_fails w)
          by (apply same_heap_write_fails; exact S1).
        exists w2. rewrite E2. split; [|split].
        -- f_equal. unfold flag.
           rewrite (existsb_pointwise (field_fails w1 dc) (field_fails w dc))
             by (intros x; unfold field_fails; now rewrite Hw).
           reflexivity.
        -- rewrite L2, L1.
           rewrite (flat_map_pointwise (field_events w1 dc) (field_events w dc))
             by (intros x; unfold field_events; now rewrite Hw).
           now rewrite <- !app_assoc.
        -- eapply same_heap_trans; eassumption.
Qed.

End SaveMeshLemmas.

Section SaveClaims.

Context {C : Collaborators}.

Local Open Scope list_scope.

Import DataCollection.

Lemma mkdir_events_no_write d i r : Forall (fun e => ~ is_write e) (mkdir_events d i r).
Proof.
  unfold mkdir_events. destruct (creates i r); repeat constructor; auto.
Qed.

Lemma dir_events_no_write w dc : Forall (fun e => ~ is_write e) (dir_events w dc).
Proof.
  assert (Hc : Forall (fun e => ~ is_write e) (cycle_dir_events w dc)).
  { unfold cycle_dir_events. apply Forall_app. split.
    - apply mkdir_events_no_write.
    - destruct (mkdir_fails w (dir_name dc)); repeat constructor; auto. }
  unfold dir_events. destruct (string_empty (prefix_path dc)); [exact Hc|].
  apply Forall_app. split; [apply mkdir_events_no_write|].
  destruct (mkdir_fails w (prefix_path dc)); [|exact Hc].
  repeat constructor; auto.
Qed.

Lemma field_events_attempted w dc k p its :
  In (k, p) its -> In (EvWrite (file_name k dc)) (flat_map (field_events w dc) its).
Proof.
  intros H. apply in_flat_map. exists (k, p). split; [exact H|].
  unfold field_events. cbn. now left.
Qed.

(** C3, as the code has it.  In a [Save] whose two directory creations
    succeed, a failed mesh stream sets [WRITE_ERROR] and no field file is
    opened: [Save] returns after the mesh whenever the error flag is set,
    also when it was set before the call.  With the flag clear after the
    mesh, the file of every registered field is opened, in the order of
    the names, whether or not the stream of another field failed, and a
    failed field stream sets [WRITE_ERROR].  A failed directory creation
    sets [WRITE_ERROR] and no file is opened at all. *)
Theorem save_attempts (dc : DataCollection.t) (w : World) :
  saveable dc w ->
  exists dc' w',
    Save dc w = Ok dc' w'
    /\ Forall (fun e => ~ is_write e) (dir_events w dc)
    /\ (dirs_fail w dc = true ->
        error dc' = WRITE_ERROR /\ log w' = log w ++ dir_events w dc)
    /\ (dirs_fail w dc = false ->
        write_fails w (mesh_name dc) = true ->
        error dc' = WRITE_ERROR
        /\ log w' = log w ++ dir_events w dc
                    ++ [EvWrite (mesh_name dc);
                        EvWarning ("Error writing mesh to file: "
                                   ++ mesh_name dc)%string])
    /\ (dirs_fail w dc = false ->
        write_fails w (mesh_name dc) = false ->
        is_error (error dc) = true ->
        error dc' = error dc
        /\ log w' = log w ++ dir_events w dc ++ [EvWrite (mesh_name dc)])
    /\ (dirs_fail w dc = false ->
        write_fails w (mesh_name dc) = false ->
        error dc = NO_ERROR ->
        log w' = log w ++ dir_events w dc ++ EvWrite (mesh_name dc)
                 :: flat_map (field_events w dc) (field_map dc)
        /\ (forall k p, In (k, p) (field_map dc) ->
              In (EvWrite (file_name k dc)) (log w'))
        /\ error dc' = if existsb (field_fails w dc) (field_map dc)
                       then WRITE_ERROR else NO_ERROR).
Proof.
  intros Hs. destruct (Save_run dc w Hs) as (w' & E & L & S).
  eexists _, w'. split; [exact E|].
  split; [apply dir_events_no_write|].
  unfold save_events, mesh_events in L.
  split; [|split; [|split]].
  - intros Hd. rewrite Hd in *. cbn [orb flag error set_error].
    split; [reflexivity|]. rewrite L. now rewrite app_nil_r.
  - intros Hd Hm. rewrite Hd, Hm in *. cbn [orb flag error set_error].
    split; [reflexivity|]. rewrite L. cbn [app]. reflexivity.
  - intros Hd Hm He. rewrite Hd, Hm, He in *. cbn [orb negb andb flag].
    split; [reflexivity|]. rewrite L. reflexivity.
  - intros Hd Hm He. rewrite Hd, Hm, He in *. cbn [orb negb andb is_error] in *.
    split; [exact L|]. split.
    + intros k p Hin. rewrite L. apply in_or_app. right.
      apply in_or_app. right. right.
      eapply field_events_attempted; eassumption.
    + unfold flag. destruct (existsb (field_fails w dc) (field_map dc)).
      * reflexivity.
      * exact He.
Qed.

End SaveClaims.

Lemma run_dc_saveable :
  saveable (VisItDataCollection.base Demo.run_dc) Demo.mesh_stream_fails.
Proof.
  split.
  - exists 1%nat, (Demo.run_mesh 0). split; reflexivity.
  - repeat constructor. exists 2%nat, 1. split; reflexivity.
Defined.

Lemma save_attempts_witness :
  exists dc' w',
    DataCollection.Save (VisItDataCollection.base Demo.run_dc)
      Demo.mesh_stream_fails = Ok dc' w'
    /\ DataCollection.error dc' = WRITE_ERROR
    /\ log w' = [EvMkdir "run_000003"; EvWrite "run_000003/mesh.000000";
                 EvWarning "Error writing mesh to file: run_000003/mesh.000000"].
Proof.
  destruct (save_attempts (VisItDataCollection.base Demo.run_dc)
              Demo.mesh_stream_fails run_dc_saveable)
    as (dc' & w' & E & _ & _ & H & _).
  exists dc', w'. split; [exact E|].
  exact (H eq_refl eq_refl).
Defined.

(** The claim C3 as stated fails: both directory creations succeed, the
    mesh stream fails, and the file of the registered field "pressure" is
    never opened. *)
Lemma mesh_failure_skips_fields :
  let dc := VisItDataCollection.base Demo.run_dc in
  let w := Demo.mesh_stream_fails in
  dirs_fail w dc = false
  /\ write_fails w (DataCollection.mesh_name dc) = true
  /\ StrMap.find "pressure" (DataCollection.field_map dc) = Some (Some 2%nat)
  /\ returns (DataCollection.Save dc w) (fun dc' w' =>
       DataCollection.error dc' = WRITE_ERROR
       /\ ~ In (EvWrite (DataCollection.file_name "pressure" dc)) (log w')).
Proof.
  cbv zeta.
  split; [vm_compute; reflexivity|].
  split; [vm_compute; reflexivity|].
  split; [vm_compute; reflexivity|].
  vm_compute. split; [reflexivity|].
  intros [H|[H|[H|[]]]]; discriminate H.
Qed.
(** ** Deleting *)

Section DeleteLemmas.

Context {C : Collaborators}.

Local Open Scope list_scope.

Import DataCollection.

Lemma bind_ok_inv {A B : Type} (m : M A) (k : A -> M B) w b w2 :
  bind m k w = Ok b w2 ->
  exists a w1, m w = Ok a w1 /\ k a w1 = Ok b w2.
Proof.
  unfold bind. destruct (m w) as [a w1|w1]; [|discriminate].
  intros H. now exists a, w1.
Qed.

Lemma delete_fields_borrowed its w :
  exists fm, delete_fields false its w = Ok fm w.
Proof.
  induction its as [|[k p] its [fm IH]].
  - now exists [].
  - exists ((k, None) :: fm). cbn [delete_fields].
    rewrite bind_ret. now rewrite (bind_run _ _ _ _ _ IH).
Qed.

Lemma DeleteData_borrowed dc w :
  own_data dc = false ->
  exists fm, DeleteData dc w
             = Ok (set_own_data false (set_field_map fm (set_mesh None dc))) w.
Proof.
  intros H. unfold DeleteData. rewrite H, bind_ret.
  cbn [own_data set_mesh]. rewrite H.
  destruct (delete_fields_borrowed (field_map (set_mesh None dc)) w) as [fm E].
  exists fm. now rewrite (bind_run _ _ _ _ _ E).
Qed.

(** On data that is not owned [DeleteAll] touches nothing outside the
    collection. *)
Lemma DeleteAll_borrowed dc w :
  own_data dc = false -> DeleteAll dc w = Ok (emptied dc) w.
Proof.
  intros H. unfold DeleteAll.
  destruct (DeleteData_borrowed dc w H) as [fm E].
  now rewrite (bind_run _ _ _ _ _ E).
Qed.

Lemma DeleteData_inv dc w dc' w' :
  DeleteData dc w = Ok dc' w' ->
  exists fm, dc' = set_own_data false (set_field_map fm (set_mesh None dc)).
Proof.
  unfold DeleteData. intros H.
  apply bind_ok_inv in H. destruct H as (u & w1 & _ & H).
  apply bind_ok_inv in H. destruct H as (fm & w2 & _ & H).
  injection H as <- _. now exists fm.
Qed.

Lemma DeleteAll_inv dc w dc' w' :
  DeleteAll dc w = Ok dc' w' -> dc' = emptied dc.
Proof.
  unfold DeleteAll. intros H.
  apply bind_ok_inv in H. destruct H as (dc1 & w1 & H1 & H).
  apply DeleteData_inv in H1. destruct H1 as [fm ->].
  injection H as <- _. reflexivity.
Qed.

Lemma VisIt_DeleteAll_borrowed (dc : VisItDataCollection.t) w :
  own_data (VisItDataCollection.base dc) = false ->
  VisItDataCollection.DeleteAll dc w = Ok (visit_emptied dc) w.
Proof.
  intros H. unfold VisItDataCollection.DeleteAll.
  cbn [VisItDataCollection.base VisItDataCollection.set_field_info_map].
  now rewrite (bind_run _ _ _ _ _ (DeleteAll_borrowed _ w H)).
Qed.

Lemma VisIt_DeleteAll_inv (dc : VisItDataCollection.t) w dc' w' :
  VisItDataCollection.DeleteAll dc w = Ok dc' w' -> dc' = visit_emptied dc.
Proof.
  unfold VisItDataCollection.DeleteAll. intros H.
  apply bind_ok_inv in H. destruct H as (b & w1 & H1 & H).
  apply DeleteAll_inv in H1. subst b.
  injection H as <- _. reflexivity.
Qed.

End DeleteLemmas.

(** ** Calls that delete nothing *)

Section Ensures.

Context {C : Collaborators}.

Lemma ensures_ret {A : Type} (R : A -> Prop) a w : R a -> ensures R (ret a w).
Proof. intros H. exact H. Qed.

Lemma ensures_abort {A : Type} (R : A -> Prop) w : ensures R (@abort C A w).
Proof. exact I. Qed.

Lemma ensures_bind {A B : Type} (R : B -> Prop) (m : M A) (k : A -> M B) w :
  (forall a w', m w = Ok a w' -> ensures R (k a w')) ->
  ensures R (bind m k w).
Proof.
  intros H. unfold bind. destruct (m w) as [a w'|w'].
  - now apply H.
  - exact I.
Qed.

Lemma ensures_ok {A : Type} (R : A -> Prop) (o : outcome A) a w :
  ensures R o -> o = Ok a w -> R a.
Proof. intros H ->. exact H. Qed.

Lemma ensures_impl {A : Type} (R R' : A -> Prop) (o : outcome A) :
  (forall a, R a -> R' a) -> ensures R o -> ensures R' o.
Proof. intros H. destruct o; simpl; auto. Qed.

End Ensures.

Ltac split_call :=
  lazymatch goal with
  | |- context [bind ?m ?k ?w] => fail
  | |- grows _ _ ((if ?b then _ else _) _) => destruct b eqn:?
  | |- grows _ _ (match ?x with _ => _ end _) => destruct x eqn:?
  | |- grows _ _ (if ?b then _ else _) => destruct b eqn:?
  | |- grows _ _ (match ?x with _ => _ end) => destruct x eqn:?
  | |- ensures _ ((if ?b then _ else _) _) => destruct b eqn:?
  | |- ensures _ (match ?x with _ => _ end _) => destruct x eqn:?
  | |- ensures _ (if ?b then _ else _) => destruct b eqn:?
  | |- ensures _ (match ?x with _ => _ end) => destruct x eqn:?
  end.

Section NoDelete.

Context {C : Collaborators}.

Local Open Scope list_scope.

Variable P : event -> Prop.
Hypothesis HP : forall e, ~ is_delete e -> P e.

Lemma P_mkdir d : P (EvMkdir d). Proof. apply HP. intros []. Qed.
Lemma P_write f : P (EvWrite f). Proof. apply HP. intros []. Qed.
Lemma P_read f : P (EvRead f). Proof. apply HP. intros []. Qed.
Lemma P_new_mesh a : P (EvNewMesh a). Proof. apply HP. intros []. Qed.
Lemma P_new_field a : P (EvNewField a). Proof. apply HP. intros []. Qed.
Lemma P_warning m : P (EvWarning m). Proof. apply HP. intros []. Qed.

Lemma deref_mesh_grows p w : grows P w (deref_mesh p w).
Proof.
  apply grows_silent. unfold deref_mesh.
  destruct p as [a|]; [destruct (heap_find a (meshes w))|]; reflexivity.
Qed.

Lemma deref_field_grows p w : grows P w (deref_field p w).
Proof.
  apply grows_silent. unfold deref_field.
  destruct p as [a|]; [destruct (heap_find a (gfuncs w))|]; reflexivity.
Qed.

Lemma new_mesh_grows m w : grows P w (new_mesh m w).
Proof.
  exists [EvNewMesh (next_addr w)]. split; [reflexivity|].
  repeat constructor. apply P_new_mesh.
Qed.

Lemma new_field_grows g w : grows P w (new_field g w).
Proof.
  exists [EvNewField (next_addr w)]. split; [reflexivity|].
  repeat constructor. apply P_new_field.
Qed.

Lemma sys_mkdir_grows d w : grows P w (sys_mkdir d w).
Proof.
  exists [EvMkdir d]. split; [reflexivity|]. repeat constructor. apply P_mkdir.
Qed.

Lemma bcast_mkdir_grows d w : grows P w (bcast_mkdir d w).
Proof. apply grows_silent. reflexivity. Qed.

Lemma open_out_grows f w : grows P w (open_out f w).
Proof. apply grows_emit, P_write. Qed.

Lemma stream_out_grows f text w : grows P w (stream_out f text w).
Proof.
  apply grows_silent. unfold stream_out. now destruct (write_fails w f).
Qed.

Lemma open_in_grows f w : grows P w (open_in f w).
Proof.
  exists [EvRead f]. split; [reflexivity|]. repeat constructor. apply P_read.
Qed.

Lemma warning_grows msg w : grows P w (MFEM_WARNING msg w).
Proof. apply grows_emit, P_warning. Qed.

Lemma asserted_grows {A : Type} (o : option A) w :
  grows P w (VisItDataCollection.asserted o w).
Proof. apply grows_silent. now destruct o. Qed.

End NoDelete.

Create HintDb grows.

#[local] Hint Resolve deref_mesh_grows deref_field_grows new_mesh_grows
  new_field_grows sys_mkdir_grows bcast_mkdir_grows open_out_grows
  stream_out_grows open_in_grows warning_grows asserted_grows
  grows_ret grows_abort : grows.

Ltac grows_step :=
  first
    [ solve [auto with grows]
    | apply grows_bind; [| intros ? ? ?]
    | split_call ].

Section NoDeleteCalls.

Context {C : Collaborators}.

Local Open Scope list_scope.

Variable P : event -> Prop.
Hypothesis HP : forall e, ~ is_delete e -> P e.

Lemma par_ranks_grows p w : grows P w (par_ranks p w).
Proof. unfold par_ranks. repeat grows_step. Qed.

Lemma create_directory_grows d p i w :
  grows P w (DataCollection.create_directory d p i w).
Proof.
  unfold DataCollection.create_directory.
  pose proof par_ranks_grows. repeat grows_step.
Qed.

Lemma SaveMesh_grows dc w : grows P w (DataCollection.SaveMesh dc w).
Proof.
  unfold DataCollection.SaveMesh, DataCollection.make_cycle_dir,
    DataCollection.write_mesh.
  pose proof create_directory_grows. repeat grows_step.
Qed.

Lemma SaveOneField_grows it dc w :
  grows P w (DataCollection.SaveOneField it dc w).
Proof. unfold DataCollection.SaveOneField. repeat grows_step. Qed.

Lemma save_fields_grows its : forall dc w,
  grows P w (DataCollection.save_fields its dc w).
Proof.
  induction its as [|it its IH]; intros dc w; cbn [DataCollection.save_fields].
  - auto with grows.
  - apply grows_bind; [apply SaveOneField_grows|]. intros. apply IH.
Qed.

Lemma Save_grows dc w : grows P w (DataCollection.Save dc w).
Proof.
  unfold DataCollection.Save.
  apply grows_bind; [apply SaveMesh_grows|]. intros dc1 w1 _.
  destruct (is_error (DataCollection.error dc1)); [auto with grows|].
  apply save_fields_grows.
Qed.

Lemma SaveField_grows nm dc w : grows P w (DataCollection.SaveField nm dc w).
Proof.
  unfold DataCollection.SaveField.
  destruct (StrMap.find nm (DataCollection.field_map dc));
    [apply SaveOneField_grows | auto with grows].
Qed.

End NoDeleteCalls.


(** ** What the calls keep

    The ownership flag and the flag for rank suffixes are only written by
    the constructors, [SetMesh], [DeleteData] and [Load]. *)

Ltac ensures_leaf :=
  apply ensures_ret; unfold visit_flags_kept, flags_kept in *; cbn;
  intuition congruence.

Ltac ensures_step :=
  first
    [ ensures_leaf
    | apply ensures_abort
    | apply ensures_bind; intros ? ? ?
    | split_call ].

Section Kept.

Context {C : Collaborators}.

Local Open Scope list_scope.

Lemma flags_kept_refl b : flags_kept b b.
Proof. split; reflexivity. Qed.

Lemma flags_kept_trans b1 b2 b3 :
  flags_kept b1 b2 -> flags_kept b2 b3 -> flags_kept b1 b3.
Proof. unfold flags_kept. intuition congruence. Qed.

Lemma SaveMesh_keeps dc w :
  ensures (flags_kept dc) (DataCollection.SaveMesh dc w).
Proof.
  unfold DataCollection.SaveMesh, DataCollection.make_cycle_dir,
    DataCollection.write_mesh.
  repeat ensures_step.
Qed.

Lemma SaveOneField_keeps it dc w :
  ensures (flags_kept dc) (DataCollection.SaveOneField it dc w).
Proof. unfold DataCollection.SaveOneField. repeat ensures_step. Qed.

Lemma save_fields_keeps its : forall dc w,
  ensures (flags_kept dc) (DataCollection.save_fields its dc w).
Proof.
  induction its as [|it its IH]; intros dc w; cbn [DataCollection.save_fields].
  - ensures_leaf.
  - apply ensures_bind. intros dc1 w1 E.
    pose proof (ensures_ok _ _ _ _ (SaveOneField_keeps it dc w) E) as K.
    eapply ensures_impl; [|apply IH].
    intros dc2. now apply flags_kept_trans.
Qed.

Lemma Save_keeps dc w : ensures (flags_kept dc) (DataCollection.Save dc w).
Proof.
  unfold DataCollection.Save. apply ensures_bind. intros dc1 w1 E.
  pose proof (ensures_ok _ _ _ _ (SaveMesh_keeps dc w) E) as K.
  destruct (is_error (DataCollection.error dc1)); [now apply ensures_ret|].
  eapply ensures_impl; [|apply save_fields_keeps].
  intros dc2. now apply flags_kept_trans.
Qed.

Lemma SaveField_keeps nm dc w :
  ensures (flags_kept dc) (DataCollection.SaveField nm dc w).
Proof.
  unfold DataCollection.SaveField.
  destruct (StrMap.find nm (DataCollection.field_map dc)).
  - apply SaveOneField_keeps.
  - apply ensures_ret, flags_kept_refl.
Qed.

Lemma SaveRootFile_keeps dc w :
  ensures (visit_flags_kept dc) (VisItDataCollection.SaveRootFile dc w).
Proof. unfold VisItDataCollection.SaveRootFile. repeat ensures_step. Qed.

Lemma VisIt_Save_keeps dc w :
  ensures (visit_flags_kept dc) (VisItDataCollection.Save dc w).
Proof.
  unfold VisItDataCollection.Save. apply ensures_bind. intros b w1 E.
  pose proof (ensures_ok _ _ _ _ (Save_keeps _ w) E) as K.
  eapply ensures_impl; [|apply SaveRootFile_keeps].
  intros dc2. unfold visit_flags_kept. cbn. now apply flags_kept_trans.
Qed.

Lemma ParseVisItRootString_keeps json dc w :
  ensures (visit_flags_kept dc)
    (VisItDataCollection.ParseVisItRootString json dc w).
Proof.
  unfold VisItDataCollection.ParseVisItRootString, VisItDataCollection.read_tag.
  repeat ensures_step.
Qed.

Lemma LoadVisItRootFile_keeps r dc w :
  ensures (visit_flags_kept dc) (VisItDataCollection.LoadVisItRootFile r dc w).
Proof.
  unfold VisItDataCollection.LoadVisItRootFile.
  apply ensures_bind. intros buffer w1 _.
  destruct buffer as [[|c text]|].
  - repeat ensures_step.
  - apply ParseVisItRootString_keeps.
  - repeat ensures_step.
Qed.

Lemma LoadMesh_keeps dc w :
  ensures (visit_flags_kept dc) (VisItDataCollection.LoadMesh dc w).
Proof. unfold VisItDataCollection.LoadMesh. repeat ensures_step. Qed.

Lemma load_fields_keeps its : forall dc w,
  ensures (visit_flags_kept dc) (VisItDataCollection.load_fields its dc w).
Proof.
  induction its as [|[k info] its IH]; intros dc w;
    cbn [VisItDataCollection.load_fields].
  - ensures_leaf.
  - apply ensures_bind. intros file w1 _. destruct file as [text|].
    + apply ensures_bind. intros m w2 _.
      apply ensures_bind. intros p w3 _.
      eapply ensures_impl; [|apply IH].
      intros dc2. unfold visit_flags_kept, flags_kept. cbn. intuition.
    + repeat ensures_step.
Qed.

Lemma LoadFields_keeps dc w :
  ensures (visit_flags_kept dc) (VisItDataCollection.LoadFields dc w).
Proof.
  unfold VisItDataCollection.LoadFields.
  eapply ensures_impl; [|apply load_fields_keeps].
  intros dc2. unfold visit_flags_kept, flags_kept. cbn. intuition.
Qed.

End Kept.


(** ** Operations of a VisIt collection *)

Section VisItNoDelete.

Context {C : Collaborators}.

Local Open Scope list_scope.

Variable P : event -> Prop.
Hypothesis HP : forall e, ~ is_delete e -> P e.

Import DataCollection.

Lemma SaveRootFile_grows dc w : grows P w (VisItDataCollection.SaveRootFile dc w).
Proof. unfold VisItDataCollection.SaveRootFile. repeat grows_step. Qed.

Lemma VisIt_Save_grows dc w : grows P w (VisItDataCollection.Save dc w).
Proof.
  unfold VisItDataCollection.Save.
  apply grows_bind; [now apply Save_grows|]. intros.
  apply SaveRootFile_grows.
Qed.

Lemma parse_fields_grows its : forall fim w,
  grows P w (VisItDataCollection.parse_fields its fim w).
Proof.
  induction its as [|[k v] its IH]; intros fim w;
    cbn [VisItDataCollection.parse_fields].
  - auto with grows.
  - repeat (apply grows_bind; [solve [auto with grows]|intros ? ? ?]).
    apply IH.
Qed.

Lemma ParseVisItRootString_grows json dc w :
  grows P w (VisItDataCollection.ParseVisItRootString json dc w).
Proof.
  unfold VisItDataCollection.ParseVisItRootString, VisItDataCollection.read_tag.
  pose proof parse_fields_grows. repeat grows_step.
Qed.

Lemma LoadVisItRootFile_grows r dc w :
  grows P w (VisItDataCollection.LoadVisItRootFile r dc w).
Proof.
  unfold VisItDataCollection.LoadVisItRootFile.
  pose proof ParseVisItRootString_grows.
  apply grows_bind; [auto with grows|]. intros buffer w1 _.
  destruct buffer as [[|c text]|]; repeat grows_step.
Qed.

Lemma LoadMesh_grows dc w : grows P w (VisItDataCollection.LoadMesh dc w).
Proof. unfold VisItDataCollection.LoadMesh. repeat grows_step. Qed.

Lemma load_fields_grows its : forall dc w,
  grows P w (VisItDataCollection.load_fields its dc w).
Proof.
  induction its as [|[k info] its IH]; intros dc w;
    cbn [VisItDataCollection.load_fields].
  - auto with grows.
  - apply grows_bind; [auto with grows|]. intros file w1 _.
    destruct file as [text|]; repeat grows_step.
Qed.

Lemma LoadFields_grows dc w : grows P w (VisItDataCollection.LoadFields dc w).
Proof. apply load_fields_grows. Qed.

(** The calls that delete: on data that is not owned they delete
    nothing. *)
Lemma SetMesh_grows p dc w :
  own_data dc = false -> grows P w (SetMesh p dc w).
Proof.
  intros H. unfold SetMesh. rewrite H.
  pose proof par_ranks_grows. repeat grows_step.
Qed.

Lemma RegisterField_grows nm gf dc w :
  own_data dc = false -> grows P w (RegisterField nm gf dc w).
Proof.
  intros H. unfold RegisterField. rewrite H. cbn [andb]. repeat grows_step.
Qed.

Lemma DeleteData_grows dc w :
  own_data dc = false -> grows P w (DeleteData dc w).
Proof.
  intros H. destruct (DeleteData_borrowed dc w H) as [fm E]. rewrite E.
  apply grows_silent. reflexivity.
Qed.

Lemma DeleteAll_grows dc w :
  own_data dc = false -> grows P w (DeleteAll dc w).
Proof.
  intros H. rewrite (DeleteAll_borrowed dc w H). apply grows_silent. reflexivity.
Qed.

Lemma destroy_grows dc w : own_data dc = false -> grows P w (destroy dc w).
Proof.
  intros H. unfold destroy. rewrite H. auto with grows.
Qed.

Lemma VisIt_SetMesh_grows p dc w :
  own_data (VisItDataCollection.base dc) = false ->
  grows P w (VisItDataCollection.SetMesh p dc w).
Proof.
  intros H. unfold VisItDataCollection.SetMesh.
  pose proof (SetMesh_grows p (VisItDataCollection.base dc) w H).
  repeat grows_step.
Qed.

Lemma VisIt_RegisterField_grows nm gf dc w :
  own_data (VisItDataCollection.base dc) = false ->
  grows P w (VisItDataCollection.RegisterField nm gf dc w).
Proof.
  intros H. unfold VisItDataCollection.RegisterField.
  pose proof (RegisterField_grows nm gf (VisItDataCollection.base dc) w H).
  repeat grows_step.
Qed.

Lemma VisIt_DeleteAll_grows dc w :
  own_data (VisItDataCollection.base dc) = false ->
  grows P w (VisItDataCollection.DeleteAll dc w).
Proof.
  intros H. rewrite (VisIt_DeleteAll_borrowed dc w H).
  apply grows_silent. reflexivity.
Qed.

(** [Load] deletes nothing either when it starts on data that is not
    owned: not what was registered before, and not what it allocated
    itself before a failure. *)
Lemma Load_grows c dc w :
  own_data (VisItDataCollection.base dc) = false ->
  grows P w (VisItDataCollection.Load c dc w).
Proof.
  intros H. unfold VisItDataCollection.Load.
  rewrite (bind_run _ _ _ _ _ (VisIt_DeleteAll_borrowed dc w H)).
  set (dc0 := VisItDataCollection.on_base (set_cycle c) (visit_emptied dc)).
  assert (H0 : own_data (VisItDataCollection.base dc0) = false) by reflexivity.
  apply grows_bind; [now apply LoadVisItRootFile_grows|]. intros dc1 w1 E1.
  pose proof (ensures_ok _ _ _ _ (LoadVisItRootFile_keeps _ dc0 w) E1) as [K1 _].
  apply grows_bind.
  { destruct (negb (is_error (error (VisItDataCollection.base dc1))));
      [now apply LoadMesh_grows | auto with grows]. }
  intros dc2 w2 E2.
  assert (K2 : own_data (VisItDataCollection.base dc2) = false).
  { destruct (negb (is_error (error (VisItDataCollection.base dc1)))).
    - pose proof (ensures_ok _ _ _ _ (LoadMesh_keeps dc1 w1) E2) as [K _].
      congruence.
    - injection E2 as <- _. congruence. }
  apply grows_bind.
  { destruct (negb (is_error (error (VisItDataCollection.base dc2))));
      [now apply LoadFields_grows | auto with grows]. }
  intros dc3 w3 E3.
  assert (K3 : own_data (VisItDataCollection.base dc3) = false).
  { destruct (negb (is_error (error (VisItDataCollection.base dc2)))).
    - pose proof (ensures_ok _ _ _ _ (LoadFields_keeps dc2 w2) E3) as [K _].
      congruence.
    - injection E3 as <- _. congruence. }
  destruct (negb (is_error (error (VisItDataCollection.base dc3)))).
  - auto with grows.
  - now apply VisIt_DeleteAll_grows.
Qed.

Lemma run_op_grows o dc w :
  own_data (VisItDataCollection.base dc) = false ->
  grows P w (run_op o dc w).
Proof.
  intros H. destruct o; cbn [run_op].
  - now apply VisIt_SetMesh_grows.
  - now apply VisIt_RegisterField_grows.
  - auto with grows.
  - auto with grows.
  - now apply VisIt_Save_grows.
  - apply grows_bind; [now apply SaveField_grows|]. intros. auto with grows.
  - apply grows_bind; [now apply DeleteData_grows|]. intros. auto with grows.
  - now apply VisIt_DeleteAll_grows.
  - now apply Load_grows.
Qed.

End VisItNoDelete.


(** ** C7: data that is not owned is never deleted *)

Section Ownership.

Context {C : Collaborators}.

Local Open Scope list_scope.

Import DataCollection.

Lemma SetMesh_own p dc w :
  ensures (fun dc' => own_data dc' = own_data dc) (SetMesh p dc w).
Proof.
  unfold SetMesh.
  apply ensures_bind. intros _ w1 _.
  apply ensures_bind. intros pr w2 _.
  apply ensures_ret. destruct pr as [[rank nranks]|]; reflexivity.
Qed.

Lemma RegisterField_own nm gf dc w :
  ensures (fun dc' => own_data dc' = own_data dc) (RegisterField nm gf dc w).
Proof.
  unfold RegisterField.
  repeat first [ apply ensures_bind; intros ? ? ?
               | apply ensures_ret; reflexivity ].
Qed.

Lemma VisIt_SetMesh_own p dc w :
  ensures (fun dc' => own_data (VisItDataCollection.base dc')
                      = own_data (VisItDataCollection.base dc))
    (VisItDataCollection.SetMesh p dc w).
Proof.
  unfold VisItDataCollection.SetMesh. apply ensures_bind. intros b w1 E.
  pose proof (ensures_ok _ _ _ _ (SetMesh_own p _ w) E) as K.
  apply ensures_bind. intros m w2 _. apply ensures_ret. exact K.
Qed.

Lemma VisIt_RegisterField_own nm gf dc w :
  ensures (fun dc' => own_data (VisItDataCollection.base dc')
                      = own_data (VisItDataCollection.base dc))
    (VisItDataCollection.RegisterField nm gf dc w).
Proof.
  unfold VisItDataCollection.RegisterField. apply ensures_bind. intros b w1 E.
  pose proof (ensures_ok _ _ _ _ (RegisterField_own nm gf _ w) E) as K.
  apply ensures_bind. intros g w2 _. apply ensures_ret. exact K.
Qed.

(** [Load] ends owning the data exactly when it ends without error. *)
Lemma Load_own c dc w :
  ensures (fun dc' =>
             own_data (VisItDataCollection.base dc')
             = negb (is_error (error (VisItDataCollection.base dc'))))
    (VisItDataCollection.Load c dc w).
Proof.
  unfold VisItDataCollection.Load.
  apply ensures_bind. intros dc0 w0 _.
  apply ensures_bind. intros dc1 w1 _.
  apply ensures_bind. intros dc2 w2 _.
  apply ensures_bind. intros dc3 w3 _.
  destruct (is_error (error (VisItDataCollection.base dc3))) eqn:E; cbn [negb].
  - unfold ensures.
    destruct (VisItDataCollection.DeleteAll dc3 w3) as [dc4 w4|] eqn:E4; [|exact I].
    apply VisIt_DeleteAll_inv in E4. subst dc4. cbn. now rewrite E.
  - apply ensures_ret. cbn. now rewrite E.
Qed.

Lemma run_op_own o dc w dc' w' :
  run_op o dc w = Ok dc' w' ->
  own_data (VisItDataCollection.base dc) = false ->
  own_data (VisItDataCollection.base dc') = true ->
  exists c, o = OpLoad c /\ error (VisItDataCollection.base dc') = NO_ERROR.
Proof.
  intros E H H'.
  destruct o as [p|nm gf|prefix|n| |nm| | |c]; cbn [run_op] in E.
  - pose proof (ensures_ok _ _ _ _ (VisIt_SetMesh_own _ dc w) E). congruence.
  - pose proof (ensures_ok _ _ _ _ (VisIt_RegisterField_own _ _ dc w) E).
    congruence.
  - injection E as <- _. cbn in H'. unfold SetPrefixPath in H'.
    destruct prefix as [p|]; [|cbn in H'; congruence].
    destruct (negb (string_empty p) && negb (Ascii.eqb (last_char p "/") "/"));
      cbn in H'; congruence.
  - injection E as <- _. cbn in H'. congruence.
  - pose proof (ensures_ok _ _ _ _ (VisIt_Save_keeps dc w) E) as [K _].
    congruence.
  - apply bind_ok_inv in E. destruct E as (b & w1 & E1 & E).
    pose proof (ensures_ok _ _ _ _ (SaveField_keeps _ _ w) E1) as [K _].
    injection E as <- _. cbn in H'. congruence.
  - apply bind_ok_inv in E. destruct E as (b & w1 & E1 & E).
    apply DeleteData_inv in E1. destruct E1 as [fm ->].
    injection E as <- _. cbn in H'. discriminate.
  - apply VisIt_DeleteAll_inv in E. subst dc'. cbn in H'. discriminate.
  - exists c. split; [reflexivity|].
    pose proof (ensures_ok _ _ _ _ (Load_own c dc w) E) as K.
    cbv beta in K. rewrite H' in K.
    destruct (error (VisItDataCollection.base dc')); [reflexivity | discriminate ..].
Qed.

Lemma Unloaded_borrowed dc w dc' w' :
  own_data (VisItDataCollection.base dc) = false ->
  Unloaded dc w dc' w' ->
  own_data (VisItDataCollection.base dc') = false
  /\ exists l, log w' = log w ++ l /\ Forall (fun e => ~ is_delete e) l.
Proof.
  intros H U. induction U as [dc w|dc w dc1 w1 o dc2 w2 U IH E H2].
  - split; [exact H|]. exists []. split; [now rewrite app_nil_r | constructor].
  - destruct (IH H) as (H1 & l & L & F). split; [exact H2|].
    destruct (run_op_grows (fun e => ~ is_delete e) (fun e He => He) o dc1 w1 H1)
      as (l' & L' & F').
    rewrite E in L'. cbn [world_of] in L'.
    exists (l ++ l'). split.
    + rewrite L', L. now rewrite app_assoc.
    + apply Forall_app. now split.
Qed.

(** C7.  While [own_data] is false no operation deletes the mesh or a
    field: the log of [SetMesh], [RegisterField], [DeleteData],
    [DeleteAll] and of every operation of the VisIt collection grows by
    events that are not deletions, and the destructor returns in the same
    world.  [own_data] only becomes true in a [Load] that ends without
    error, so a collection that was never successfully loaded has deleted
    nothing up to and including its destruction. *)
Theorem borrowed_data_never_deleted (dc : VisItDataCollection.t) (w : World) :
  own_data (VisItDataCollection.base dc) = false ->
  let b := VisItDataCollection.base dc in
  let kept := fun e => ~ is_delete e in
  (forall p, grows kept w (SetMesh p b w))
  /\ (forall nm gf, grows kept w (RegisterField nm gf b w))
  /\ grows kept w (DeleteData b w)
  /\ grows kept w (DeleteAll b w)
  /\ destroy b w = Ok tt w
  /\ (forall o, grows kept w (run_op o dc w))
  /\ VisItDataCollection.destroy dc w = Ok tt w
  /\ (forall o dc' w',
        run_op o dc w = Ok dc' w' ->
        own_data (VisItDataCollection.base dc') = true ->
        exists c, o = OpLoad c
                  /\ error (VisItDataCollection.base dc') = NO_ERROR)
  /\ (forall dc' w',
        Unloaded dc w dc' w' ->
        own_data (VisItDataCollection.base dc') = false
        /\ (exists l, log w' = log w ++ l /\ Forall kept l)
        /\ VisItDataCollection.destroy dc' w' = Ok tt w').
Proof.
  intros H b kept.
  assert (HK : forall e, ~ is_delete e -> kept e) by (intros e He; exact He).
  repeat split.
  - intros p. now apply SetMesh_grows.
  - intros nm gf. now apply RegisterField_grows.
  - now apply DeleteData_grows.
  - now apply DeleteAll_grows.
  - unfold destroy. fold b in H. now rewrite H.
  - intros o. now apply run_op_grows.
  - unfold VisItDataCollection.destroy, destroy. now rewrite H.
  - intros o dc' w' E H'. eapply run_op_own; eassumption.
  - now destruct (Unloaded_borrowed dc w dc' w' H H0).
  - now destruct (Unloaded_borrowed dc w dc' w' H H0).
  - destruct (Unloaded_borrowed dc w dc' w' H H0) as [H' _].
    unfold VisItDataCollection.destroy, destroy. now rewrite H'.
Qed.

End Ownership.

Lemma borrowed_data_never_deleted_witness :
  VisItDataCollection.destroy Demo.run_dc (Demo.run_world 0)
  = Ok tt (Demo.run_world 0)
  /\ grows (fun e => ~ is_delete e) (Demo.run_world 0)
       (run_op OpDeleteAll Demo.run_dc (Demo.run_world 0)).
Proof.
  assert (H : DataCollection.own_data (VisItDataCollection.base Demo.run_dc)
              = false) by (vm_compute; reflexivity).
  destruct (borrowed_data_never_deleted Demo.run_dc (Demo.run_world 0) H)
    as (_ & _ & _ & _ & _ & H6 & H7 & _).
  split; [exact H7 | exact (H6 OpDeleteAll)].
Defined.

(** ** C10: a VisIt collection always writes rank and cycle suffixes *)

Section Suffixes.

Context {C : Collaborators}.

Local Open Scope list_scope.

Import DataCollection.

Lemma Load_serial c dc w :
  ensures (fun dc' => serial (VisItDataCollection.base dc')
                      = serial (VisItDataCollection.base dc))
    (VisItDataCollection.Load c dc w).
Proof.
  unfold VisItDataCollection.Load.
  apply ensures_bind. intros dc0 w0 E0.
  apply VisIt_DeleteAll_inv in E0. subst dc0.
  apply ensures_bind. intros dc1 w1 E1.
  pose proof (ensures_ok _ _ _ _ (LoadVisItRootFile_keeps _ _ w0) E1) as [_ K1].
  cbn in K1.
  apply ensures_bind. intros dc2 w2 E2.
  assert (K2 : serial (VisItDataCollection.base dc2)
               = serial (VisItDataCollection.base dc)).
  { destruct (negb (is_error (error (VisItDataCollection.base dc1)))).
    - pose proof (ensures_ok _ _ _ _ (LoadMesh_keeps dc1 w1) E2) as [_ K].
      congruence.
    - injection E2 as <- _. congruence. }
  apply ensures_bind. intros dc3 w3 E3.
  assert (K3 : serial (VisItDataCollection.base dc3)
               = serial (VisItDataCollection.base dc)).
  { destruct (negb (is_error (error (VisItDataCollection.base dc2)))).
    - pose proof (ensures_ok _ _ _ _ (LoadFields_keeps dc2 w2) E3) as [_ K].
      congruence.
    - injection E3 as <- _. congruence. }
  destruct (negb (is_error (error (VisItDataCollection.base dc3)))).
  - apply ensures_ret. exact K3.
  - unfold ensures.
    destruct (VisItDataCollection.DeleteAll dc3 w3) as [dc4 w4|] eqn:E4; [|exact I].
    apply VisIt_DeleteAll_inv in E4. subst dc4. exact K3.
Qed.

Lemma VisIt_SetMesh_serial p dc w :
  ensures (fun dc' => serial (VisItDataCollection.base dc') = false)
    (VisItDataCollection.SetMesh p dc w).
Proof.
  unfold VisItDataCollection.SetMesh.
  apply ensures_bind. intros b w1 _.
  apply ensures_bind. intros m w2 _. apply ensures_ret. reflexivity.
Qed.

Lemma RegisterField_serial nm gf dc w :
  ensures (fun dc' => serial dc' = serial dc) (RegisterField nm gf dc w).
Proof.
  unfold RegisterField.
  apply ensures_bind. intros _ w1 _. apply ensures_ret. reflexivity.
Qed.

Lemma SetPrefixPath_serial prefix dc :
  serial (SetPrefixPath prefix dc) = serial dc.
Proof.
  unfold SetPrefixPath. destruct prefix as [p|]; [|reflexivity].
  destruct (negb (string_empty p) && negb (Ascii.eqb (last_char p "/") "/"));
    reflexivity.
Qed.

Lemma run_op_serial o dc w dc' w' :
  serial (VisItDataCollection.base dc) = false ->
  run_op o dc w = Ok dc' w' ->
  serial (VisItDataCollection.base dc') = false.
Proof.
  intros H E.
  destruct o as [p|nm gf|prefix|n| |nm| | |c]; cbn [run_op] in E.
  - exact (ensures_ok _ _ _ _ (VisIt_SetMesh_serial p dc w) E).
  - unfold VisItDataCollection.RegisterField in E.
    apply bind_ok_inv in E. destruct E as (b & w1 & E1 & E).
    pose proof (ensures_ok _ _ _ _ (RegisterField_serial _ _ _ w) E1) as K.
    apply bind_ok_inv in E. destruct E as (g & w2 & _ & E).
    injection E as <- _. cbn in *. congruence.
  - injection E as <- _. cbn. now rewrite SetPrefixPath_serial.
  - injection E as <- _. exact H.
  - pose proof (ensures_ok _ _ _ _ (VisIt_Save_keeps dc w) E) as [_ K].
    congruence.
  - apply bind_ok_inv in E. destruct E as (b & w1 & E1 & E).
    pose proof (ensures_ok _ _ _ _ (SaveField_keeps _ _ w) E1) as [_ K].
    injection E as <- _. cbn. congruence.
  - apply bind_ok_inv in E. destruct E as (b & w1 & E1 & E).
    apply DeleteData_inv in E1. destruct E1 as [fm ->].
    injection E as <- _. exact H.
  - apply VisIt_DeleteAll_inv in E. subst dc'. exact H.
  - pose proof (ensures_ok _ _ _ _ (Load_serial c dc w) E) as K.
    cbv beta in K. congruence.
Qed.

Lemma Reachable_serial dc w dc' w' :
  serial (VisItDataCollection.base dc) = false ->
  Reachable dc w dc' w' ->
  serial (VisItDataCollection.base dc') = false.
Proof.
  intros H R. induction R as [dc w|dc w dc1 w1 o dc2 w2 R IH E].
  - exact H.
  - eapply run_op_serial; [apply IH, H | exact E].
Qed.

Lemma create_with_mesh_serial nm p w :
  ensures (fun dc => serial (VisItDataCollection.base dc) = false
                     /\ cycle (VisItDataCollection.base dc) = 0)
    (VisItDataCollection.create_with_mesh nm p w).
Proof.
  unfold VisItDataCollection.create_with_mesh.
  apply ensures_bind. intros b w1 _.
  apply ensures_bind. intros m w2 _. apply ensures_ret. split; reflexivity.
Qed.

End Suffixes.

(** C10.  Both constructors of a VisIt collection leave [serial] false
    and [cycle] 0, [SetMesh] leaves [serial] false whatever it was, and
    no operation of the class sets it again, so it is false after every
    run of operations.  With [serial] false the names of the mesh file
    and of every field file end in the padded rank, and with a cycle
    other than -1 the directory ends in the padded cycle: a new
    collection "run" with six pad digits writes its mesh to
    run_000000/mesh.000000, where the base collection of the same name
    (serial, cycle -1) writes to run/mesh. *)
Theorem visit_always_suffixes :
  (forall (C : Collaborators) nm,
     DataCollection.serial (VisItDataCollection.base
                              (VisItDataCollection.create nm)) = false
     /\ DataCollection.cycle (VisItDataCollection.base
                                (VisItDataCollection.create nm)) = 0)
  /\ (forall (C : Collaborators) nm p w dc w',
        VisItDataCollection.create_with_mesh nm p w = Ok dc w' ->
        DataCollection.serial (VisItDataCollection.base dc) = false
        /\ DataCollection.cycle (VisItDataCollection.base dc) = 0)
  /\ (forall (C : Collaborators) p dc w dc' w',
        VisItDataCollection.SetMesh p dc w = Ok dc' w' ->
        DataCollection.serial (VisItDataCollection.base dc') = false)
  /\ (forall (C : Collaborators) dc w dc' w',
        DataCollection.serial (VisItDataCollection.base dc) = false ->
        Reachable dc w dc' w' ->
        DataCollection.serial (VisItDataCollection.base dc') = false)
  /\ (forall (C : Collaborators) (b : DataCollection.t) E,
        DataCollection.serial b = false ->
        DataCollection.mesh_name b
        = DataCollection.dir_name b ++ "/mesh."
          ++ to_padded_string (DataCollection.myid b) (DataCollection.pad_digits b)
        /\ DataCollection.file_name E b
           = DataCollection.dir_name b ++ "/" ++ E ++ "."
             ++ to_padded_string (DataCollection.myid b)
                  (DataCollection.pad_digits b))
  /\ (forall (C : Collaborators) (b : DataCollection.t),
        DataCollection.cycle b <> -1 ->
        DataCollection.dir_name b
        = DataCollection.prefix_path b ++ DataCollection.name b ++ "_"
          ++ to_padded_string (DataCollection.cycle b)
               (DataCollection.pad_digits b))
  /\ DataCollection.mesh_name
       (VisItDataCollection.base
          (VisItDataCollection.create (C := Demo.collaborators) "run"))
     = "run_000000/mesh.000000"
  /\ DataCollection.file_name "pressure"
       (VisItDataCollection.base
          (VisItDataCollection.create (C := Demo.collaborators) "run"))
     = "run_000000/pressure.000000"
  /\ DataCollection.num_procs
       (DataCollection.create (C := Demo.collaborators) "run") = 1
  /\ DataCollection.mesh_name
       (DataCollection.create (C := Demo.collaborators) "run") = "run/mesh".
Proof.
  split; [intros C nm; split; reflexivity|].
  split.
  { intros C nm p w dc w' E.
    exact (ensures_ok _ _ _ _ (create_with_mesh_serial nm p w) E). }
  split.
  { intros C p dc w dc' w' E.
    exact (ensures_ok _ _ _ _ (VisIt_SetMesh_serial p dc w) E). }
  split.
  { intros C dc w dc' w' H R. eapply Reachable_serial; eassumption. }
  split.
  { intros C b E H. unfold DataCollection.mesh_name, DataCollection.file_name.
    rewrite H. split; reflexivity. }
  split.
  { intros C b H. unfold DataCollection.dir_name.
    destruct (Z.eqb_spec (DataCollection.cycle b) (-1)); [contradiction|].
    reflexivity. }
  repeat split; vm_compute; reflexivity.
Qed.

(** ** C4: the error flag is never cleared *)

Section ErrorFlag.

Context {C : Collaborators}.

Local Open Scope list_scope.

Import DataCollection.






End ErrorFlag.



(** ** C5: the stages of Load *)

Section LoadStages.

Context {C : Collaborators}.

Local Open Scope list_scope.

Import DataCollection.

Lemma reads_app l l' : reads (l ++ l') = reads l ++ reads l'.
Proof. unfold reads. apply flat_map_app. Qed.

Lemma heap_find_head {A : Type} a (x : A) h : heap_find a ((a, x) :: h) = Some x.
Proof. simpl. now rewrite Nat.eqb_refl. Qed.

Lemma LoadMesh_missing dc w :
  StrMap.find (VisItDataCollection.mesh_fname dc) (files w) = None ->
  VisItDataCollection.LoadMesh dc w
  = Ok (VisItDataCollection.on_base (set_error READ_ERROR) dc)
       (add_event (EvWarning ("Unable to open mesh file: "
                              ++ VisItDataCollection.mesh_fname dc)%string)
          (add_event (EvRead (VisItDataCollection.mesh_fname dc)) w)).
Proof.
  intros H. unfold VisItDataCollection.LoadMesh, open_in, bind. now rewrite H.
Qed.

(** The mesh stage on a file that is there: a new mesh is allocated from
    the text and becomes the mesh of the collection. *)
Lemma LoadMesh_found dc w text :
  StrMap.find (VisItDataCollection.mesh_fname dc) (files w) = Some text ->
  exists dc' w',
    VisItDataCollection.LoadMesh dc w = Ok dc' w'
    /\ VisItDataCollection.base dc'
       = set_mesh (Some (next_addr w)) (VisItDataCollection.base dc)
    /\ VisItDataCollection.field_info_map dc'
       = VisItDataCollection.field_info_map dc
    /\ heap_find (next_addr w) (meshes w') = Some (Mesh_read text)
    /\ files w' = files w
    /\ log w' = log w ++ [EvRead (VisItDataCollection.mesh_fname dc);
                          EvNewMesh (next_addr w)].
Proof.
  intros H. unfold VisItDataCollection.LoadMesh, open_in, bind. rewrite H.
  unfold new_mesh. cbn [next_addr add_event meshes].
  unfold deref_mesh.
  cbn [mesh VisItDataCollection.base VisItDataCollection.on_base
       VisItDataCollection.set_base set_mesh meshes add_event set_next_addr
       set_meshes].
  rewrite heap_find_head. unfold ret.
  eexists _, _. split; [reflexivity|].
  cbn. rewrite Nat.eqb_refl. repeat split.
  now rewrite <- app_assoc.
Qed.

(** The loop over the fields stops at the first file that cannot be
    opened: the files of the entries before it were opened, one after the
    other, and none of the entries behind it. *)
Lemma load_fields_stops l1 : forall dc w a m k info l2,
  mesh (VisItDataCollection.base dc) = Some a ->
  heap_find a (meshes w) = Some m ->
  (forall k', In k' (StrMap.keys l1) ->
     StrMap.find (VisItDataCollection.field_fname k' dc) (files w) <> None) ->
  StrMap.find (VisItDataCollection.field_fname k dc) (files w) = None ->
  exists dc' w',
    VisItDataCollection.load_fields (l1 ++ (k, info) :: l2) dc w = Ok dc' w'
    /\ error (VisItDataCollection.base dc') = READ_ERROR
    /\ reads (log w')
       = reads (log w)
         ++ map (fun k' => VisItDataCollection.field_fname k' dc) (StrMap.keys l1)
         ++ [VisItDataCollection.field_fname k dc].
Proof.
  induction l1 as [|[k1 info1] l1 IH]; intros dc w a m k info l2 Hp Hm Hall Hk.
  - cbn [app VisItDataCollection.load_fields].
    unfold open_in, bind. rewrite Hk. unfold MFEM_WARNING, emit, ret.
    eexists _, _. split; [reflexivity|]. split; [reflexivity|].
    cbn [log add_event StrMap.keys map app].
    rewrite <- app_assoc, !reads_app. reflexivity.
  - cbn [app VisItDataCollection.load_fields].
    destruct (StrMap.find (VisItDataCollection.field_fname k1 dc) (files w))
      as [text|] eqn:E1.
    2:{ exfalso. apply (Hall k1); [now left | exact E1]. }
    unfold open_in at 1. unfold bind at 1. rewrite E1.
    rewrite Hp.
    rewrite (bind_run _ _ _ _ _
               (deref_mesh_live a m (add_event _ w) Hm)).
    unfold new_field at 1. unfold bind at 1.
    match goal with
    | |- context [VisItDataCollection.load_fields _ ?d ?w1] =>
        destruct (IH d w1 a m k info l2) as (dc' & w' & E & He & L)
    end.
    + exact Hp.
    + exact Hm.
    + intros k' Hin. apply (Hall k'). now right.
    + exact Hk.
    + exists dc', w'. split; [exact E|]. split; [exact He|].
      rewrite L. cbn [log add_event set_next_addr set_gfuncs StrMap.keys map fst].
      rewrite !reads_app. cbn [reads flat_map app].
      rewrite <- !app_assoc. reflexivity.
Qed.

End LoadStages.

Section LoadFailFast.

Context {C : Collaborators}.

Local Open Scope list_scope.

Import DataCollection.

Lemma field_fname_base k dc dc' :
  name (VisItDataCollection.base dc') = name (VisItDataCollection.base dc) ->
  prefix_path (VisItDataCollection.base dc')
  = prefix_path (VisItDataCollection.base dc) ->
  cycle (VisItDataCollection.base dc') = cycle (VisItDataCollection.base dc) ->
  myid (VisItDataCollection.base dc') = myid (VisItDataCollection.base dc) ->
  pad_digits (VisItDataCollection.base dc')
  = pad_digits (VisItDataCollection.base dc) ->
  VisItDataCollection.field_fname k dc' = VisItDataCollection.field_fname k dc.
Proof.
  intros H1 H2 H3 H4 H5.
  unfold VisItDataCollection.field_fname, VisItDataCollection.cycle_path.
  now rewrite H1, H2, H3, H4, H5.
Qed.

(** C5.  After the root file stage of [Load]: when it left the error
    flag set, nothing more is read; when the mesh file cannot be opened,
    [READ_ERROR] is set and the log ends with that one attempt and its
    warning, so no field file is opened; and when the mesh was read, the
    field files are opened in the order of the names up to the first one
    that cannot be opened, which sets [READ_ERROR], and none of those
    behind it is opened. *)
Theorem load_fail_fast (c : Z) (dc dc0 dc1 : VisItDataCollection.t)
    (w w0 w1 : World) :
  VisItDataCollection.DeleteAll dc w = Ok dc0 w0 ->
  VisItDataCollection.LoadVisItRootFile
    (VisItDataCollection.root_name
       (VisItDataCollection.on_base (set_cycle c) dc0))
    (VisItDataCollection.on_base (set_cycle c) dc0) w0 = Ok dc1 w1 ->
  (is_error (error (VisItDataCollection.base dc1)) = true ->
   exists dc',
     VisItDataCollection.Load c dc w = Ok dc' w1
     /\ is_error (error (VisItDataCollection.base dc')) = true)
  /\ (error (VisItDataCollection.base dc1) = NO_ERROR ->
      StrMap.find (VisItDataCollection.mesh_fname dc1) (files w1) = None ->
      exists dc' w',
        VisItDataCollection.Load c dc w = Ok dc' w'
        /\ error (VisItDataCollection.base dc') = READ_ERROR
        /\ log w' = log w1
                    ++ [EvRead (VisItDataCollection.mesh_fname dc1);
                        EvWarning ("Unable to open mesh file: "
                                   ++ VisItDataCollection.mesh_fname dc1)%string])
  /\ (error (VisItDataCollection.base dc1) = NO_ERROR ->
      forall text l1 k info l2,
        StrMap.find (VisItDataCollection.mesh_fname dc1) (files w1)
        = Some text ->
        VisItDataCollection.field_info_map dc1 = l1 ++ (k, info) :: l2 ->
        (forall k', In k' (StrMap.keys l1) ->
           StrMap.find (VisItDataCollection.field_fname k' dc1) (files w1)
           <> None) ->
        StrMap.find (VisItDataCollection.field_fname k dc1) (files w1) = None ->
        exists dc' w',
          VisItDataCollection.Load c dc w = Ok dc' w'
          /\ error (VisItDataCollection.base dc') = READ_ERROR
          /\ reads (log w')
             = reads (log w1)
               ++ VisItDataCollection.mesh_fname dc1
               :: map (fun k' => VisItDataCollection.field_fname k' dc1)
                    (StrMap.keys l1)
               ++ [VisItDataCollection.field_fname k dc1]).
Proof.
  intros E0 E1.
  pose proof (VisIt_DeleteAll_inv _ _ _ _ E0) as D0.
  pose proof (ensures_ok _ _ _ _ (LoadVisItRootFile_keeps _ _ w0) E1) as [K1 _].
  rewrite D0 in K1. cbn in K1.
  unfold VisItDataCollection.Load.
  rewrite (bind_run _ _ _ _ _ E0), (bind_run _ _ _ _ _ E1).
  split; [|split].
  - intros He. rewrite He. cbn [negb]. rewrite !bind_ret. rewrite He.
    cbn [negb]. rewrite bind_ret. rewrite He. cbn [negb].
    rewrite (VisIt_DeleteAll_borrowed dc1 w1 K1).
    eexists. split; [reflexivity|]. exact He.
  - intros He Hm. rewrite He. cbn [is_error negb].
    rewrite (bind_run _ _ _ _ _ (LoadMesh_missing dc1 w1 Hm)).
    cbn [VisItDataCollection.base VisItDataCollection.on_base
         VisItDataCollection.set_base error set_error is_error negb].
    rewrite !bind_ret.
    cbn [VisItDataCollection.base VisItDataCollection.on_base
         VisItDataCollection.set_base error set_error is_error negb].
    rewrite VisIt_DeleteAll_borrowed by exact K1.
    eexists _, _. split; [reflexivity|]. split; [reflexivity|].
    cbn [log add_event]. now rewrite <- app_assoc.
  - intros He text l1 k info l2 Hm Hl Hall Hk. rewrite He. cbn [is_error negb].
    destruct (LoadMesh_found dc1 w1 text Hm)
      as (dc2 & w2 & E2 & B2 & I2 & M2 & F2 & L2).
    rewrite (bind_run _ _ _ _ _ E2).
    assert (He2 : error (VisItDataCollection.base dc2) = NO_ERROR)
      by (rewrite B2; exact He).
    rewrite He2. cbn [is_error negb].
    unfold VisItDataCollection.LoadFields.
    cbn [VisItDataCollection.field_info_map VisItDataCollection.on_base
         VisItDataCollection.set_base].
    rewrite I2, Hl.
    set (dc2' := VisItDataCollection.set_base
                   (set_field_map StrMap.empty (VisItDataCollection.base dc2))
                   dc2).
    assert (Hf : forall k', VisItDataCollection.field_fname k' dc2'
                            = VisItDataCollection.field_fname k' dc1).
    { intros k'. apply field_fname_base; unfold dc2'; cbn; now rewrite B2. }
    destruct (load_fields_stops l1 dc2' w2 (next_addr w1) (Mesh_read text)
                k info l2) as (dc3 & w3 & E3 & He3 & L3).
    + unfold dc2'. cbn. now rewrite B2.
    + exact M2.
    + intros k' Hin. rewrite Hf, F2. now apply Hall.
    + now rewrite Hf, F2.
    + rewrite (bind_run _ _ _ _ _ E3). rewrite He3. cbn [is_error negb].
      pose proof (ensures_ok _ _ _ _
                    (load_fields_keeps _ dc2' w2) E3) as [K3 _].
      assert (K3' : own_data (VisItDataCollection.base dc3) = false).
      { rewrite K3. unfold dc2'. cbn. now rewrite B2. }
      rewrite (VisIt_DeleteAll_borrowed dc3 w3 K3').
      eexists _, _. split; [reflexivity|]. split; [exact He3|].
      rewrite L3, L2, reads_app. cbn [reads flat_map app].
      rewrite <- app_assoc. cbn [app]. rewrite Hf.
      f_equal. f_equal. f_equal. apply map_ext. intros k'. apply Hf.
Qed.

End LoadFailFast.


Lemma returned (o : outcome VisItDataCollection.t) :
  returns o (fun _ _ => True) -> o = Ok (Demo.result_of o) (world_of o).
Proof. destruct o; [reflexivity | intros []]. Qed.

Lemma load_fail_fast_witness :
  exists dc' w',
    VisItDataCollection.Load 3 (VisItDataCollection.create "run")
      Demo.run_world_root_only = Ok dc' w'
    /\ DataCollection.error (VisItDataCollection.base dc') = READ_ERROR
    /\ log w' = [EvRead "run_000003.mfem_root";
                 EvRead "run_000003/mesh.000000";
                 EvWarning "Unable to open mesh file: run_000003/mesh.000000"].
Proof.
  set (dc := VisItDataCollection.create "run").
  set (w := Demo.run_world_root_only).
  set (dc0 := VisItDataCollection.on_base (DataCollection.set_cycle 3)
                (visit_emptied dc)).
  set (o := VisItDataCollection.LoadVisItRootFile
              (VisItDataCollection.root_name dc0) dc0 w).
  assert (E0 : VisItDataCollection.DeleteAll dc w = Ok (visit_emptied dc) w)
    by (apply VisIt_DeleteAll_borrowed; reflexivity).
  assert (E1 : o = Ok (Demo.result_of o) (world_of o))
    by (apply returned; vm_compute; exact I).
  assert (He : DataCollection.error (VisItDataCollection.base (Demo.result_of o))
               = NO_ERROR) by (vm_compute; reflexivity).
  assert (Hm : StrMap.find (VisItDataCollection.mesh_fname (Demo.result_of o))
                 (files (world_of o)) = None) by (vm_compute; reflexivity).
  destruct (load_fail_fast 3 dc (visit_emptied dc) (Demo.result_of o)
              w w (world_of o) E0 E1) as (_ & H & _).
  destruct (H He Hm) as (dc' & w' & E & Herr & L).
  exists dc', w'. split; [exact E|]. split; [exact Herr|].
  rewrite L. vm_compute. reflexivity.
Defined.

(** ** C2: what a failed Load leaves behind *)

Section Rollback.

Context {C : Collaborators}.

Local Open Scope list_scope.

Import DataCollection.

(** A [Load] that ends with the error flag set ends in [DeleteAll]. *)
Lemma Load_failure_empty c dc w dc' w' :
  VisItDataCollection.Load c dc w = Ok dc' w' ->
  is_error (error (VisItDataCollection.base dc')) = true ->
  exists dc3, dc' = visit_emptied dc3.
Proof.
  unfold VisItDataCollection.Load. intros E He.
  apply bind_ok_inv in E. destruct E as (dc0 & w0 & _ & E).
  apply bind_ok_inv in E. destruct E as (dc1 & w1 & _ & E).
  apply bind_ok_inv in E. destruct E as (dc2 & w2 & _ & E).
  apply bind_ok_inv in E. destruct E as (dc3 & w3 & _ & E).
  destruct (is_error (error (VisItDataCollection.base dc3))) eqn:E3;
    cbn [negb] in E.
  - apply VisIt_DeleteAll_inv in E. now exists dc3.
  - injection E as <- _. cbn in He. congruence.
Qed.

End Rollback.

(** C2, the parts that hold and the one that does not.  A [Load] that
    ends with the error flag set leaves no mesh handle, no field entry,
    no field info entry and [own_data] false, and [own_data] is true only
    after a [Load] without error.  But a [Load] that starts on data that
    is not owned deletes nothing at all, so what it allocated before the
    failure is never released: loading cycle 3 of "run" from a tree with
    the root file and the mesh file but without the file of the field
    "pressure" allocates the mesh at address 100, fails on the field,
    and returns an empty collection while the mesh is still live and no
    handle to it is left. *)
Theorem load_rollback_leaks :
  (forall (C : Collaborators) c dc w dc' w',
     VisItDataCollection.Load c dc w = Ok dc' w' ->
     is_error (DataCollection.error (VisItDataCollection.base dc')) = true ->
     DataCollection.mesh (VisItDataCollection.base dc') = None
     /\ DataCollection.field_map (VisItDataCollection.base dc') = StrMap.empty
     /\ VisItDataCollection.field_info_map dc' = StrMap.empty
     /\ DataCollection.own_data (VisItDataCollection.base dc') = false)
  /\ (forall (C : Collaborators) c dc w dc' w',
        VisItDataCollection.Load c dc w = Ok dc' w' ->
        DataCollection.own_data (VisItDataCollection.base dc') = true ->
        DataCollection.error (VisItDataCollection.base dc') = NO_ERROR)
  /\ (forall (C : Collaborators) c dc w,
        DataCollection.own_data (VisItDataCollection.base dc) = false ->
        grows (fun e => ~ is_delete e) w (VisItDataCollection.Load c dc w))
  /\ returns
       (VisItDataCollection.Load 3 (VisItDataCollection.create "run")
          Demo.run_world_no_field)
       (fun dc' w' =>
          DataCollection.error (VisItDataCollection.base dc') = READ_ERROR
          /\ DataCollection.mesh (VisItDataCollection.base dc') = None
          /\ DataCollection.field_map (VisItDataCollection.base dc')
             = StrMap.empty
          /\ VisItDataCollection.field_info_map dc' = StrMap.empty
          /\ DataCollection.own_data (VisItDataCollection.base dc') = false
          /\ log w'
             = [EvRead "run_000003.mfem_root";
                EvRead "run_000003/mesh.000000";
                EvNewMesh 100%nat;
                EvRead "run_000003/pressure.000000";
                EvWarning
                  "Unable to open field file: run_000003/pressure.000000"]
          /\ heap_find 100%nat (meshes w')
             = Some {| Demo.space_dim := 2; Demo.dim := 2;
                       Demo.ranks := None |}).
Proof.
  split; [|split; [|split]].
  - intros C c dc w dc' w' E He.
    destruct (Load_failure_empty c dc w dc' w' E He) as [dc3 ->].
    repeat split.
  - intros C c dc w dc' w' E Ho.
    pose proof (ensures_ok _ _ _ _ (Load_own c dc w) E) as K.
    cbv beta in K. rewrite Ho in K.
    destruct (DataCollection.error (VisItDataCollection.base dc'));
      [reflexivity | discriminate ..].
  - intros C c dc w H. apply Load_grows; [|exact H]. intros e He. exact He.
  - vm_compute. repeat split.
Qed.

(** ** C9: a root file whose mesh path has no underscore *)

Lemma LoadVisItRootFile_nonempty {C : Collaborators} r dc w text :
  text <> ""%string ->
  StrMap.find r (files w) = Some text ->
  VisItDataCollection.LoadVisItRootFile r dc w
  = VisItDataCollection.ParseVisItRootString text dc (add_event (EvRead r) w).
Proof.
  intros Hne Hf. unfold VisItDataCollection.LoadVisItRootFile, open_in.
  unfold bind at 1. rewrite Hf.
  destruct text as [|ch text]; [contradiction | reflexivity].
Qed.

Section NoUnderscore.

Context {C : Collaborators}.

Local Open Scope list_scope.

Import DataCollection.

Variables (json : string) (top dsets main vc vt vd mesh vp : picojson.value).
Variables (dcycle dtime ddomains : double) (path : string).

Hypothesis Hparse : picojson.parse json = Some top.
Hypothesis Hdsets : picojson.get "dsets" top = Some dsets.
Hypothesis Hmain : picojson.get "main" dsets = Some main.
Hypothesis Hcycle : picojson.get "cycle" main = Some vc.
Hypothesis Hcycle' : picojson.get_double vc = Some dcycle.
Hypothesis Htime : picojson.get "time" main = Some vt.
Hypothesis Htime' : picojson.get_double vt = Some dtime.
Hypothesis Hdomains : picojson.get "domains" main = Some vd.
Hypothesis Hdomains' : picojson.get_double vd = Some ddomains.
Hypothesis Hmesh : picojson.get "mesh" main = Some mesh.
Hypothesis Hpath : picojson.get "path" mesh = Some vp.
Hypothesis Hpath' : picojson.get_string vp = Some path.
Hypothesis Hsep : find_char "_" path = None.

Lemma ParseVisItRootString_no_underscore dc w :
  VisItDataCollection.ParseVisItRootString json dc w
  = Ok (half_parsed dcycle dtime ddomains dc)
       (add_event (EvWarning "Unable to parse visit root data.") w).
Proof.
  unfold VisItDataCollection.ParseVisItRootString. rewrite Hparse.
  rewrite Hdsets. cbn [VisItDataCollection.asserted]. rewrite bind_ret.
  rewrite Hmain. cbn [VisItDataCollection.asserted]. rewrite bind_ret.
  rewrite Hcycle. cbn [VisItDataCollection.asserted]. rewrite bind_ret.
  rewrite Hcycle'. cbn [VisItDataCollection.asserted]. rewrite bind_ret.
  rewrite Htime. cbn [VisItDataCollection.asserted]. rewrite bind_ret.
  rewrite Htime'. cbn [VisItDataCollection.asserted]. rewrite bind_ret.
  rewrite Hdomains. cbn [VisItDataCollection.asserted]. rewrite bind_ret.
  rewrite Hdomains'. cbn [VisItDataCollection.asserted]. rewrite bind_ret.
  rewrite Hmesh. cbn [VisItDataCollection.asserted]. rewrite bind_ret.
  assert (Hf : exists fields, picojson.get "fields" main = Some fields).
  { destruct main; try discriminate Hmesh. cbn. eexists. reflexivity. }
  destruct Hf as [fields Hf].
  rewrite Hf. cbn [VisItDataCollection.asserted]. rewrite bind_ret.
  rewrite Hpath. cbn [VisItDataCollection.asserted]. rewrite bind_ret.
  rewrite Hpath'. cbn [VisItDataCollection.asserted]. rewrite bind_ret.
  rewrite Hsep. reflexivity.
Qed.

(** C9.  A root file that parses, with numbers for cycle, time and
    domains and a mesh path without underscore: [ParseVisItRootString]
    sets [READ_ERROR] and returns with name, dimensions, levels of
    detail and field info as they were, and with cycle, time and number
    of ranks already taken from the root file; the [DeleteAll] that ends
    the [Load] empties the collection and does not restore them. *)
Theorem no_underscore_partial_update (c : Z) (dc dc0 : VisItDataCollection.t)
    (w w0 : World) :
  VisItDataCollection.DeleteAll dc w = Ok dc0 w0 ->
  json <> ""%string ->
  StrMap.find
    (VisItDataCollection.root_name
       (VisItDataCollection.on_base (set_cycle c) dc0)) (files w0)
  = Some json ->
  (forall d w1,
     exists d' w1',
       VisItDataCollection.ParseVisItRootString json d w1 = Ok d' w1'
       /\ error (VisItDataCollection.base d') = READ_ERROR
       /\ name (VisItDataCollection.base d') = name (VisItDataCollection.base d)
       /\ VisItDataCollection.spatial_dim d' = VisItDataCollection.spatial_dim d
       /\ VisItDataCollection.topo_dim d' = VisItDataCollection.topo_dim d
       /\ VisItDataCollection.visit_max_levels_of_detail d'
          = VisItDataCollection.visit_max_levels_of_detail d
       /\ VisItDataCollection.field_info_map d'
          = VisItDataCollection.field_info_map d
       /\ cycle (VisItDataCollection.base d') = int_of_double dcycle
       /\ time (VisItDataCollection.base d') = dtime
       /\ num_procs (VisItDataCollection.base d') = int_of_double ddomains)
  /\ exists dc' w',
       VisItDataCollection.Load c dc w = Ok dc' w'
       /\ error (VisItDataCollection.base dc') = READ_ERROR
       /\ name (VisItDataCollection.base dc') = name (VisItDataCollection.base dc)
       /\ VisItDataCollection.spatial_dim dc' = VisItDataCollection.spatial_dim dc
       /\ VisItDataCollection.topo_dim dc' = VisItDataCollection.topo_dim dc
       /\ VisItDataCollection.field_info_map dc' = StrMap.empty
       /\ cycle (VisItDataCollection.base dc') = int_of_double dcycle
       /\ time (VisItDataCollection.base dc') = dtime
       /\ num_procs (VisItDataCollection.base dc') = int_of_double ddomains
       /\ log w' = log w0
                   ++ [EvRead (VisItDataCollection.root_name
                                 (VisItDataCollection.on_base (set_cycle c) dc0));
                       EvWarning "Unable to parse visit root data."].
Proof.
  intros E0 Hne Hfile. split.
  - intros d w1. eexists _, _.
    split; [apply ParseVisItRootString_no_underscore|]. repeat split.
  - pose proof (VisIt_DeleteAll_inv _ _ _ _ E0) as D0.
    unfold VisItDataCollection.Load. rewrite (bind_run _ _ _ _ _ E0).
    set (d := VisItDataCollection.on_base (set_cycle c) dc0) in *.
    assert (E1 : VisItDataCollection.LoadVisItRootFile
                   (VisItDataCollection.root_name d) d w0
                 = Ok (half_parsed dcycle dtime ddomains d)
                     (add_event (EvWarning "Unable to parse visit root data.")
                        (add_event (EvRead (VisItDataCollection.root_name d))
                           w0))).
    { rewrite (LoadVisItRootFile_nonempty _ _ _ json Hne Hfile).
      apply ParseVisItRootString_no_underscore. }
    rewrite (bind_run _ _ _ _ _ E1).
    assert (Herr : is_error (error (VisItDataCollection.base
                                      (half_parsed dcycle dtime ddomains d)))
                   = true) by reflexivity.
    rewrite Herr. cbn [negb]. rewrite bind_ret.
    rewrite Herr. cbn [negb]. rewrite bind_ret.
    rewrite Herr. cbn [negb].
    rewrite VisIt_DeleteAll_borrowed by (unfold d; rewrite D0; reflexivity).
    eexists _, _. split; [reflexivity|].
    unfold d. rewrite D0. cbn. repeat split.
    now rewrite <- app_assoc.
Qed.

End NoUnderscore.

Lemma some_value (o : option picojson.value) :
  Demo.is_some o = true -> o = Some (Demo.value_of o).
Proof. destruct o; [reflexivity | discriminate]. Qed.

Lemma no_underscore_partial_update_witness :
  exists dc' w',
    VisItDataCollection.Load 3 (VisItDataCollection.create "run")
      Demo.bad_root_world = Ok dc' w'
    /\ DataCollection.error (VisItDataCollection.base dc') = READ_ERROR
    /\ DataCollection.name (VisItDataCollection.base dc') = "run"
    /\ DataCollection.cycle (VisItDataCollection.base dc') = 7
    /\ DataCollection.time (VisItDataCollection.base dc') = 2
    /\ DataCollection.num_procs (VisItDataCollection.base dc') = 4.
Proof.
  set (json := Demo.bad_root_text).
  set (top := Demo.value_of (picojson.parse json)).
  set (dsets := Demo.value_of (picojson.get "dsets" top)).
  set (main := Demo.value_of (picojson.get "main" dsets)).
  set (vc := Demo.value_of (picojson.get "cycle" main)).
  set (vt := Demo.value_of (picojson.get "time" main)).
  set (vd := Demo.value_of (picojson.get "domains" main)).
  set (mesh := Demo.value_of (picojson.get "mesh" main)).
  set (vp := Demo.value_of (picojson.get "path" mesh)).
  assert (H1 : picojson.parse json = Some top)
    by (apply some_value; vm_compute; reflexivity).
  assert (H2 : picojson.get "dsets" top = Some dsets)
    by (apply some_value; vm_compute; reflexivity).
  assert (H3 : picojson.get "main" dsets = Some main)
    by (apply some_value; vm_compute; reflexivity).
  assert (H4 : picojson.get "cycle" main = Some vc)
    by (apply some_value; vm_compute; reflexivity).
  assert (H5 : picojson.get_double vc = Some 7) by (vm_compute; reflexivity).
  assert (H6 : picojson.get "time" main = Some vt)
    by (apply some_value; vm_compute; reflexivity).
  assert (H7 : picojson.get_double vt = Some 2) by (vm_compute; reflexivity).
  assert (H8 : picojson.get "domains" main = Some vd)
    by (apply some_value; vm_compute; reflexivity).
  assert (H9 : picojson.get_double vd = Some 4) by (vm_compute; reflexivity).
  assert (H10 : picojson.get "mesh" main = Some mesh)
    by (apply some_value; vm_compute; reflexivity).
  assert (H11 : picojson.get "path" mesh = Some vp)
    by (apply some_value; vm_compute; reflexivity).
  assert (H12 : picojson.get_string vp = Some "nounderscore")
    by (vm_compute; reflexivity).
  assert (H13 : find_char "_" "nounderscore" = None)
    by (vm_compute; reflexivity).
  assert (E0 : VisItDataCollection.DeleteAll (VisItDataCollection.create "run")
                 Demo.bad_root_world
               = Ok (visit_emptied (VisItDataCollection.create "run"))
                   Demo.bad_root_world)
    by (apply VisIt_DeleteAll_borrowed; reflexivity).
  assert (Hne : json <> "") by (vm_compute; discriminate).
  assert (Hf : StrMap.find
                 (VisItDataCollection.root_name
                    (VisItDataCollection.on_base (DataCollection.set_cycle 3)
                       (visit_emptied
                          (VisItDataCollection.create
                             (C := Demo.collaborators) "run"))))
                 (files Demo.bad_root_world) = Some json)
    by (vm_compute; reflexivity).
  destruct (no_underscore_partial_update json top dsets main vc vt vd mesh vp
              7 2 4 "nounderscore" H1 H2 H3 H4 H5 H6 H7 H8 H9 H10 H11 H12 H13
              3 (VisItDataCollection.create "run")
              (visit_emptied (VisItDataCollection.create "run"))
              Demo.bad_root_world Demo.bad_root_world E0 Hne Hf)
    as (_ & dc' & w' & E & He & Hn & _ & _ & _ & Hc & Ht & Hd & _).
  exists dc', w'. repeat split; assumption.
Defined.

(** ** C6: the naming rule *)

Section Naming.

Context {C : Collaborators}.

Local Open Scope list_scope.

Import DataCollection.

Lemma SaveOneField_opens it dc w :
  exists post,
    log (world_of (SaveOneField it dc w))
    = log w ++ EvWrite (file_name (fst it) dc) :: post.
Proof.
  unfold SaveOneField, open_out. unfold bind at 1. cbn [emit].
  match goal with
  | |- context [world_of (?m ?w1)] =>
      assert (G : grows (fun _ => True) w1 (m w1))
  end.
  { repeat first [ solve [auto with grows] | apply grows_bind; [|intros ? ? ?]
                 | split_call ]. }
  destruct G as (l & L & _). exists l. rewrite L. cbn [log add_event].
  now rewrite <- app_assoc.
Qed.

Lemma dir_events_created w dc :
  dirs_fail w dc = false ->
  Forall (fun e => e = EvMkdir (prefix_path dc) \/ e = EvMkdir (dir_name dc))
    (dir_events w dc)
  /\ (creates (myid dc) (ranks_of (mesh dc) w) = true ->
      In (EvMkdir (dir_name dc)) (dir_events w dc)).
Proof.
  unfold dirs_fail, dir_events, cycle_dir_events, mkdir_events. intros H.
  apply orb_false_elim in H. destruct H as [Hp Hd]. rewrite Hd.
  destruct (string_empty (prefix_path dc)) eqn:Ee; cbn [negb andb] in Hp.
  - destruct (creates (myid dc) (ranks_of (mesh dc) w)); cbn.
    + split; [|intros _; now left].
      constructor; [now right | constructor].
    + split; [constructor | discriminate].
  - rewrite Hp.
    destruct (creates (myid dc) (ranks_of (mesh dc) w)); cbn.
    + split; [|intros _; right; now left].
      constructor; [now left|]. constructor; [now right | constructor].
    + split; [constructor | discriminate].
Qed.

End Naming.

(** C6.  [SaveMesh] creates the directory [prefix_path + name] when the
    cycle is -1 and [prefix_path + name + "_" + pad(cycle)] otherwise,
    and it and [SaveOneField] open [<dir>/E] in serial mode and
    [<dir>/E.<pad(rank)>] otherwise, with [E] "mesh" or the name of the
    field.  For "run", six pad digits, cycle 3, two ranks and the field
    "pressure": rank 0 creates run_000003 and writes mesh.000000,
    pressure.000000 and the root file run_000003.mfem_root; rank 1
    writes mesh.000001 and pressure.000001; the root file holds
    "domains": 2, "cycle": 3 and a "pressure" entry with "comps": "1". *)
Theorem naming_rule {C : Collaborators} (dc : DataCollection.t) (w : World)
    (a : addr) (m : Mesh) :
  DataCollection.mesh dc = Some a ->
  heap_find a (meshes w) = Some m ->
  dirs_fail w dc = false ->
  let dir :=
    if DataCollection.cycle dc =? -1
    then DataCollection.prefix_path dc ++ DataCollection.name dc
    else DataCollection.prefix_path dc ++ DataCollection.name dc ++ "_"
         ++ to_padded_string (DataCollection.cycle dc)
              (DataCollection.pad_digits dc) in
  let entity E :=
    if DataCollection.serial dc then dir ++ "/" ++ E
    else dir ++ "/" ++ E ++ "."
         ++ to_padded_string (DataCollection.myid dc)
              (DataCollection.pad_digits dc) in
  (exists pre post,
     log (world_of (DataCollection.SaveMesh dc w))
     = (log w ++ pre ++ EvWrite (entity "mesh") :: post)%list
     /\ Forall (fun e => e = EvMkdir (DataCollection.prefix_path dc)
                         \/ e = EvMkdir dir) pre
     /\ (creates (DataCollection.myid dc) (ParMesh_ranks m) = true ->
         In (EvMkdir dir) pre))
  /\ (forall E gf,
        exists post,
          log (world_of (DataCollection.SaveOneField (E, gf) dc w))
          = (log w ++ EvWrite (entity E) :: post)%list)
  /\ log (world_of (Demo.run_save (Demo.run_world 0)))
     = [EvMkdir "run_000003"; EvWrite "run_000003/mesh.000000";
        EvWrite "run_000003/pressure.000000"; EvWrite "run_000003.mfem_root"]
  /\ log (world_of (Demo.run_save Demo.run_world_after_rank0))
     = [EvWrite "run_000003/mesh.000001"; EvWrite "run_000003/pressure.000001"]
  /\ StrMap.keys (files (world_of (Demo.run_save Demo.run_world_after_rank0)))
     = ["run_000003.mfem_root"; "run_000003/mesh.000000";
        "run_000003/mesh.000001"; "run_000003/pressure.000000";
        "run_000003/pressure.000001"]
  /\ exists manifest,
       StrMap.find "run_000003.mfem_root"
         (files (world_of (Demo.run_save (Demo.run_world 0)))) = Some manifest
       /\ contains (Demo.quoted "domains" ++ ": 2") manifest = true
       /\ contains (Demo.quoted "cycle" ++ ": 3") manifest = true
       /\ contains (Demo.quoted "pressure" ++ ": {") manifest = true
       /\ contains (Demo.quoted "comps" ++ ": " ++ Demo.quoted "1") manifest
          = true
       /\ exists top dsets main fields pressure tags
                 : @picojson.value Demo.collaborators,
            picojson.parse manifest = Some top
            /\ picojson.get "dsets" top = Some dsets
            /\ picojson.get "main" dsets = Some main
            /\ picojson.get "domains" main
               = Some (@picojson.number_ Demo.collaborators 2)
            /\ picojson.get "cycle" main
               = Some (@picojson.number_ Demo.collaborators 3)
            /\ picojson.get "fields" main = Some fields
            /\ picojson.get "pressure" fields = Some pressure
            /\ picojson.get "tags" pressure = Some tags
            /\ picojson.get "comps" tags = Some (picojson.string_ "1").
Proof.
  intros Hp Hm Hd dir entity.
  assert (Hdir : DataCollection.dir_name dc = dir) by reflexivity.
  split; [|split].
  - destruct (SaveMesh_run dc w a m Hp Hm) as (w' & E & L & _).
    rewrite E. cbn [world_of]. rewrite L, Hd.
    destruct (dir_events_created w dc Hd) as [F I].
    exists (dir_events w dc). unfold mesh_events. eexists.
    split; [reflexivity|]. split; [exact F|].
    intros Hc. apply I. unfold ranks_of. now rewrite Hp, Hm.
  - intros E gf. apply (SaveOneField_opens (E, gf) dc w).
  - split; [vm_compute; reflexivity|].
    split; [vm_compute; reflexivity|].
    split; [vm_compute; reflexivity|].
    eexists. split; [vm_compute; reflexivity|].
    split; [vm_compute; reflexivity|].
    split; [vm_compute; reflexivity|].
    split; [vm_compute; reflexivity|].
    split; [vm_compute; reflexivity|].
    eexists _, _, _, _, _, _.
    split; [apply some_value; vm_compute; reflexivity|].
    split; [apply some_value; vm_compute; reflexivity|].
    split; [apply some_value; vm_compute; reflexivity|].
    repeat split.
Qed.

Lemma naming_rule_witness :
  (exists pre post,
     log (world_of (DataCollection.SaveMesh (VisItDataCollection.base Demo.run_dc)
                      (Demo.run_world 0)))
     = (pre ++ EvWrite "run_000003/mesh.000000" :: post)%list
     /\ In (EvMkdir "run_000003") pre)
  /\ exists post,
       log (world_of (DataCollection.SaveOneField ("pressure", Some 2%nat)
                        (VisItDataCollection.base Demo.run_dc)
                        (Demo.run_world 0)))
       = EvWrite "run_000003/pressure.000000" :: post.
Proof.
  assert (Hp : DataCollection.mesh (VisItDataCollection.base Demo.run_dc)
               = Some 1%nat) by (vm_compute; reflexivity).
  assert (Hm : heap_find 1%nat (meshes (Demo.run_world 0))
               = Some (Demo.run_mesh 0)) by reflexivity.
  assert (Hd : dirs_fail (Demo.run_world 0) (VisItDataCollection.base Demo.run_dc)
               = false) by (vm_compute; reflexivity).
  destruct (naming_rule (VisItDataCollection.base Demo.run_dc)
              (Demo.run_world 0) 1%nat (Demo.run_mesh 0) Hp Hm Hd)
    as ((pre & post & L & _ & I) & F & _).
  split.
  - exists pre, post. split; [exact L|]. apply I. vm_compute. reflexivity.
  - destruct (F "pressure" (Some 2%nat)) as [post' L']. exists post'. exact L'.
Defined.

(* ================================================================= *)
(** * Further properties of the code *)

(** ** The helper string functions *)

Lemma scan_fill_zero n : forall s seen,
  scan_digits (fill n "0" ++ s) 0 seen
  = scan_digits s 0 (seen || negb (Nat.eqb n 0)).
Proof.
  induction n as [|n IH]; intros s seen.
  - cbn. now rewrite orb_false_r.
  - cbn [fill String.append scan_digits].
    change (is_digit "0") with true. change (digit_val "0") with 0. cbv iota.
    change (10 * 0 + 0) with 0. rewrite IH. cbn. now rewrite orb_true_r.
Qed.

Lemma put_int_nonneg i : 0 <= i -> put_int i = dec_of_nonneg i.
Proof. intros H. unfold put_int. destruct (Z.ltb_spec i 0); [lia | reflexivity]. Qed.

Lemma skip_ws_digit_head c s : is_digit c = true -> skip_ws (String c s) = String c s.
Proof. intros H. cbn. now rewrite is_digit_not_space. Qed.

Lemma digit_not_sign c : is_digit c = true -> c <> "-"%char /\ c <> "+"%char.
Proof. intros H. split; intros ->; discriminate H. Qed.

Lemma padded_head i d :
  0 <= i -> exists c s, to_padded_string i d = String c s /\ is_digit c = true.
Proof.
  intros H. unfold to_padded_string. rewrite put_int_nonneg by assumption.
  destruct (Z.to_nat d - String.length (dec_of_nonneg i))%nat as [|n].
  - cbn [fill String.append]. unfold dec_of_nonneg. apply dec_digits_nonempty.
  - cbn [fill String.append]. eexists _, _. split; reflexivity.
Qed.

Lemma to_int_unsigned c s :
  is_digit c = true ->
  to_int (String c s)
  = let '(v, seen) := scan_digits (String c s) 0 false in
    if seen then clamp_int v else 0.
Proof.
  intros H. unfold to_int. rewrite skip_ws_digit_head by assumption.
  destruct (digit_not_sign c H) as [H1 H2].
  replace (match String c s with
           | String "-" s' => (true, s')
           | String "+" s' => (false, s')
           | _ => (false, String c s)
           end) with (false, String c s).
  - reflexivity.
  - destruct c as [[] [] [] [] [] [] [] []]; try reflexivity; congruence.
Qed.

Lemma clamp_int_id z : int_range z -> clamp_int z = z.
Proof.
  unfold int_range, clamp_int. intros [H1 H2].
  destruct (Z.ltb_spec z INT_MIN); [lia|].
  destruct (Z.ltb_spec INT_MAX z); [lia | reflexivity].
Qed.

(** X1.  What [to_string] prints for an [int] is its decimal text with no
    blank in front, and [to_int] reads the number back. *)
Theorem to_string_reads_back (i : Z) :
  int_range i ->
  to_int (to_string i) = i
  /\ to_string i = (if i <? 0 then String "-" (dec_of_nonneg (- i))
                    else dec_of_nonneg i)
  /\ trim_leading (to_string i) = to_string i
  /\ (0 <= i -> all_chars is_digit (to_string i) = true).
Proof.
  intros H. split; [now apply to_int_to_string|].
  rewrite to_string_put_int. split; [reflexivity|]. split.
  - exact (to_string_put_int i).
  - intros Hi. rewrite put_int_nonneg by assumption.
    now apply dec_of_nonneg_all_digits.
Qed.

Lemma to_string_reads_back_witness : to_int (to_string (-2147483648)) = -2147483648.
Proof.
  assert (H : int_range (-2147483648)) by (unfold int_range, INT_MIN, INT_MAX; lia).
  exact (proj1 (to_string_reads_back (-2147483648) H)).
Defined.

(** X2.  [to_padded_string] never cuts a number: the result is the text
    that [operator<<] prints for the number behind a run of zeros, as
    long as the larger of the width and that text; and for a number that
    is not negative [to_int] reads it back whatever the width. *)
Theorem to_padded_string_never_cuts (i digits : Z) :
  0 <= i <= INT_MAX ->
  to_padded_string i digits
  = fill (Z.to_nat digits - String.length (to_string i)) "0" ++ to_string i
  /\ String.length (to_padded_string i digits)
     = Nat.max (Z.to_nat digits) (String.length (to_string i))
  /\ to_int (to_padded_string i digits) = i.
Proof.
  intros [H0 H1]. rewrite to_string_put_int. split; [reflexivity|]. split.
  - unfold to_padded_string. rewrite length_append, fill_length. lia.
  - destruct (padded_head i digits H0) as (c & s & E & Hc).
    rewrite E, to_int_unsigned by assumption. rewrite <- E.
    unfold to_padded_string. rewrite put_int_nonneg by assumption.
    rewrite scan_fill_zero.
    rewrite <- (append_nil_r (dec_of_nonneg i)).
    rewrite scan_dec_of_nonneg by assumption. cbn [scan_digits].
    apply clamp_int_id. unfold int_range, INT_MIN. lia.
Qed.

Lemma to_padded_string_never_cuts_witness :
  String.length (to_padded_string 1234567 6) = 7%nat
  /\ to_int (to_padded_string 1234567 6) = 1234567.
Proof.
  assert (H : 0 <= 1234567 <= INT_MAX) by (unfold INT_MAX; lia).
  destruct (to_padded_string_never_cuts 1234567 6 H) as (_ & L & R).
  split; [exact L | exact R].
Defined.

(** ** The map of strings *)

Lemma string_compare_refl s : String.compare s s = Eq.
Proof.
  induction s as [|c s IH]; [reflexivity|]. cbn.
  now rewrite ascii_compare_code, Z.compare_refl.
Qed.

Lemma string_compare_eq s1 s2 : String.compare s1 s2 = Eq <-> s1 = s2.
Proof.
  split; [apply String.compare_eq_iff | intros ->; apply string_compare_refl].
Qed.

Lemma string_compare_neq s1 s2 c :
  String.compare s1 s2 = c -> c <> Eq -> String.eqb s1 s2 = false.
Proof.
  intros H Hc. apply String.eqb_neq. intros ->.
  rewrite string_compare_refl in H. congruence.
Qed.

Lemma find_insert_same {V : Type} k (v : V) m :
  StrMap.find k (StrMap.insert k v m) = Some v.
Proof.
  induction m as [|[k' v'] m IH]; cbn.
  - now rewrite String.eqb_refl.
  - destruct (String.compare k k') eqn:E; cbn.
    + now rewrite String.eqb_refl.
    + now rewrite String.eqb_refl.
    + rewrite (string_compare_neq k k' Gt E) by discriminate. exact IH.
Qed.

Lemma find_insert_other {V : Type} k k' (v : V) m :
  k' <> k -> StrMap.find k' (StrMap.insert k v m) = StrMap.find k' m.
Proof.
  intros Hne. assert (Hb : String.eqb k' k = false) by now apply String.eqb_neq.
  induction m as [|[k1 v1] m IH]; cbn.
  - now rewrite Hb.
  - destruct (String.compare k k1) eqn:E; cbn.
    + apply string_compare_eq in E. subst k1. now rewrite Hb.
    + now rewrite Hb.
    + destruct (String.eqb k' k1); [reflexivity | exact IH].
Qed.

(** ** The registry of fields *)

Section Registry.

Context {C : Collaborators}.

Local Open Scope list_scope.

Import DataCollection.

Lemma RegisterField_inv nm gf dc w dc' w' :
  RegisterField nm gf dc w = Ok dc' w' ->
  dc' = set_field_map (StrMap.insert nm gf (field_map dc)) dc.
Proof.
  unfold RegisterField. intros H.
  apply bind_ok_inv in H. destruct H as (u & w1 & _ & H).
  now injection H as <- _.
Qed.

Lemma find_nulled k its :
  StrMap.find k (nulled its)
  = match StrMap.find k its with Some _ => Some None | None => None end.
Proof.
  induction its as [|[k' p] its IH]; cbn; [reflexivity|].
  destruct (String.eqb k k'); [reflexivity | exact IH].
Qed.

Lemma delete_fields_inv own its : forall w fm w',
  delete_fields own its w = Ok fm w' -> fm = nulled its.
Proof.
  induction its as [|[k p] its IH]; intros w fm w' H; cbn [delete_fields] in H.
  - now injection H as <- _.
  - apply bind_ok_inv in H. destruct H as (u & w1 & _ & H).
    apply bind_ok_inv in H. destruct H as (rest & w2 & H1 & H).
    injection H as <- _. cbn. f_equal. eapply IH; eassumption.
Qed.

Lemma DeleteData_result dc w dc' w' :
  DeleteData dc w = Ok dc' w' ->
  dc' = set_own_data false
          (set_field_map (nulled (field_map dc)) (set_mesh None dc)).
Proof.
  unfold DeleteData. intros H.
  apply bind_ok_inv in H. destruct H as (u & w1 & _ & H).
  apply bind_ok_inv in H. destruct H as (fm & w2 & H1 & H).
  apply delete_fields_inv in H1. subst fm. now injection H as <- _.
Qed.

End Registry.

(** X3.  [SetPrefixPath] stores a prefix that is empty or ends in a
    slash: a null pointer clears it, a text that is empty or ends in a
    slash is stored as it is, any other text gets one slash appended;
    nothing else of the collection changes, and setting the stored prefix
    again changes nothing. *)
Theorem SetPrefixPath_normalizes {C : Collaborators}
    (prefix : option string) (dc : DataCollection.t) :
  let dc' := DataCollection.SetPrefixPath prefix dc in
  let p' := DataCollection.prefix_path dc' in
  (p' = "" \/ last_char p' "x" = "/"%char)
  /\ match prefix with
     | None => p' = ""
     | Some p =>
         p' = (if string_empty p || Ascii.eqb (last_char p "/") "/"
               then p else p ++ "/")
     end
  /\ dc' = DataCollection.set_prefix_path p' dc
  /\ DataCollection.SetPrefixPath (Some p') dc' = dc'.
Proof.
  assert (Hlast : forall p d, last_char (p ++ "/") d = "/"%char).
  { induction p as [|c p IH]; intros d; [reflexivity|]. cbn. apply IH. }
  assert (Hsome : forall p, p <> "" -> forall d d', last_char p d = last_char p d').
  { intros [|c p] H d d'; [contradiction | reflexivity]. }
  cbv zeta. unfold DataCollection.SetPrefixPath.
  destruct prefix as [p|]; [|repeat split; now left].
  destruct (string_empty p) eqn:Ee; cbn [negb andb orb].
  - destruct p; [|discriminate]. repeat split. now left.
  - assert (Hp : p <> "") by (intros ->; discriminate).
    destruct (Ascii.eqb (last_char p "/") "/") eqn:El; cbn [negb].
    + cbn [DataCollection.prefix_path DataCollection.set_prefix_path].
      apply Ascii.eqb_eq in El. repeat split.
      * right. rewrite (Hsome p Hp "x"%char "/"%char). exact El.
      * rewrite Ee. cbn [negb andb].
        replace (Ascii.eqb (last_char p "/") "/") with true
          by (symmetry; now apply Ascii.eqb_eq).
        reflexivity.
    + cbn [DataCollection.prefix_path DataCollection.set_prefix_path].
      repeat split.
      * right. apply Hlast.
      * assert (He : string_empty (p ++ "/") = false) by (now destruct p).
        rewrite He, Hlast. reflexivity.
Qed.

(** X4.  After [RegisterField(name, gf)] the field map holds [gf] under
    [name]: [HasField(name)] is true and [GetField(name)] is [gf]; every
    other name is registered or not as before, with the handle it had;
    and nothing else of the collection changes.  On a name that is not
    registered [GetField] gives the null pointer. *)
Theorem RegisterField_then_GetField {C : Collaborators}
    (nm : string) (gf : option addr) (dc dc' : DataCollection.t) (w w' : World) :
  DataCollection.RegisterField nm gf dc w = Ok dc' w' ->
  DataCollection.HasField nm dc' = true
  /\ DataCollection.GetField nm dc' = gf
  /\ (forall other, other <> nm ->
        DataCollection.HasField other dc' = DataCollection.HasField other dc
        /\ DataCollection.GetField other dc' = DataCollection.GetField other dc)
  /\ (forall other, DataCollection.HasField other dc = false ->
        DataCollection.GetField other dc = None)
  /\ dc' = DataCollection.set_field_map
             (StrMap.insert nm gf (DataCollection.field_map dc)) dc.
Proof.
  intros H. apply RegisterField_inv in H. subst dc'.
  unfold DataCollection.HasField, DataCollection.GetField,
    DataCollection.HasField, DataCollection.field_at.
  cbn [DataCollection.field_map DataCollection.set_field_map].
  rewrite find_insert_same. repeat split.
  - now rewrite find_insert_other.
  - now rewrite find_insert_other.
  - intros other Ho. destruct (StrMap.find other (DataCollection.field_map dc));
      [discriminate | reflexivity].
Qed.

Lemma RegisterField_then_GetField_witness :
  DataCollection.GetField "pressure" (VisItDataCollection.base Demo.run_dc)
  = Some 2%nat.
Proof.
  set (dc0 := DataCollection.create (C := Demo.collaborators) "run").
  assert (E : DataCollection.RegisterField "pressure" (Some 2%nat) dc0
                (Demo.run_world 0)
              = Ok (DataCollection.set_field_map
                      (StrMap.insert "pressure" (Some 2%nat)
                         (DataCollection.field_map dc0)) dc0)
                  (Demo.run_world 0)) by reflexivity.
  destruct (RegisterField_then_GetField _ _ _ _ _ _ E) as (_ & G & _).
  vm_compute in G. vm_compute. exact G.
Defined.

(** X5.  [DeleteData] keeps the names of the fields and sets every handle
    to null: afterwards the same names are registered, [GetField] gives
    the null pointer for each, the mesh pointer is null and [own_data] is
    false; [DeleteAll] removes the names as well.  Name, prefix, cycle,
    time, rank data and error flag stay as they were. *)
Theorem DeleteData_keeps_names {C : Collaborators}
    (dc dc' : DataCollection.t) (w w' : World) :
  DataCollection.DeleteData dc w = Ok dc' w' ->
  StrMap.keys (DataCollection.field_map dc')
  = StrMap.keys (DataCollection.field_map dc)
  /\ (forall k, DataCollection.HasField k dc' = DataCollection.HasField k dc)
  /\ (forall k, DataCollection.GetField k dc' = None)
  /\ DataCollection.mesh dc' = None
  /\ DataCollection.own_data dc' = false
  /\ dc' = DataCollection.set_own_data false
             (DataCollection.set_field_map
                (nulled (DataCollection.field_map dc))
                (DataCollection.set_mesh None dc))
  /\ (forall dc'' w'',
        DataCollection.DeleteAll dc w = Ok dc'' w'' ->
        DataCollection.field_map dc'' = StrMap.empty
        /\ forall k, DataCollection.HasField k dc'' = false).
Proof.
  intros H. apply DeleteData_result in H. subst dc'.
  cbn [DataCollection.field_map DataCollection.set_field_map
       DataCollection.set_own_data DataCollection.set_mesh
       DataCollection.mesh DataCollection.own_data].
  unfold DataCollection.HasField, DataCollection.GetField,
    DataCollection.HasField, DataCollection.field_at.
  cbn [DataCollection.field_map DataCollection.set_field_map
       DataCollection.set_own_data DataCollection.set_mesh].
  split; [|split; [|split]].
  - unfold StrMap.keys, nulled. rewrite map_map. reflexivity.
  - intros k. rewrite find_nulled.
    now destruct (StrMap.find k (DataCollection.field_map dc)).
  - intros k. rewrite find_nulled.
    now destruct (StrMap.find k (DataCollection.field_map dc)).
  - repeat split.
    + apply DeleteAll_inv in H. now subst dc''.
    + intros k. apply DeleteAll_inv in H. now subst dc''.
Qed.

Lemma DeleteData_keeps_names_witness :
  returns (DataCollection.DeleteData (VisItDataCollection.base Demo.run_dc)
             (Demo.run_world 0))
    (fun dc' _ => StrMap.keys (DataCollection.field_map dc') = ["pressure"]).
Proof.
  destruct (DataCollection.DeleteData (VisItDataCollection.base Demo.run_dc)
              (Demo.run_world 0)) as [dc' w'|w'] eqn:E.
  - destruct (DeleteData_keeps_names _ _ _ _ E) as (K & _).
    cbn [returns]. rewrite K. vm_compute. reflexivity.
  - exfalso.
    destruct (DeleteData_borrowed (VisItDataCollection.base Demo.run_dc)
                (Demo.run_world 0) eq_refl) as [fm E'].
    rewrite E' in E. discriminate E.
Defined.

(** ** Releasing owned data *)

Section Release.

Context {C : Collaborators}.

Local Open Scope list_scope.

Import DataCollection.

Lemma heap_find_remove_same {A : Type} a (h : list (addr * A)) :
  heap_find a (heap_remove a h) = None.
Proof.
  induction h as [|[b x] h IH]; cbn; [reflexivity|].
  destruct (Nat.eqb a b) eqn:E; [exact IH|]. cbn. now rewrite E.
Qed.

Lemma heap_find_remove_other {A : Type} a b (h : list (addr * A)) :
  a <> b -> heap_find b (heap_remove a h) = heap_find b h.
Proof.
  intros Hne. induction h as [|[c x] h IH]; cbn; [reflexivity|].
  destruct (Nat.eqb a c) eqn:E.
  - apply Nat.eqb_eq in E. subst c.
    destruct (Nat.eqb b a) eqn:E'; [|exact IH].
    apply Nat.eqb_eq in E'. congruence.
  - cbn. now rewrite IH.
Qed.

Lemma delete_field_live a g w :
  heap_find a (gfuncs w) = Some g ->
  delete_field (Some a) w
  = Ok tt (set_gfuncs (heap_remove a (gfuncs w)) (add_event (EvDeleteField a) w)).
Proof. intros H. unfold delete_field. now rewrite H. Qed.

Lemma delete_mesh_live a m w :
  heap_find a (meshes w) = Some m ->
  delete_mesh (Some a) w
  = Ok tt (set_meshes (heap_remove a (meshes w)) (add_event (EvDeleteMesh a) w)).
Proof. intros H. unfold delete_mesh. now rewrite H. Qed.

(** The loop that deletes the handles of a field map. *)
Lemma delete_fields_owned its : forall w,
  NoDup (field_addrs its) ->
  (forall a, In a (field_addrs its) -> heap_find a (gfuncs w) <> None) ->
  exists w',
    delete_fields true its w = Ok (nulled its) w'
    /\ destroy_fields its w = Ok tt w'
    /\ log w' = log w ++ map EvDeleteField (field_addrs its)
    /\ meshes w' = meshes w
    /\ files w' = files w
    /\ (forall a, In a (field_addrs its) -> heap_find a (gfuncs w') = None)
    /\ (forall b, ~ In b (field_addrs its) ->
          heap_find b (gfuncs w') = heap_find b (gfuncs w)).
Proof.
  induction its as [|[k p] its IH]; intros w Hnd Hlive.
  - exists w. cbn. rewrite app_nil_r. repeat split; tauto.
  - cbn [delete_fields destroy_fields]. destruct p as [a|].
    + cbn [field_addrs flat_map snd app] in Hnd, Hlive.
      change (flat_map _ its) with (field_addrs its) in Hnd, Hlive.
      inversion Hnd as [|? ? Hnotin Hnd']; subst.
      destruct (heap_find a (gfuncs w)) as [g|] eqn:Eg.
      2:{ exfalso. apply (Hlive a); [now left | exact Eg]. }
      pose proof (delete_field_live a g w Eg) as Del.
      set (w1 := set_gfuncs (heap_remove a (gfuncs w))
                   (add_event (EvDeleteField a) w)) in *.
      destruct (IH w1 Hnd') as (w' & E & D & L & M & F & G1 & G2).
      { intros b Hb. cbn [w1 gfuncs set_gfuncs].
        rewrite heap_find_remove_other; [apply Hlive; now right|].
        intros ->. contradiction. }
      exists w'.
      split; [rewrite (bind_run _ _ _ _ _ Del), (bind_run _ _ _ _ _ E);
              reflexivity|].
      split; [rewrite (bind_run _ _ _ _ _ Del); exact D|].
      split; [|split; [exact M|split; [exact F|split]]].
      * rewrite L. cbn [w1 log set_gfuncs add_event field_addrs flat_map snd map app].
        now rewrite <- app_assoc.
      * intros b [->|Hb]; [|now apply G1].
        rewrite (G2 b Hnotin). cbn [w1 gfuncs set_gfuncs].
        apply heap_find_remove_same.
      * intros b Hb. cbn [field_addrs flat_map snd app] in Hb.
        change (flat_map _ its) with (field_addrs its) in Hb.
        rewrite G2 by (intros ?; apply Hb; now right).
        cbn [w1 gfuncs set_gfuncs]. apply heap_find_remove_other.
        intros ->. apply Hb. now left.
    + cbn [field_addrs flat_map snd app] in Hnd, Hlive.
      change (flat_map _ its) with (field_addrs its) in Hnd, Hlive.
      destruct (IH w Hnd Hlive) as (w' & E & D & L & M & F & G1 & G2).
      assert (Del : delete_field None w = Ok tt w) by reflexivity.
      exists w'.
      split; [rewrite (bind_run _ _ _ _ _ Del), (bind_run _ _ _ _ _ E);
              reflexivity|].
      split; [rewrite (bind_run _ _ _ _ _ Del); exact D|].
      repeat split; assumption.
Qed.

End Release.

(** X6.  On owned data whose handles are live and pairwise different,
    [DeleteData] and the destructor delete the mesh and then every field,
    each exactly once, in the order of the names; after [DeleteData] the
    objects are gone from the heap, and the destructor of the emptied
    collection deletes nothing more. *)
Theorem owned_data_released_once {C : Collaborators}
    (dc : DataCollection.t) (w : World) (am : addr) (m : Mesh) :
  DataCollection.own_data dc = true ->
  DataCollection.mesh dc = Some am ->
  heap_find am (meshes w) = Some m ->
  NoDup (field_addrs (DataCollection.field_map dc)) ->
  (forall a, In a (field_addrs (DataCollection.field_map dc)) ->
     heap_find a (gfuncs w) <> None) ->
  let deletions :=
    EvDeleteMesh am
    :: map EvDeleteField (field_addrs (DataCollection.field_map dc)) in
  (exists dc' w',
     DataCollection.DeleteData dc w = Ok dc' w'
     /\ log w' = (log w ++ deletions)%list
     /\ heap_find am (meshes w') = None
     /\ (forall a, In a (field_addrs (DataCollection.field_map dc)) ->
           heap_find a (gfuncs w') = None)
     /\ field_addrs (DataCollection.field_map dc') = []
     /\ DataCollection.destroy dc' w' = Ok tt w')
  /\ (exists w',
        DataCollection.destroy dc w = Ok tt w'
        /\ log w' = (log w ++ deletions)%list).
Proof.
  intros Ho Hp Hm Hnd Hlive deletions.
  pose proof (delete_mesh_live am m w Hm) as Dm.
  set (w1 := set_meshes (heap_remove am (meshes w))
               (add_event (EvDeleteMesh am) w)) in *.
  destruct (delete_fields_owned (DataCollection.field_map dc) w1 Hnd Hlive)
    as (w' & E & D & L & M & F & G1 & G2).
  split.
  - eexists _, w'. split.
    + unfold DataCollection.DeleteData. rewrite Ho, Hp.
      rewrite (bind_run _ _ _ _ _ Dm).
      cbn [DataCollection.own_data DataCollection.set_mesh
           DataCollection.field_map].
      rewrite Ho. rewrite (bind_run _ _ _ _ _ E). reflexivity.
    + split; [|split; [|split; [exact G1|split]]].
      * rewrite L. unfold deletions. cbn [w1 log set_meshes add_event].
        now rewrite <- app_assoc.
      * rewrite M. cbn [w1 meshes set_meshes]. apply heap_find_remove_same.
      * cbn [DataCollection.field_map DataCollection.set_field_map
             DataCollection.set_own_data].
        clear. unfold field_addrs, nulled.
        induction (DataCollection.field_map dc) as [|it its IH];
          [reflexivity | exact IH].
      * reflexivity.
  - exists w'. split.
    + unfold DataCollection.destroy. rewrite Ho, Hp.
      rewrite (bind_run _ _ _ _ _ Dm). exact D.
    + rewrite L. unfold deletions. cbn [w1 log set_meshes add_event].
      now rewrite <- app_assoc.
Qed.


Lemma owned_data_released_once_witness :
  exists w',
    DataCollection.destroy
      (DataCollection.set_own_data true (VisItDataCollection.base Demo.run_dc))
      (Demo.run_world 0) = Ok tt w'
    /\ log w' = [EvDeleteMesh 1%nat; EvDeleteField 2%nat].
Proof.
  set (dc := DataCollection.set_own_data true
               (VisItDataCollection.base Demo.run_dc)).
  assert (A : field_addrs (DataCollection.field_map dc) = [2%nat])
    by (vm_compute; reflexivity).
  assert (H1 : DataCollection.own_data dc = true) by reflexivity.
  assert (H2 : DataCollection.mesh dc = Some 1%nat)
    by (vm_compute; reflexivity).
  assert (H3 : heap_find 1%nat (meshes (Demo.run_world 0))
               = Some (Demo.run_mesh 0)) by reflexivity.
  assert (H4 : NoDup (field_addrs (DataCollection.field_map dc))).
  { rewrite A. constructor; [intros []|constructor]. }
  assert (H5 : forall a, In a (field_addrs (DataCollection.field_map dc)) ->
                 heap_find a (gfuncs (Demo.run_world 0)) <> None).
  { rewrite A. intros a [<-|[]]. discriminate. }
  destruct (owned_data_released_once dc (Demo.run_world 0) 1%nat
              (Demo.run_mesh 0) H1 H2 H3 H4 H5) as (_ & w' & E & L).
  exists w'. split; [exact E|]. rewrite L, A. reflexivity.
Defined.


(** ** The root file of a VisIt save, and the save of one field *)

Section RootFile.

Context {C : Collaborators}.

Local Open Scope list_scope.

Import DataCollection.

Lemma find_in {V : Type} k (v : V) (m : StrMap.t V) :
  StrMap.find k m = Some v -> In (k, v) m.
Proof.
  induction m as [|[k' v'] m IH]; cbn [StrMap.find]; [discriminate|].
  destruct (String.eqb k k') eqn:E.
  - intros [= <-]. apply String.eqb_eq in E. subst. now left.
  - intros H. right. now apply IH.
Qed.

Lemma root_name_flag f (dc : VisItDataCollection.t) :
  VisItDataCollection.root_name
    (VisItDataCollection.set_base (flag f (VisItDataCollection.base dc)) dc)
  = VisItDataCollection.root_name dc.
Proof. destruct f; reflexivity. Qed.

Lemma root_string_flag f (dc : VisItDataCollection.t) :
  VisItDataCollection.GetVisItRootString
    (VisItDataCollection.set_base (flag f (VisItDataCollection.base dc)) dc)
  = VisItDataCollection.GetVisItRootString dc.
Proof. destruct f; reflexivity. Qed.

Lemma myid_flag f (b : DataCollection.t) : myid (flag f b) = myid b.
Proof. destruct f; reflexivity. Qed.

End RootFile.

(** X8.  A VisIt [Save] of a collection whose mesh and fields are live
    returns.  On a rank other than 0 it is the [Save] of the base class
    and nothing more.  On rank 0 the root file is opened after it, also
    when the base [Save] has set the error flag; its name and its text
    are those of the collection as it was before the call; a stream that
    did not fail leaves the text in the file and the error flag as the
    base [Save] left it, a failed stream sets [WRITE_ERROR] and is
    followed by a warning. *)
Theorem visit_save_root_file {C : Collaborators}
    (dc : VisItDataCollection.t) (w : World) :
  saveable (VisItDataCollection.base dc) w ->
  let root := VisItDataCollection.root_name dc in
  exists b w1 dc' w',
    DataCollection.Save (VisItDataCollection.base dc) w = Ok b w1
    /\ VisItDataCollection.Save dc w = Ok dc' w'
    /\ (DataCollection.myid (VisItDataCollection.base dc) <> 0 ->
        dc' = VisItDataCollection.set_base b dc /\ w' = w1)
    /\ (DataCollection.myid (VisItDataCollection.base dc) = 0 ->
        write_fails w root = false ->
        dc' = VisItDataCollection.set_base b dc
        /\ log w' = (log w1 ++ [EvWrite root])%list
        /\ files w'
           = StrMap.insert root (VisItDataCollection.GetVisItRootString dc)
               (files w1))
    /\ (DataCollection.myid (VisItDataCollection.base dc) = 0 ->
        write_fails w root = true ->
        DataCollection.error (VisItDataCollection.base dc') = WRITE_ERROR
        /\ log w'
           = (log w1
              ++ [EvWrite root;
                  EvWarning ("Error writting VisIt Root file: " ++ root)])%list
        /\ files w' = files w1).
Proof.
  intros Hs root.
  destruct (Save_run (VisItDataCollection.base dc) w Hs) as (w1 & E & _ & S).
  set (f := dirs_fail w (VisItDataCollection.base dc)
            || write_fails w (DataCollection.mesh_name (VisItDataCollection.base dc))
            || negb (is_error (DataCollection.error (VisItDataCollection.base dc)))
               && existsb (field_fails w (VisItDataCollection.base dc))
                    (DataCollection.field_map (VisItDataCollection.base dc)))
    in *.
  pose proof (same_heap_write_fails _ _ S) as Hw.
  exists (flag f (VisItDataCollection.base dc)), w1.
  unfold VisItDataCollection.Save. rewrite (bind_run _ _ _ _ _ E).
  rewrite E. clear E.
  unfold VisItDataCollection.SaveRootFile.
  rewrite root_name_flag, root_string_flag. fold root.
  cbn [VisItDataCollection.base VisItDataCollection.set_base].
  rewrite myid_flag.
  destruct (DataCollection.myid (VisItDataCollection.base dc) =? 0) eqn:Eid.
  - apply Z.eqb_eq in Eid.
    unfold open_out, emit.
    rewrite (bind_run _ _ w1 tt (add_event (EvWrite root) w1) eq_refl).
    unfold bind at 1. unfold stream_out.
    change (write_fails (add_event (EvWrite root) w1) root)
      with (write_fails w1 root).
    rewrite Hw.
    destruct (write_fails w root) eqn:Ef.
    + eexists _, _. split; [reflexivity|]. split; [reflexivity|].
      split; [intros H; now elim H|]. split; [discriminate|].
      intros _ _. cbn. rewrite <- app_assoc. repeat split.
    + eexists _, _. split; [reflexivity|]. split; [reflexivity|].
      split; [intros H; now elim H|]. split; [|discriminate].
      intros _ _. cbn. repeat split.
  - apply Z.eqb_neq in Eid.
    eexists _, _. split; [reflexivity|]. split; [reflexivity|].
    split; [intros _; split; reflexivity|].
    split; intros H; now elim Eid.
Qed.

Lemma visit_save_root_file_witness :
  StrMap.find "run_000003.mfem_root"
    (files (world_of (VisItDataCollection.Save Demo.run_dc (Demo.run_world 0))))
  = Some (VisItDataCollection.GetVisItRootString Demo.run_dc).
Proof.
  assert (Hs : saveable (VisItDataCollection.base Demo.run_dc)
                 (Demo.run_world 0)).
  { split.
    - exists 1%nat, (Demo.run_mesh 0). split; vm_compute; reflexivity.
    - repeat constructor. exists 2%nat, 1. split; vm_compute; reflexivity. }
  destruct (visit_save_root_file Demo.run_dc (Demo.run_world 0) Hs)
    as (b & w1 & dc' & w' & _ & E & _ & H & _).
  rewrite E. cbn [world_of].
  destruct H as (_ & _ & F); [vm_compute; reflexivity ..|].
  rewrite F. apply find_insert_same.
Defined.

(** X9.  [SaveField] of a name that is not registered does nothing.  Of
    a registered name whose field is live it opens the file of that
    field and no other, creates no directory, and does so whatever the
    error flag is; a failed stream sets [WRITE_ERROR] and is followed by
    a warning, and nothing else of the collection changes. *)
Theorem SaveField_writes_one_file {C : Collaborators}
    (nm : string) (dc : DataCollection.t) (w : World) :
  fields_live (DataCollection.field_map dc) w ->
  (DataCollection.HasField nm dc = false ->
   DataCollection.SaveField nm dc w = Ok dc w)
  /\ (DataCollection.HasField nm dc = true ->
      let f := DataCollection.file_name nm dc in
      exists w',
        DataCollection.SaveField nm dc w
        = Ok (if write_fails w f
              then DataCollection.set_error WRITE_ERROR dc else dc) w'
        /\ log w'
           = (log w ++ EvWrite f
              :: (if write_fails w f
                  then [EvWarning ("Error writting field to file: " ++ nm)]
                  else []))%list
        /\ same_heap w w').
Proof.
  intros Hl. unfold DataCollection.SaveField, DataCollection.HasField.
  destruct (StrMap.find nm (DataCollection.field_map dc)) as [p|] eqn:E.
  - split; [discriminate|]. intros _.
    pose proof (find_in _ _ _ E) as Hin.
    unfold fields_live in Hl.
    pose proof (proj1 (Forall_forall _ _) Hl _ Hin) as Hp.
    destruct (SaveOneField_run (nm, p) dc w Hp) as (w' & R & L & S).
    exists w'. split; [exact R|]. split; [exact L | exact S].
  - split; [reflexivity | discriminate].
Qed.

Lemma SaveField_writes_one_file_witness :
  log (world_of (DataCollection.SaveField "pressure"
                   (VisItDataCollection.base Demo.run_dc) (Demo.run_world 0)))
  = [EvWrite "run_000003/pressure.000000"]
  /\ log (world_of (DataCollection.SaveField "density"
                      (VisItDataCollection.base Demo.run_dc) (Demo.run_world 0)))
     = [].
Proof.
  assert (Hl : fields_live
                 (DataCollection.field_map (VisItDataCollection.base Demo.run_dc))
                 (Demo.run_world 0)).
  { repeat constructor. exists 2%nat, 1. split; vm_compute; reflexivity. }
  destruct (SaveField_writes_one_file "pressure"
              (VisItDataCollection.base Demo.run_dc) (Demo.run_world 0) Hl)
    as (_ & H).
  destruct (SaveField_writes_one_file "density"
              (VisItDataCollection.base Demo.run_dc) (Demo.run_world 0) Hl)
    as (H' & _).
  split.
  - destruct H as (w' & E & L & _); [vm_compute; reflexivity|].
    rewrite E. cbn [world_of]. rewrite L. vm_compute. reflexivity.
  - rewrite H' by (vm_compute; reflexivity). reflexivity.
Defined.

(** ** A load without a usable root file *)

Section NoRootFile.

Context {C : Collaborators}.

Local Open Scope list_scope.

Import DataCollection.

Lemma Load_root_failed c (dc dc0 : VisItDataCollection.t) w w0 msg :
  VisItDataCollection.DeleteAll dc w = Ok dc0 w0 ->
  let dcc := VisItDataCollection.on_base (set_cycle c) dc0 in
  let root := VisItDataCollection.root_name dcc in
  VisItDataCollection.LoadVisItRootFile root dcc w0
  = Ok (VisItDataCollection.on_base (set_error READ_ERROR) dcc)
       (add_event (EvWarning msg) (add_event (EvRead root) w0)) ->
  VisItDataCollection.Load c dc w
  = Ok (VisItDataCollection.on_base (set_error READ_ERROR) dcc)
       (add_event (EvWarning msg) (add_event (EvRead root) w0)).
Proof.
  intros H0 dcc root H1. unfold VisItDataCollection.Load.
  rewrite (bind_run _ _ _ _ _ H0). fold dcc. fold root.
  rewrite (bind_run _ _ _ _ _ H1).
  cbn [VisItDataCollection.base VisItDataCollection.on_base
       VisItDataCollection.set_base error set_error is_error negb].
  repeat (rewrite bind_ret;
          cbn [VisItDataCollection.base VisItDataCollection.on_base
               VisItDataCollection.set_base error set_error is_error negb]).
  rewrite VisIt_DeleteAll_borrowed.
  - pose proof (VisIt_DeleteAll_inv _ _ _ _ H0) as ->. reflexivity.
  - pose proof (VisIt_DeleteAll_inv _ _ _ _ H0) as ->. reflexivity.
Qed.

End NoRootFile.

(** X10.  A [Load] whose root file cannot be opened, is empty, or holds a
    text that is not JSON sets [READ_ERROR] and returns after that one
    read and one warning: neither the mesh file nor a field file is
    opened.  The collection is left empty and not owning, with the
    requested cycle; its name, prefix, time, rank data and the VisIt
    dimensions stay as they were. *)
Theorem load_without_root_file {C : Collaborators}
    (c : Z) (dc dc0 : VisItDataCollection.t) (w w0 : World) :
  VisItDataCollection.DeleteAll dc w = Ok dc0 w0 ->
  let root :=
    VisItDataCollection.root_name
      (VisItDataCollection.on_base (DataCollection.set_cycle c) dc) in
  let unreadable :=
    match StrMap.find root (files w0) with
    | None | Some EmptyString => true
    | Some _ => false
    end in
  let not_json :=
    match StrMap.find root (files w0) with
    | Some (String a text) =>
        match picojson.parse (String a text) with
        | None => true
        | Some _ => false
        end
    | _ => false
    end in
  unreadable || not_json = true ->
  exists w',
    VisItDataCollection.Load c dc w
    = Ok (VisItDataCollection.on_base (DataCollection.set_error READ_ERROR)
            (VisItDataCollection.on_base (DataCollection.set_cycle c)
               (visit_emptied dc))) w'
    /\ log w'
       = (log w0
          ++ [EvRead root;
              EvWarning (if unreadable
                         then "Error reading the VisIt Root file: " ++ root
                         else "Unable to parse visit root data.")])%list
    /\ files w' = files w0 /\ meshes w' = meshes w0 /\ gfuncs w' = gfuncs w0.
Proof.
  intros H0 root unreadable not_json H.
  pose proof (VisIt_DeleteAll_inv _ _ _ _ H0) as Hdc0.
  assert (Hroot : VisItDataCollection.root_name
                    (VisItDataCollection.on_base (DataCollection.set_cycle c) dc0)
                  = root) by (rewrite Hdc0; reflexivity).
  eexists. split.
  - rewrite <- Hdc0.
    apply (Load_root_failed c dc dc0 w w0
             (if unreadable
              then "Error reading the VisIt Root file: " ++ root
              else "Unable to parse visit root data.") H0).
    rewrite Hroot. unfold VisItDataCollection.LoadVisItRootFile, open_in.
    unfold bind at 1. cbv beta iota.
    subst unreadable not_json.
    destruct (StrMap.find root (files w0)) as [[|a text]|].
    + reflexivity.
    + cbn [orb] in H. unfold VisItDataCollection.ParseVisItRootString.
      destruct (picojson.parse (String a text)); [discriminate H|].
      reflexivity.
    + reflexivity.
  - cbn [log add_event files meshes gfuncs]. rewrite <- app_assoc.
    rewrite Hroot. repeat split.
Qed.

Lemma load_without_root_file_witness :
  exists w',
    VisItDataCollection.Load 3 (VisItDataCollection.create "run")
      (Demo.world [] [])
    = Ok (VisItDataCollection.on_base (DataCollection.set_error READ_ERROR)
            (VisItDataCollection.on_base (DataCollection.set_cycle 3)
               (visit_emptied (VisItDataCollection.create "run")))) w'
    /\ log w'
       = [EvRead "run_000003.mfem_root";
          EvWarning "Error reading the VisIt Root file: run_000003.mfem_root"].
Proof.
  destruct (load_without_root_file 3 (VisItDataCollection.create "run")
              (visit_emptied (VisItDataCollection.create "run"))
              (Demo.world [] []) (Demo.world [] []))
    as (w' & E & L & _).
  - apply VisIt_DeleteAll_borrowed. reflexivity.
  - vm_compute. reflexivity.
  - exists w'. split; [exact E|]. rewrite L. vm_compute. reflexivity.
Defined.

(** ** The order of the names *)

Lemma string_compare_gt_lt a b :
  String.compare a b = Gt <-> String.compare b a = Lt.
Proof.
  rewrite (String.compare_antisym b a).
  destruct (String.compare a b); cbn; split; congruence.
Qed.

Lemma string_compare_lt_trans a b c :
  String.compare a b = Lt -> String.compare b c = Lt ->
  String.compare a c = Lt.
Proof.
  exact (@RelationClasses.StrictOrder_Transitive _ _
           String_as_OT.lt_strorder a b c).
Qed.

Lemma insert_sorted_from {V : Type} k (v : V) : forall m k0,
  String.compare k0 k = Lt -> StrMap.sorted_from k0 m ->
  StrMap.sorted_from k0 (StrMap.insert k v m).
Proof.
  induction m as [|[k' v'] m IH]; intros k0 H0 Hs.
  - cbn. now split.
  - cbn [StrMap.insert]. destruct Hs as [H1 Hs].
    destruct (String.compare k k') eqn:E.
    + apply string_compare_eq in E. subst k'. cbn. now split.
    + cbn. repeat split; assumption.
    + cbn [StrMap.sorted_from]. split; [exact H1|].
      apply IH; [now apply string_compare_gt_lt | exact Hs].
Qed.

Lemma insert_sorted {V : Type} k (v : V) (m : StrMap.t V) :
  StrMap.sorted m -> StrMap.sorted (StrMap.insert k v m).
Proof.
  destruct m as [|[k' v'] m]; intros Hs; [exact I|].
  cbn [StrMap.insert]. destruct (String.compare k k') eqn:E.
  - apply string_compare_eq in E. subst k'. exact Hs.
  - cbn. now split.
  - cbn [StrMap.sorted]. apply insert_sorted_from;
      [now apply string_compare_gt_lt | exact Hs].
Qed.

Ltac compare_facts :=
  repeat match goal with
  | H : String.compare ?a ?b = ?c |- context [String.compare ?a ?b] =>
      rewrite H
  end.

Ltac insert_steps :=
  repeat (cbn [StrMap.insert]; compare_facts; cbv iota).

Lemma string_compare_lt_gt a b :
  String.compare a b = Lt -> String.compare b a = Gt.
Proof. intros H. now apply string_compare_gt_lt. Qed.

Lemma string_compare_gt_lt' a b :
  String.compare a b = Gt -> String.compare b a = Lt.
Proof. intros H. now apply string_compare_gt_lt. Qed.

Lemma insert_insert {V : Type} k1 k2 (v1 v2 : V) : forall m,
  k1 <> k2 ->
  StrMap.insert k1 v1 (StrMap.insert k2 v2 m)
  = StrMap.insert k2 v2 (StrMap.insert k1 v1 m).
Proof.
  intros m Hne.
  assert (H12 : String.compare k1 k2 <> Eq)
    by (intros H; now apply string_compare_eq in H).
  induction m as [|[k v] m IH].
  - destruct (String.compare k1 k2) eqn:E; [congruence| |].
    + pose proof (string_compare_lt_gt _ _ E). now insert_steps.
    + pose proof (string_compare_gt_lt' _ _ E). now insert_steps.
  - destruct (String.compare k1 k) eqn:E1;
      destruct (String.compare k2 k) eqn:E2.
    + apply string_compare_eq in E1, E2. congruence.
    + apply string_compare_eq in E1. subst k.
      pose proof (string_compare_lt_gt _ _ E2).
      pose proof (string_compare_refl k1). now insert_steps.
    + apply string_compare_eq in E1. subst k.
      pose proof (string_compare_refl k1). now insert_steps.
    + apply string_compare_eq in E2. subst k.
      pose proof (string_compare_lt_gt _ _ E1).
      pose proof (string_compare_refl k2). now insert_steps.
    + destruct (String.compare k1 k2) eqn:E; [congruence| |].
      * pose proof (string_compare_lt_gt _ _ E). now insert_steps.
      * pose proof (string_compare_gt_lt' _ _ E). now insert_steps.
    + pose proof (string_compare_gt_lt' _ _ E2) as E2'.
      pose proof (string_compare_lt_trans _ _ _ E1 E2') as E.
      pose proof (string_compare_lt_gt _ _ E). now insert_steps.
    + apply string_compare_eq in E2. subst k.
      pose proof (string_compare_refl k2). now insert_steps.
    + pose proof (string_compare_gt_lt' _ _ E1) as E1'.
      pose proof (string_compare_lt_trans _ _ _ E2 E1') as E.
      pose proof (string_compare_lt_gt _ _ E). now insert_steps.
    + insert_steps. now rewrite IH.
Qed.

(** X11.  The field map is a map ordered by name: [RegisterField] keeps
    the names in strictly increasing order, whatever the order of the
    calls, and registering two different names in either order gives the
    same collection. *)
Theorem registration_order_irrelevant {C : Collaborators}
    (nm1 nm2 : string) (gf1 gf2 : option addr)
    (dc dc1 dc12 dc2 dc21 : DataCollection.t) (w w1 w12 w2 w21 : World) :
  nm1 <> nm2 ->
  DataCollection.RegisterField nm1 gf1 dc w = Ok dc1 w1 ->
  DataCollection.RegisterField nm2 gf2 dc1 w1 = Ok dc12 w12 ->
  DataCollection.RegisterField nm2 gf2 dc w = Ok dc2 w2 ->
  DataCollection.RegisterField nm1 gf1 dc2 w2 = Ok dc21 w21 ->
  dc12 = dc21
  /\ (StrMap.sorted (DataCollection.field_map dc) ->
      StrMap.sorted (DataCollection.field_map dc1)
      /\ StrMap.sorted (DataCollection.field_map dc12)).
Proof.
  intros Hne H1 H12 H2 H21.
  apply RegisterField_inv in H1, H12, H2, H21. subst.
  cbn [DataCollection.field_map DataCollection.set_field_map].
  split.
  - unfold DataCollection.set_field_map. cbn.
    now rewrite (insert_insert nm1 nm2 gf1 gf2).
  - intros Hs. split; [|apply insert_sorted]; now apply insert_sorted.
Qed.

Lemma registration_order_irrelevant_witness :
  StrMap.keys
    (DataCollection.field_map
       (DataCollection.set_field_map
          (StrMap.insert "density" (Some 3%nat)
             (StrMap.insert "pressure" (Some 2%nat) StrMap.empty))
          (DataCollection.create (C := Demo.collaborators) "run")))
  = ["density"; "pressure"]
  /\ StrMap.sorted
       (StrMap.insert "density" (Some 3%nat)
          (StrMap.insert "pressure" (Some 2%nat) StrMap.empty)).
Proof.
  set (dc := DataCollection.create (C := Demo.collaborators) "run").
  set (dc1 := DataCollection.set_field_map
                (StrMap.insert "pressure" (Some 2%nat) StrMap.empty) dc).
  set (dc2 := DataCollection.set_field_map
                (StrMap.insert "density" (Some 3%nat) StrMap.empty) dc).
  set (dc12 := DataCollection.set_field_map
                 (StrMap.insert "density" (Some 3%nat)
                    (StrMap.insert "pressure" (Some 2%nat) StrMap.empty)) dc).
  set (dc21 := DataCollection.set_field_map
                 (StrMap.insert "pressure" (Some 2%nat)
                    (StrMap.insert "density" (Some 3%nat) StrMap.empty)) dc).
  assert (Hne : "pressure"%string <> "density"%string) by discriminate.
  destruct (registration_order_irrelevant "pressure" "density"
              (Some 2%nat) (Some 3%nat) dc dc1 dc12 dc2 dc21
              (Demo.world [] []) (Demo.world [] []) (Demo.world [] [])
              (Demo.world [] []) (Demo.world [] [])
              Hne eq_refl eq_refl eq_refl eq_refl) as (_ & H).
  split; [reflexivity|]. exact (proj2 (H I)).
Defined.

(** X12.  Constructing a collection with a mesh is constructing it
    without and then calling [SetMesh], for the base class and for the
    VisIt class.  [SetMesh] with a live mesh on data that is not owned
    changes no object; it takes rank and number of ranks from a parallel
    mesh and resets them to 0 and 1 for any other, whatever they were;
    the base class ends serial exactly when the mesh is not parallel, the
    VisIt class never, and the VisIt class takes both dimensions from the
    new mesh. *)
Theorem SetMesh_takes_rank_data {C : Collaborators} :
  (forall nm p w,
     DataCollection.create_with_mesh nm p w
     = DataCollection.SetMesh p (DataCollection.create nm) w)
  /\ (forall nm p w,
        VisItDataCollection.create_with_mesh nm p w
        = VisItDataCollection.SetMesh p (VisItDataCollection.create nm) w)
  /\ (forall (dc : VisItDataCollection.t) a m w,
        DataCollection.own_data (VisItDataCollection.base dc) = false ->
        heap_find a (meshes w) = Some m ->
        let ranks :=
          match ParMesh_ranks m with Some r => r | None => (0, 1) end in
        let parallel :=
          match ParMesh_ranks m with Some _ => true | None => false end in
        exists b dc',
          DataCollection.SetMesh (Some a) (VisItDataCollection.base dc) w
          = Ok b w
          /\ VisItDataCollection.SetMesh (Some a) dc w = Ok dc' w
          /\ DataCollection.mesh b = Some a
          /\ (DataCollection.myid b, DataCollection.num_procs b) = ranks
          /\ DataCollection.serial b = negb parallel
          /\ VisItDataCollection.base dc' = DataCollection.set_serial false b
          /\ VisItDataCollection.spatial_dim dc' = SpaceDimension m
          /\ VisItDataCollection.topo_dim dc' = Dimension m
          /\ VisItDataCollection.field_info_map dc'
             = VisItDataCollection.field_info_map dc).
Proof.
  split; [|split].
  - intros nm p w. unfold DataCollection.create_with_mesh, DataCollection.SetMesh.
    cbn [DataCollection.own_data DataCollection.create].
    unfold bind, ret. destruct (par_ranks p w) as [[[r n]|] w1|w1]; reflexivity.
  - intros nm p w.
    unfold VisItDataCollection.create_with_mesh, VisItDataCollection.SetMesh,
      DataCollection.create_with_mesh, DataCollection.SetMesh.
    cbn [DataCollection.own_data DataCollection.create
         VisItDataCollection.create VisItDataCollection.base
         DataCollection.set_cycle DataCollection.set_serial].
    unfold bind, ret. destruct (par_ranks p w) as [[[r n]|] w1|w1];
      [| |reflexivity]; cbn;
      destruct (deref_mesh p w1) as [m w2|w2]; reflexivity.
  - intros dc a m w Ho Hm ranks parallel.
    assert (B : DataCollection.SetMesh (Some a) (VisItDataCollection.base dc) w
                = Ok (DataCollection.use_ranks (ParMesh_ranks m)
                        (DataCollection.set_serial true
                           (DataCollection.set_num_procs 1
                              (DataCollection.set_myid 0
                                 (DataCollection.set_mesh (Some a)
                                    (VisItDataCollection.base dc)))))) w).
    { unfold DataCollection.SetMesh. rewrite Ho.
      rewrite (bind_run _ _ w tt w eq_refl).
      now rewrite (bind_run _ _ _ _ _ (par_ranks_live a m w Hm)). }
    unfold VisItDataCollection.SetMesh. rewrite (bind_run _ _ _ _ _ B).
    rewrite B. clear B. subst ranks parallel.
    destruct (ParMesh_ranks m) as [[r n]|];
      cbn [DataCollection.use_ranks DataCollection.mesh
           DataCollection.set_serial DataCollection.set_num_procs
           DataCollection.set_myid DataCollection.set_mesh
           VisItDataCollection.base VisItDataCollection.set_base];
      rewrite (bind_run _ _ _ _ _ (deref_mesh_live a m w Hm));
      eexists _, _; (split; [reflexivity|]); (split; [reflexivity|]);
      repeat split.
Qed.

Lemma SetMesh_takes_rank_data_witness :
  returns (VisItDataCollection.SetMesh (Some 1%nat)
             (VisItDataCollection.create "run") (Demo.run_world 1))
    (fun dc' _ =>
       DataCollection.myid (VisItDataCollection.base dc') = 1
       /\ DataCollection.num_procs (VisItDataCollection.base dc') = 2
       /\ VisItDataCollection.spatial_dim dc' = 2).
Proof.
  destruct (SetMesh_takes_rank_data (C := Demo.collaborators)) as (_ & _ & H).
  destruct (H (VisItDataCollection.create "run") 1%nat (Demo.run_mesh 1)
              (Demo.run_world 1) eq_refl eq_refl)
    as (b & dc' & _ & E & _ & R & _ & B & D & _).
  unfold addr in E. rewrite E. cbn [returns]. rewrite B, D.
  cbn [DataCollection.myid DataCollection.num_procs DataCollection.set_serial].
  injection R as -> ->. repeat split.
Defined.

(** ** Reading numbers *)





(** X14.  [to_padded_string] puts the zeros in front of the sign: for a
    negative number narrower than the width the result begins with a
    zero and holds the sign in the middle, and [to_int] stops there and
    reads it as 0. *)
Theorem to_padded_string_negative (i digits : Z) :
  INT_MIN <= i < 0 ->
  (String.length (to_string i) < Z.to_nat digits)%nat ->
  to_padded_string i digits
  = fill (Z.to_nat digits - String.length (to_string i)) "0"
    ++ String "-" (dec_of_nonneg (- i))
  /\ String.length (to_padded_string i digits) = Z.to_nat digits
  /\ to_int (to_padded_string i digits) = 0.
Proof.
  intros [Hlo Hneg] Hw. rewrite to_string_put_int in *.
  unfold to_padded_string, put_int in *.
  destruct (Z.ltb_spec i 0) as [_|]; [|lia].
  split; [reflexivity|]. split.
  - rewrite length_append, fill_length. lia.
  - destruct (Z.to_nat digits - String.length (String "-" (dec_of_nonneg (- i))))%nat
      as [|n] eqn:En; [lia|].
    cbn [fill String.append].
    rewrite (to_int_unsigned "0" _ eq_refl).
    change (String "0" (fill n "0" ++ String "-" (dec_of_nonneg (- i))))
      with (fill (S n) "0" ++ String "-" (dec_of_nonneg (- i))).
    rewrite scan_fill_zero. cbn [scan_digits].
    change (is_digit "-") with false. cbv iota. cbn [Nat.eqb negb orb].
    reflexivity.
Qed.

Lemma to_padded_string_negative_witness :
  to_padded_string (-5) 6 = "0000-5" /\ to_int (to_padded_string (-5) 6) = 0.
Proof.
  destruct (to_padded_string_negative (-5) 6) as (E & _ & R).
  - unfold INT_MIN. lia.
  - vm_compute. lia.
  - split; [rewrite E; vm_compute; reflexivity | exact R].
Defined.

(** ** A load that succeeds *)

Section LoadSuccess.

Context {C : Collaborators}.

Local Open Scope list_scope.

Import DataCollection.

Lemma heap_find_cons_other {A : Type} a b (x : A) h :
  b <> a -> heap_find b ((a, x) :: h) = heap_find b h.
Proof.
  intros H. cbn [heap_find].
  destruct (Nat.eqb_spec b a); [contradiction | reflexivity].
Qed.

Lemma on_base_field_map_id (dc : VisItDataCollection.t) :
  VisItDataCollection.on_base
    (set_field_map (field_map (VisItDataCollection.base dc))) dc = dc.
Proof. destruct dc as [[] ? ? ? ?]. reflexivity. Qed.

(** [LoadMesh] when the file is there. *)
Lemma LoadMesh_loaded dc w text :
  StrMap.find (VisItDataCollection.mesh_fname dc) (files w) = Some text ->
  let a := next_addr w in
  let m := Mesh_read text in
  VisItDataCollection.LoadMesh dc w
  = Ok (VisItDataCollection.set_topo_dim (Dimension m)
          (VisItDataCollection.set_spatial_dim (SpaceDimension m)
             (VisItDataCollection.on_base (set_mesh (Some a)) dc)))
       (add_event (EvNewMesh a)
          (set_next_addr (S a)
             (set_meshes ((a, m) :: meshes w)
                (add_event (EvRead (VisItDataCollection.mesh_fname dc)) w)))).
Proof.
  intros H a m. unfold VisItDataCollection.LoadMesh, open_in, bind. rewrite H.
  unfold new_mesh. cbn [next_addr add_event meshes].
  unfold deref_mesh.
  cbn [mesh VisItDataCollection.base VisItDataCollection.on_base
       VisItDataCollection.set_base set_mesh meshes add_event set_next_addr
       set_meshes].
  rewrite heap_find_head. reflexivity.
Qed.

(** The loop of [LoadFields] when every file is there. *)
Lemma load_fields_all its : forall dc w am m,
  mesh (VisItDataCollection.base dc) = Some am ->
  heap_find am (meshes w) = Some m ->
  (forall k, In k (StrMap.keys its) ->
     StrMap.find (VisItDataCollection.field_fname k dc) (files w) <> None) ->
  exists w',
    VisItDataCollection.load_fields its dc w
    = Ok (VisItDataCollection.on_base
            (set_field_map
               (loaded_map its (next_addr w)
                  (field_map (VisItDataCollection.base dc)))) dc) w'
    /\ next_addr w' = (next_addr w + List.length its)%nat
    /\ meshes w' = meshes w
    /\ files w' = files w
    /\ log w'
       = log w
         ++ load_events (fun k => VisItDataCollection.field_fname k dc) its
              (next_addr w)
    /\ (forall j k info, nth_error its j = Some (k, info) ->
          exists text,
            StrMap.find (VisItDataCollection.field_fname k dc) (files w)
            = Some text
            /\ heap_find (next_addr w + j)%nat (gfuncs w')
               = Some (GridFunction_read m text))
    /\ (forall b, (b < next_addr w)%nat ->
          heap_find b (gfuncs w') = heap_find b (gfuncs w)).
Proof.
  induction its as [|[k1 info1] its IH]; intros dc w am m Hp Hm Hall.
  - exists w. cbn [VisItDataCollection.load_fields loaded_map load_events].
    rewrite on_base_field_map_id. split; [reflexivity|].
    split; [cbn; lia|]. split; [reflexivity|]. split; [reflexivity|].
    split; [now rewrite app_nil_r|].
    split; [|reflexivity]. intros [|j] k info H; discriminate H.
  - cbn [VisItDataCollection.load_fields].
    destruct (StrMap.find (VisItDataCollection.field_fname k1 dc) (files w))
      as [text|] eqn:E1.
    2:{ exfalso. apply (Hall k1); [now left | exact E1]. }
    unfold open_in at 1. unfold bind at 1. rewrite E1.
    rewrite Hp.
    rewrite (bind_run _ _ _ _ _
               (deref_mesh_live am m (add_event _ w) Hm)).
    unfold new_field at 1. unfold bind at 1.
    match goal with
    | |- context [VisItDataCollection.load_fields _ ?d ?w1] =>
        destruct (IH d w1 am m) as (w' & E & N & M & F & L & G & K)
    end.
    + exact Hp.
    + exact Hm.
    + intros k' Hin. apply (Hall k'). now right.
    + exists w'. split; [exact E|].
      cbn [next_addr add_event set_next_addr set_gfuncs meshes files log
           gfuncs] in N, M, F, L, G, K.
      split; [rewrite N; cbn [List.length]; lia|].
      split; [exact M|]. split; [exact F|].
      split.
      { rewrite L. cbn [load_events]. rewrite <- !app_assoc. reflexivity. }
      split.
      * intros [|j] k info H.
        -- cbn in H. injection H as <- <-. exists text. split; [exact E1|].
           rewrite Nat.add_0_r. rewrite K by lia. apply heap_find_head.
        -- cbn [nth_error] in H. destruct (G j k info H) as (t & Ht & Hh).
           exists t. split; [exact Ht|].
           rewrite Nat.add_succ_r. exact Hh.
      * intros b Hb. rewrite K by lia.
        apply heap_find_cons_other. lia.
Qed.

End LoadSuccess.

Section LoadedMap.

Context {C : Collaborators}.

Local Open Scope list_scope.

Import DataCollection.

Lemma insert_above {V : Type} k (v : V) : forall fm,
  below fm k -> StrMap.insert k v fm = fm ++ [(k, v)].
Proof.
  induction fm as [|[k' v'] fm IH]; intros H; [reflexivity|].
  cbn [StrMap.insert app].
  rewrite (string_compare_lt_gt k' k) by (apply H; now left).
  rewrite IH; [reflexivity|]. intros k2 H2. apply H. now right.
Qed.

Lemma loaded_map_append its : forall a (fm : StrMap.t (option addr)),
  match its with
  | [] => True
  | (k, _) :: its' => below fm k /\ StrMap.sorted_from k its'
  end ->
  loaded_map its a fm = fm ++ loaded_list its a.
Proof.
  induction its as [|[k info] its IH]; intros a fm H;
    cbn [loaded_map loaded_list].
  - now rewrite app_nil_r.
  - destruct H as [Hb Hs]. rewrite (insert_above k (Some a) fm Hb).
    rewrite IH.
    + now rewrite <- app_assoc.
    + destruct its as [|[k2 info2] its]; [exact I|].
      destruct Hs as [H12 Hs]. split; [|exact Hs].
      intros k' Hin. unfold StrMap.keys in Hin. rewrite map_app in Hin.
      apply in_app_or in Hin. destruct Hin as [Hin|[<-|[]]].
      * apply (string_compare_lt_trans k' k k2); [now apply Hb | exact H12].
      * exact H12.
Qed.

Lemma loaded_map_sorted its a :
  StrMap.sorted its -> loaded_map its a StrMap.empty = loaded_list its a.
Proof.
  intros H. rewrite loaded_map_append; [reflexivity|].
  destruct its as [|[k info] its]; [exact I|].
  split; [intros k' []| exact H].
Qed.

Lemma loaded_list_keys its : forall a,
  StrMap.keys (loaded_list its a) = StrMap.keys its.
Proof.
  induction its as [|[k info] its IH]; intros a; [reflexivity|].
  cbn [loaded_list StrMap.keys map fst]. f_equal. apply IH.
Qed.

Lemma loaded_list_addrs its : forall a,
  field_addrs (loaded_list its a) = seq a (List.length its).
Proof.
  induction its as [|[k info] its IH]; intros a; [reflexivity|].
  cbn [loaded_list field_addrs flat_map snd app List.length seq]. f_equal.
  apply IH.
Qed.

Lemma parse_fields_sorted its : forall fim w,
  StrMap.sorted fim ->
  ensures (fun fim' => StrMap.sorted fim')
    (VisItDataCollection.parse_fields its fim w).
Proof.
  induction its as [|[k v] its IH]; intros fim w H;
    cbn [VisItDataCollection.parse_fields].
  - exact H.
  - repeat (apply ensures_bind; intros ? ? _).
    apply IH. now apply insert_sorted.
Qed.

Lemma ParseVisItRootString_sorted json dc w :
  ensures (fun dc1 => error (VisItDataCollection.base dc1) = NO_ERROR ->
                      StrMap.sorted (VisItDataCollection.field_info_map dc1))
    (VisItDataCollection.ParseVisItRootString json dc w).
Proof.
  unfold VisItDataCollection.ParseVisItRootString.
  destruct (picojson.parse json) as [top|].
  2:{ apply ensures_bind. intros ? ? _. apply ensures_ret. discriminate. }
  repeat (apply ensures_bind; intros ? ? _).
  destruct (find_char "_" _) as [right_sep|].
  2:{ apply ensures_bind. intros ? ? _. apply ensures_ret. discriminate. }
  repeat (apply ensures_bind; intros ? ? _).
  match goal with
  | |- ensures _ (match ?f with _ => _ end _) => destruct f
  end; try (apply ensures_ret; intros _; exact I).
  apply ensures_bind. intros fim wf E. apply ensures_ret. intros _.
  cbn [VisItDataCollection.field_info_map
       VisItDataCollection.set_field_info_map].
  eapply (ensures_ok _ _ _ _ (parse_fields_sorted _ _ _ _) E).
  Unshelve. exact I.
Qed.

Lemma LoadVisItRootFile_sorted r dc w dc1 w1 :
  VisItDataCollection.LoadVisItRootFile r dc w = Ok dc1 w1 ->
  error (VisItDataCollection.base dc1) = NO_ERROR ->
  StrMap.sorted (VisItDataCollection.field_info_map dc1).
Proof.
  unfold VisItDataCollection.LoadVisItRootFile. intros H.
  apply bind_ok_inv in H. destruct H as (buffer & w0 & _ & H).
  destruct buffer as [[|c text]|].
  - apply bind_ok_inv in H. destruct H as (u & w2 & _ & H).
    injection H as <- _. discriminate.
  - exact (ensures_ok _ _ _ _ (ParseVisItRootString_sorted _ _ _) H).
  - apply bind_ok_inv in H. destruct H as (u & w2 & _ & H).
    injection H as <- _. discriminate.
Qed.

(** A [Load] whose root file stage went well and whose files are all
    there. *)
Lemma Load_run c (dc dc0 dc1 : VisItDataCollection.t) w w0 w1 text :
  VisItDataCollection.DeleteAll dc w = Ok dc0 w0 ->
  VisItDataCollection.LoadVisItRootFile
    (VisItDataCollection.root_name
       (VisItDataCollection.on_base (set_cycle c) dc0))
    (VisItDataCollection.on_base (set_cycle c) dc0) w0 = Ok dc1 w1 ->
  error (VisItDataCollection.base dc1) = NO_ERROR ->
  StrMap.find (VisItDataCollection.mesh_fname dc1) (files w1) = Some text ->
  (forall k, In k (StrMap.keys (VisItDataCollection.field_info_map dc1)) ->
     StrMap.find (VisItDataCollection.field_fname k dc1) (files w1) <> None) ->
  let am := next_addr w1 in
  let m := Mesh_read text in
  let fim := VisItDataCollection.field_info_map dc1 in
  exists w',
    VisItDataCollection.Load c dc w
    = Ok (VisItDataCollection.on_base (set_own_data true)
            (VisItDataCollection.on_base
               (set_field_map (loaded_list fim (S am)))
               (VisItDataCollection.set_topo_dim (Dimension m)
                  (VisItDataCollection.set_spatial_dim (SpaceDimension m)
                     (VisItDataCollection.on_base (set_mesh (Some am)) dc1)))))
         w'
    /\ log w'
       = log w1
         ++ EvRead (VisItDataCollection.mesh_fname dc1) :: EvNewMesh am
            :: load_events (fun k => VisItDataCollection.field_fname k dc1)
                 fim (S am)
    /\ files w' = files w1
    /\ meshes w' = (am, m) :: meshes w1
    /\ (forall j k info, nth_error fim j = Some (k, info) ->
          exists ftext,
            StrMap.find (VisItDataCollection.field_fname k dc1) (files w1)
            = Some ftext
            /\ heap_find (S am + j)%nat (gfuncs w')
               = Some (GridFunction_read m ftext)).
Proof.
  intros H0 H1 He Hm Hf am m fim.
  pose proof (LoadVisItRootFile_sorted _ _ _ _ _ H1 He) as Hs.
  unfold VisItDataCollection.Load.
  rewrite (bind_run _ _ _ _ _ H0). rewrite (bind_run _ _ _ _ _ H1).
  rewrite He. cbn [is_error negb].
  rewrite (bind_run _ _ _ _ _ (LoadMesh_loaded dc1 w1 text Hm)).
  fold am. fold m.
  cbn [VisItDataCollection.base VisItDataCollection.set_topo_dim
       VisItDataCollection.set_spatial_dim VisItDataCollection.on_base
       VisItDataCollection.set_base error set_mesh].
  rewrite He. cbn [is_error negb].
  match goal with
  | |- context [bind (VisItDataCollection.LoadFields ?d) _ ?w2] =>
      destruct (load_fields_all (VisItDataCollection.field_info_map d)
                  (VisItDataCollection.on_base (set_field_map StrMap.empty) d)
                  w2 am m)
        as (w' & E & N & M & F & L & G & K)
  end.
  - reflexivity.
  - cbn [meshes add_event set_next_addr set_meshes]. apply heap_find_head.
  - exact Hf.
  - unfold VisItDataCollection.LoadFields.
    cbn [VisItDataCollection.field_info_map VisItDataCollection.on_base
         VisItDataCollection.set_base] in E |- *.
    rewrite (bind_run _ _ _ _ _ E).
    cbn [next_addr add_event set_next_addr set_meshes meshes files log
         VisItDataCollection.base VisItDataCollection.on_base
         VisItDataCollection.set_base VisItDataCollection.field_info_map
         VisItDataCollection.set_topo_dim VisItDataCollection.set_spatial_dim
         field_map set_field_map error]
      in N, M, F, L, G, K |- *.
    change (error (set_mesh (Some am) (VisItDataCollection.base dc1)))
      with (error (VisItDataCollection.base dc1)).
    rewrite He. cbn [is_error negb].
    rewrite (loaded_map_sorted _ _ Hs).
    exists w'. split; [reflexivity|].
    split; [rewrite L; now rewrite <- !app_assoc|].
    split; [exact F|]. split; [exact M|]. exact G.
Qed.

End LoadedMap.

Section LoadedData.

Context {C : Collaborators}.

Local Open Scope list_scope.

Import DataCollection.

Lemma sorted_from_in {V : Type} (its : StrMap.t V) : forall k0 k v,
  StrMap.sorted_from k0 its -> In (k, v) its -> String.compare k0 k = Lt.
Proof.
  induction its as [|[k1 v1] its IH]; intros k0 k v Hs Hin; [destruct Hin|].
  destruct Hs as [H01 Hs]. destruct Hin as [[= <- <-]|Hin]; [exact H01|].
  apply (string_compare_lt_trans k0 k1 k H01). now apply (IH k1 k v).
Qed.

Lemma find_loaded_list its : forall a j k info,
  StrMap.sorted its ->
  nth_error its j = Some (k, info) ->
  StrMap.find k (loaded_list its a) = Some (Some (a + j)%nat).
Proof.
  induction its as [|[k0 info0] its IH]; intros a j k info Hs Hn.
  - destruct j; discriminate Hn.
  - cbn [loaded_list StrMap.find]. destruct j as [|j].
    + cbn in Hn. injection Hn as <- <-. rewrite String.eqb_refl.
      now rewrite Nat.add_0_r.
    + cbn [nth_error] in Hn.
      pose proof (nth_error_In _ _ Hn) as Hin.
      pose proof (sorted_from_in its k0 k info Hs Hin) as Hlt.
      destruct (String.eqb_spec k k0) as [->|_].
      * rewrite string_compare_refl in Hlt. discriminate Hlt.
      * rewrite Nat.add_succ_r. apply (IH (S a) j k info); [|exact Hn].
        destruct its as [|[k1 info1] its]; [exact I|]. exact (proj2 Hs).
Qed.

Lemma load_events_reads f its : forall a,
  reads (load_events f its a) = map f (StrMap.keys its).
Proof.
  induction its as [|[k info] its IH]; intros a; [reflexivity|].
  cbn [load_events reads flat_map app StrMap.keys map fst]. f_equal.
  apply IH.
Qed.

Lemma load_events_news f its : forall a,
  news (load_events f its a) = seq a (List.length its)
  /\ deletes (load_events f its a) = [].
Proof.
  induction its as [|[k info] its IH]; intros a; [split; reflexivity|].
  destruct (IH (S a)) as [H1 H2].
  cbn [load_events news deletes flat_map app List.length seq].
  split; [f_equal; exact H1 | exact H2].
Qed.

Lemma deletes_fields l : deletes (map EvDeleteField l) = l
                         /\ news (map EvDeleteField l) = [].
Proof.
  induction l as [|a l [IH1 IH2]]; [split; reflexivity|].
  cbn [map deletes news flat_map app]. split; [f_equal; exact IH1 | exact IH2].
Qed.

(** [DeleteAll] on owned data whose handles are live and different. *)
Lemma VisIt_DeleteAll_owned (dc : VisItDataCollection.t) w am m :
  own_data (VisItDataCollection.base dc) = true ->
  mesh (VisItDataCollection.base dc) = Some am ->
  heap_find am (meshes w) = Some m ->
  NoDup (field_addrs (field_map (VisItDataCollection.base dc))) ->
  (forall a, In a (field_addrs (field_map (VisItDataCollection.base dc))) ->
     heap_find a (gfuncs w) <> None) ->
  exists w',
    VisItDataCollection.DeleteAll dc w = Ok (visit_emptied dc) w'
    /\ log w'
       = log w ++ EvDeleteMesh am
         :: map EvDeleteField
              (field_addrs (field_map (VisItDataCollection.base dc)))
    /\ heap_find am (meshes w') = None
    /\ (forall a, In a (field_addrs (field_map (VisItDataCollection.base dc))) ->
          heap_find a (gfuncs w') = None)
    /\ files w' = files w.
Proof.
  intros Ho Hp Hm Hnd Hlive.
  pose proof (delete_mesh_live am m w Hm) as Dm.
  set (w1 := set_meshes (heap_remove am (meshes w))
               (add_event (EvDeleteMesh am) w)) in *.
  destruct (delete_fields_owned (field_map (VisItDataCollection.base dc)) w1
              Hnd Hlive) as (w' & E & _ & L & M & F & G1 & _).
  exists w'. split.
  - assert (D : DeleteData (VisItDataCollection.base dc) w
                = Ok (set_own_data false
                        (set_field_map
                           (nulled (field_map (VisItDataCollection.base dc)))
                           (set_mesh None (VisItDataCollection.base dc)))) w').
    { unfold DeleteData. rewrite Ho, Hp. rewrite (bind_run _ _ _ _ _ Dm).
      cbn [own_data set_mesh field_map]. rewrite Ho.
      rewrite (bind_run _ _ _ _ _ E). reflexivity. }
    assert (A : DeleteAll (VisItDataCollection.base dc) w
                = Ok (emptied (VisItDataCollection.base dc)) w').
    { unfold DeleteAll. rewrite (bind_run _ _ _ _ _ D). reflexivity. }
    unfold VisItDataCollection.DeleteAll.
    cbn [VisItDataCollection.base VisItDataCollection.set_field_info_map].
    rewrite (bind_run _ _ _ _ _ A). reflexivity.
  - split; [|split; [|split; [exact G1|]]].
    + rewrite L. cbn [w1 log set_meshes add_event]. now rewrite <- app_assoc.
    + rewrite M. cbn [w1 meshes set_meshes]. apply heap_find_remove_same.
    + rewrite F. reflexivity.
Qed.

End LoadedData.

(** X15.  A [Load] whose root file stage ended without error, whose mesh
    file is there and whose field info names only fields whose files are
    there, returns without error and owning its data.  The mesh is the
    one read from the mesh file, newly allocated, and both VisIt
    dimensions are those of that mesh, not those of the root file.  The
    field map holds exactly the names of the field info, in the same
    strictly increasing order, each with a newly allocated field read
    from its file with that mesh.  The files are read in the order mesh,
    then fields by name; everything else of the collection is as the root
    file stage left it. *)
Theorem load_success {C : Collaborators}
    (c : Z) (dc dc0 dc1 : VisItDataCollection.t) (w w0 w1 : World)
    (text : string) :
  VisItDataCollection.DeleteAll dc w = Ok dc0 w0 ->
  VisItDataCollection.LoadVisItRootFile
    (VisItDataCollection.root_name
       (VisItDataCollection.on_base (DataCollection.set_cycle c) dc0))
    (VisItDataCollection.on_base (DataCollection.set_cycle c) dc0) w0
  = Ok dc1 w1 ->
  DataCollection.error (VisItDataCollection.base dc1) = NO_ERROR ->
  StrMap.find (VisItDataCollection.mesh_fname dc1) (files w1) = Some text ->
  (forall k, In k (StrMap.keys (VisItDataCollection.field_info_map dc1)) ->
     StrMap.find (VisItDataCollection.field_fname k dc1) (files w1) <> None) ->
  let am := next_addr w1 in
  let m := Mesh_read text in
  exists dc' w',
    VisItDataCollection.Load c dc w = Ok dc' w'
    /\ DataCollection.error (VisItDataCollection.base dc') = NO_ERROR
    /\ DataCollection.own_data (VisItDataCollection.base dc') = true
    /\ DataCollection.mesh (VisItDataCollection.base dc') = Some am
    /\ heap_find am (meshes w') = Some m
    /\ VisItDataCollection.spatial_dim dc' = SpaceDimension m
    /\ VisItDataCollection.topo_dim dc' = Dimension m
    /\ VisItDataCollection.field_info_map dc'
       = VisItDataCollection.field_info_map dc1
    /\ StrMap.sorted (VisItDataCollection.field_info_map dc')
    /\ StrMap.keys (DataCollection.field_map (VisItDataCollection.base dc'))
       = StrMap.keys (VisItDataCollection.field_info_map dc')
    /\ (forall j k info,
          nth_error (VisItDataCollection.field_info_map dc1) j = Some (k, info) ->
          exists ftext,
            StrMap.find (VisItDataCollection.field_fname k dc1) (files w1)
            = Some ftext
            /\ DataCollection.GetField k (VisItDataCollection.base dc')
               = Some (S am + j)%nat
            /\ heap_find (S am + j)%nat (gfuncs w')
               = Some (GridFunction_read m ftext))
    /\ reads (log w')
       = (reads (log w1)
          ++ VisItDataCollection.mesh_fname dc1
             :: map (fun k => VisItDataCollection.field_fname k dc1)
                  (StrMap.keys (VisItDataCollection.field_info_map dc1)))%list
    /\ VisItDataCollection.base dc'
       = DataCollection.set_own_data true
           (DataCollection.set_field_map
              (DataCollection.field_map (VisItDataCollection.base dc'))
              (DataCollection.set_mesh (Some am)
                 (VisItDataCollection.base dc1)))
    /\ VisItDataCollection.visit_max_levels_of_detail dc'
       = VisItDataCollection.visit_max_levels_of_detail dc1.
Proof.
  intros H0 H1 He Hm Hf am m.
  pose proof (LoadVisItRootFile_sorted _ _ _ _ _ H1 He) as Hs.
  destruct (Load_run c dc dc0 dc1 w w0 w1 text H0 H1 He Hm Hf)
    as (w' & E & L & F & M & G).
  eexists _, w'. split; [exact E|].
  cbn [VisItDataCollection.base VisItDataCollection.on_base
       VisItDataCollection.set_base VisItDataCollection.set_topo_dim
       VisItDataCollection.set_spatial_dim VisItDataCollection.spatial_dim
       VisItDataCollection.topo_dim VisItDataCollection.field_info_map
       VisItDataCollection.visit_max_levels_of_detail
       DataCollection.error DataCollection.own_data DataCollection.mesh
       DataCollection.field_map DataCollection.set_own_data
       DataCollection.set_field_map DataCollection.set_mesh].
  split; [exact He|]. split; [reflexivity|]. split; [reflexivity|].
  split; [rewrite M; apply heap_find_head|].
  split; [reflexivity|]. split; [reflexivity|]. split; [reflexivity|].
  split; [exact Hs|]. split; [apply loaded_list_keys|].
  split; [|split; [|split; reflexivity]].
  - intros j k info Hn. destruct (G j k info Hn) as (ftext & Hft & Hh).
    exists ftext. split; [exact Hft|]. split; [|exact Hh].
    unfold DataCollection.GetField, DataCollection.HasField,
      DataCollection.field_at.
    cbn [DataCollection.field_map DataCollection.set_own_data
         DataCollection.set_field_map].
    subst am.
    now rewrite (find_loaded_list _ (S (next_addr w1)) j k info Hs Hn).
  - rewrite L. rewrite reads_app. cbn [reads flat_map app].
    f_equal. f_equal. apply load_events_reads.
Qed.

Lemma load_success_witness :
  exists dc' w',
    VisItDataCollection.Load 3 (VisItDataCollection.create "run")
      Demo.run_world_saved = Ok dc' w'
    /\ DataCollection.own_data (VisItDataCollection.base dc') = true
    /\ DataCollection.GetField "pressure" (VisItDataCollection.base dc')
       = Some 101%nat
    /\ reads (log w')
       = ["run_000003.mfem_root"; "run_000003/mesh.000000";
          "run_000003/pressure.000000"].
Proof.
  set (dc := VisItDataCollection.create "run").
  set (w := Demo.run_world_saved).
  set (dc0 := VisItDataCollection.on_base (DataCollection.set_cycle 3)
                (visit_emptied dc)).
  set (o := VisItDataCollection.LoadVisItRootFile
              (VisItDataCollection.root_name dc0) dc0 w).
  assert (E0 : VisItDataCollection.DeleteAll dc w = Ok (visit_emptied dc) w)
    by (apply VisIt_DeleteAll_borrowed; reflexivity).
  assert (E1 : o = Ok (Demo.result_of o) (world_of o))
    by (apply returned; vm_compute; exact I).
  assert (He : DataCollection.error (VisItDataCollection.base (Demo.result_of o))
               = NO_ERROR) by (vm_compute; reflexivity).
  assert (Hm : StrMap.find (VisItDataCollection.mesh_fname (Demo.result_of o))
                 (files (world_of o)) = Some "2 2"%string)
    by (vm_compute; reflexivity).
  assert (K : StrMap.keys (VisItDataCollection.field_info_map (Demo.result_of o))
              = ["pressure"%string]) by (vm_compute; reflexivity).
  assert (Hf : forall k,
             In k (StrMap.keys
                     (VisItDataCollection.field_info_map (Demo.result_of o))) ->
             StrMap.find (VisItDataCollection.field_fname k (Demo.result_of o))
               (files (world_of o)) <> None).
  { rewrite K. intros k [<-|[]]. vm_compute. discriminate. }
  assert (Hn : nth_error (VisItDataCollection.field_info_map (Demo.result_of o)) 0
               = Some ("pressure"%string,
                       {| association := "nodes"; num_components := 1 |}))
    by (vm_compute; reflexivity).
  assert (Ha : next_addr (world_of o) = 100%nat) by (vm_compute; reflexivity).
  assert (Hr : reads (log (world_of o)) = ["run_000003.mfem_root"%string])
    by (vm_compute; reflexivity).
  destruct (load_success 3 dc (visit_emptied dc) (Demo.result_of o)
              w w (world_of o) "2 2" E0 E1 He Hm Hf)
    as (dc' & w' & E & _ & Ho & _ & _ & _ & _ & _ & _ & _ & G & R & _).
  exists dc', w'. split; [exact E|]. split; [exact Ho|].
  destruct (G 0%nat _ _ Hn) as (ftext & _ & Hg & _).
  split.
  - rewrite Hg, Ha. reflexivity.
  - rewrite R, Hr, K. vm_compute. reflexivity.
Defined.

(** X16.  What a successful [Load] allocated, the next [DeleteAll]
    releases, each object exactly once: the addresses allocated since
    the root file stage are those of the mesh and of one field per name,
    the addresses deleted are the same, none of them is live afterwards,
    and the destructor of the emptied collection deletes nothing more.
    The files are left as they were. *)
Theorem loaded_data_released {C : Collaborators}
    (c : Z) (dc dc0 dc1 : VisItDataCollection.t) (w w0 w1 : World)
    (text : string) :
  VisItDataCollection.DeleteAll dc w = Ok dc0 w0 ->
  VisItDataCollection.LoadVisItRootFile
    (VisItDataCollection.root_name
       (VisItDataCollection.on_base (DataCollection.set_cycle c) dc0))
    (VisItDataCollection.on_base (DataCollection.set_cycle c) dc0) w0
  = Ok dc1 w1 ->
  DataCollection.error (VisItDataCollection.base dc1) = NO_ERROR ->
  StrMap.find (VisItDataCollection.mesh_fname dc1) (files w1) = Some text ->
  (forall k, In k (StrMap.keys (VisItDataCollection.field_info_map dc1)) ->
     StrMap.find (VisItDataCollection.field_fname k dc1) (files w1) <> None) ->
  let am := next_addr w1 in
  let n := List.length (VisItDataCollection.field_info_map dc1) in
  exists dc' w' w'' l,
    VisItDataCollection.Load c dc w = Ok dc' w'
    /\ VisItDataCollection.DeleteAll dc' w' = Ok (visit_emptied dc') w''
    /\ log w'' = (log w1 ++ l)%list
    /\ news l = am :: seq (S am) n
    /\ deletes l = am :: seq (S am) n
    /\ heap_find am (meshes w'') = None
    /\ (forall j, (j < n)%nat -> heap_find (S am + j)%nat (gfuncs w'') = None)
    /\ files w'' = files w1
    /\ VisItDataCollection.destroy (visit_emptied dc') w'' = Ok tt w''.
Proof.
  intros H0 H1 He Hm Hf am n.
  destruct (Load_run c dc dc0 dc1 w w0 w1 text H0 H1 He Hm Hf)
    as (w' & E & L & F & M & G).
  fold am in E, L, M, G.
  set (fim := VisItDataCollection.field_info_map dc1) in *.
  match type of E with
  | _ = Ok ?d _ => set (dc' := d) in *
  end.
  assert (Hfm : DataCollection.field_map (VisItDataCollection.base dc')
                = loaded_list fim (S am)) by reflexivity.
  destruct (VisIt_DeleteAll_owned dc' w' am (Mesh_read text))
    as (w'' & D & L2 & Gm & Gf & F2).
  - reflexivity.
  - reflexivity.
  - rewrite M. apply heap_find_head.
  - rewrite Hfm, loaded_list_addrs. apply seq_NoDup.
  - rewrite Hfm, loaded_list_addrs. intros a Ha. apply in_seq in Ha.
    destruct (nth_error fim (a - S am)) as [[k info]|] eqn:En.
    + destruct (G _ _ _ En) as (ftext & _ & Hh).
      replace (S am + (a - S am))%nat with a in Hh by lia.
      rewrite Hh. discriminate.
    + apply nth_error_None in En. fold n in Ha. unfold n in Ha. lia.
  - rewrite Hfm, loaded_list_addrs in L2, Gf. fold n in L2, Gf.
    eexists dc', w', w'', _. split; [exact E|]. split; [exact D|].
    split; [rewrite L2, L, <- app_assoc; reflexivity|].
    destruct (load_events_news
                (fun k => VisItDataCollection.field_fname k dc1) fim (S am))
      as [N1 N2].
    destruct (deletes_fields (seq (S am) n)) as [D1 D2].
    split.
    { cbn [app news flat_map]. change (flat_map _ ?x) with (news x).
      unfold news in *. rewrite flat_map_app. cbn [flat_map app].
      rewrite N1. fold n. rewrite D2. now rewrite app_nil_r. }
    split.
    { cbn [app deletes flat_map]. unfold deletes in *.
      rewrite flat_map_app. cbn [flat_map app].
      rewrite N2, D1. reflexivity. }
    split; [exact Gm|]. split.
    { intros j Hj. apply Gf. apply in_seq. lia. }
    split; [now rewrite F2|]. reflexivity.
Qed.

Lemma loaded_data_released_witness :
  exists dc' w' w'',
    VisItDataCollection.Load 3 (VisItDataCollection.create "run")
      Demo.run_world_saved = Ok dc' w'
    /\ VisItDataCollection.DeleteAll dc' w' = Ok (visit_emptied dc') w''
    /\ deletes (log w'') = [100%nat; 101%nat].
Proof.
  set (dc := VisItDataCollection.create "run").
  set (w := Demo.run_world_saved).
  set (dc0 := VisItDataCollection.on_base (DataCollection.set_cycle 3)
                (visit_emptied dc)).
  set (o := VisItDataCollection.LoadVisItRootFile
              (VisItDataCollection.root_name dc0) dc0 w).
  assert (E0 : VisItDataCollection.DeleteAll dc w = Ok (visit_emptied dc) w)
    by (apply VisIt_DeleteAll_borrowed; reflexivity).
  assert (E1 : o = Ok (Demo.result_of o) (world_of o))
    by (apply returned; vm_compute; exact I).
  assert (He : DataCollection.error (VisItDataCollection.base (Demo.result_of o))
               = NO_ERROR) by (vm_compute; reflexivity).
  assert (Hm : StrMap.find (VisItDataCollection.mesh_fname (Demo.result_of o))
                 (files (world_of o)) = Some "2 2"%string)
    by (vm_compute; reflexivity).
  assert (K : StrMap.keys (VisItDataCollection.field_info_map (Demo.result_of o))
              = ["pressure"%string]) by (vm_compute; reflexivity).
  assert (Hf : forall k,
             In k (StrMap.keys
                     (VisItDataCollection.field_info_map (Demo.result_of o))) ->
             StrMap.find (VisItDataCollection.field_fname k (Demo.result_of o))
               (files (world_of o)) <> None).
  { rewrite K. intros k [<-|[]]. vm_compute. discriminate. }
  assert (Hl : List.length (VisItDataCollection.field_info_map (Demo.result_of o))
               = 1%nat) by (vm_compute; reflexivity).
  assert (Ha : next_addr (world_of o) = 100%nat) by (vm_compute; reflexivity).
  assert (Hd : deletes (log (world_of o)) = []) by (vm_compute; reflexivity).
  destruct (loaded_data_released 3 dc (visit_emptied dc) (Demo.result_of o)
              w w (world_of o) "2 2" E0 E1 He Hm Hf)
    as (dc' & w' & w'' & l & E & D & L & _ & Dl & _).
  exists dc', w', w''. split; [exact E|]. split; [exact D|].
  rewrite L. unfold deletes in *. rewrite flat_map_app, Hd, Dl, Hl, Ha.
  reflexivity.
Defined.

(** ** Writing and reading the root document *)


Section RootDocument.
Context {C : Collaborators}.
Local Open Scope list_scope.
Import DataCollection.

Lemma root_fields_members p e its : forall ftags field fields,
  empty_or_pair "assoc" "comps" ftags ->
  empty_or_pair "path" "tags" field ->
  VisItDataCollection.root_fields p e its ftags field fields
  = fold_left (fun acc it => StrMap.insert (fst it) (snd (field_member p e it)) acc)
      its fields.
Proof.
  induction its as [|[k info] its IH]; intros ftags field fields Ht Hf;
    [reflexivity|].
  cbn [VisItDataCollection.root_fields fold_left].
  assert (E1 : StrMap.insert "comps" (picojson.string_ (to_string (num_components info)))
            (StrMap.insert "assoc" (picojson.string_ (association info)) ftags)
          = [("assoc"%string, picojson.string_ (association info));
             ("comps"%string, picojson.string_ (to_string (num_components info)))]).
  { destruct Ht as [->|(v1 & v2 & ->)]; reflexivity. }
  rewrite E1.
  assert (E2 : forall x y, StrMap.insert "tags" y (StrMap.insert "path" x field)
          = [("path"%string, x); ("tags"%string, y)]).
  { intros x y. destruct Hf as [->|(v1 & v2 & ->)]; reflexivity. }
  rewrite E2. rewrite IH.
  - reflexivity.
  - right. eexists _, _. reflexivity.
  - right. eexists _, _. reflexivity.
Qed.

Lemma fold_insert_sorted {A V : Type} (f : string * A -> V) (its : list (string * A)) :
  forall acc,
  match its with
  | [] => True
  | (k, _) :: its' => below acc k /\ StrMap.sorted_from k its'
  end ->
  fold_left (fun acc it => StrMap.insert (fst it) (f it) acc) its acc
  = acc ++ map (fun it => (fst it, f it)) its.
Proof.
  induction its as [|[k x] its IH]; intros acc H; cbn [fold_left map].
  - now rewrite app_nil_r.
  - destruct H as [Hb Hs]. cbn [fst]. rewrite (insert_above k _ acc Hb).
    rewrite IH.
    + now rewrite <- app_assoc.
    + destruct its as [|[k2 x2] its]; [exact I|].
      destruct Hs as [H12 Hs]. split; [|exact Hs].
      intros k' Hin. unfold StrMap.keys in Hin. rewrite map_app in Hin.
      apply in_app_or in Hin. destruct Hin as [Hin|[<-|[]]].
      * apply (string_compare_lt_trans k' k k2); [now apply Hb | exact H12].
      * exact H12.
Qed.


Lemma parse_fields_members p e its : forall fim w,
  VisItDataCollection.parse_fields (map (field_member p e) its) fim w
  = Ok (fold_left (fun acc it => StrMap.insert (fst it) (read_info it) acc)
          its fim) w.
Proof.
  induction its as [|[k info] its IH]; intros fim w; [reflexivity|].
  cbn [map field_member VisItDataCollection.parse_fields fst snd].
  cbn [picojson.get StrMap.find String.eqb Ascii.eqb Bool.eqb
       VisItDataCollection.asserted picojson.get_string].
  repeat (rewrite bind_ret;
          cbn [picojson.get StrMap.find String.eqb Ascii.eqb Bool.eqb
               VisItDataCollection.asserted picojson.get_string]).
  rewrite IH. reflexivity.
Qed.

Lemma read_info_id its :
  Forall (fun it : string * VisItFieldInfo =>
            int_range (num_components (snd it))) its ->
  map (fun it => (fst it, read_info it)) its = its.
Proof.
  induction 1 as [|[k [a c]] its H _ IH]; [reflexivity|].
  cbn [map fst snd]. rewrite IH. unfold read_info. cbn [snd association num_components] in *.
  now rewrite to_int_to_string.
Qed.


Lemma find_char_app c s1 s2 :
  find_char c (s1 ++ String c s2)
  = Some (match find_char c s1 with
          | Some n => n
          | None => String.length s1
          end).
Proof.
  induction s1 as [|a s1 IH]; cbn [String.append find_char String.length].
  - now rewrite Ascii.eqb_refl.
  - destruct (Ascii.eqb a c); [reflexivity|]. rewrite IH.
    now destruct (find_char c s1).
Qed.

Lemma find_char_lt c s : forall n,
  find_char c s = Some n -> (n < String.length s)%nat.
Proof.
  induction s as [|a s IH]; intros n H; [discriminate H|].
  cbn [find_char String.length] in *. destruct (Ascii.eqb a c).
  - injection H as <-. lia.
  - destruct (find_char c s) as [m|]; [|discriminate H].
    injection H as <-. specialize (IH m eq_refl). lia.
Qed.

Lemma substr0_app s1 s2 : forall n,
  (n <= String.length s1)%nat -> substr0 n (s1 ++ s2) = substr0 n s1.
Proof.
  unfold substr0. induction s1 as [|a s1 IH]; intros n H.
  - cbn in H. assert (n = 0%nat) by lia. subst. cbn. now destruct s2.
  - destruct n as [|n]; [reflexivity|].
    cbn [String.append String.substring]. f_equal. apply IH.
    cbn [String.length] in H. lia.
Qed.

Lemma substr0_all s : substr0 (String.length s) s = s.
Proof.
  unfold substr0. induction s as [|a s IH]; [reflexivity|].
  cbn [String.length String.substring]. now f_equal.
Qed.

Lemma substr0_length s : forall n,
  (n <= String.length s)%nat -> String.length (substr0 n s) = n.
Proof.
  unfold substr0. induction s as [|a s IH]; intros n H.
  - cbn in H. assert (n = 0%nat) by lia. now subst.
  - destruct n as [|n]; [reflexivity|].
    cbn [String.substring String.length] in *. f_equal. apply IH. lia.
Qed.

Lemma name_read_back_app nm rest :
  match find_char "_" (nm ++ String "_" rest) with
  | Some n => substr0 n (nm ++ String "_" rest) = name_read_back nm
  | None => False
  end.
Proof.
  rewrite find_char_app. unfold name_read_back.
  destruct (find_char "_" nm) as [n|] eqn:E.
  - apply substr0_app. apply find_char_lt in E. lia.
  - rewrite substr0_app by lia. apply substr0_all.
Qed.

Lemma name_read_back_same nm :
  name_read_back nm = nm <-> find_char "_" nm = None.
Proof.
  unfold name_read_back. destruct (find_char "_" nm) as [n|] eqn:E.
  - split; [|discriminate]. intros H. exfalso.
    pose proof (find_char_lt _ _ _ E) as Hlt.
    pose proof (substr0_length nm n) as Hl. rewrite H in Hl. lia.
  - split; reflexivity.
Qed.

Lemma root_document_members (dc : VisItDataCollection.t) :
  StrMap.sorted (VisItDataCollection.field_info_map dc) ->
  let b := VisItDataCollection.base dc in
  let p := (name b ++ "_" ++ to_padded_string (cycle b) (pad_digits b) ++ "/")%string in
  let e := (".%0" ++ to_string (pad_digits b) ++ "d")%string in
  VisItDataCollection.root_document dc
  = picojson.object_
      [("dsets"%string,
        picojson.object_
          [("main"%string,
            picojson.object_
              (("cycle"%string, picojson.number_ (double_of_int (cycle b)))
               :: ("domains"%string,
                   picojson.number_ (double_of_int (num_procs b)))
               :: (if StrMap.is_empty (VisItDataCollection.field_info_map dc)
                   then []
                   else [("fields"%string,
                          picojson.object_
                            (map (field_member p e)
                               (VisItDataCollection.field_info_map dc)))])
               ++ [("mesh"%string,
                    picojson.object_
                      [("path"%string, picojson.string_ (p ++ "mesh" ++ e)%string);
                       ("tags"%string,
                        picojson.object_
                          [("max_lods"%string,
                            picojson.string_
                              (to_string
                                 (VisItDataCollection.visit_max_levels_of_detail dc)));
                           ("spatial_dim"%string,
                            picojson.string_
                              (to_string (VisItDataCollection.spatial_dim dc)));
                           ("topo_dim"%string,
                            picojson.string_
                              (to_string (VisItDataCollection.topo_dim dc)))])]);
                   ("time"%string, picojson.number_ (time b))]))])].
Proof.
  intros Hs b p e. unfold VisItDataCollection.root_document.
  fold b. fold p. fold e.
  rewrite root_fields_members by (now left).
  rewrite (fold_insert_sorted (fun it => snd (field_member p e it))).
  2:{ destruct (VisItDataCollection.field_info_map dc) as [|[k i] its];
        [exact I|]. split; [intros k' []|exact Hs]. }
  cbn [app].
  destruct (VisItDataCollection.field_info_map dc) as [|it its];
    reflexivity.
Qed.

End RootDocument.

Section ReadTag.
Context {C : Collaborators}.
Local Open Scope list_scope.

Lemma read_tag_found key members tags s w :
  StrMap.find "tags" members = Some (picojson.object_ tags) ->
  StrMap.find key tags = Some (picojson.string_ s) ->
  VisItDataCollection.read_tag key (picojson.object_ members) w
  = Ok (to_int s) w.
Proof.
  intros H1 H2. unfold VisItDataCollection.read_tag.
  cbn [picojson.get]. rewrite H1. cbn [VisItDataCollection.asserted].
  rewrite bind_ret. cbn [picojson.get]. rewrite H2.
  cbn [VisItDataCollection.asserted]. rewrite bind_ret.
  cbn [picojson.get_string VisItDataCollection.asserted]. now rewrite bind_ret.
Qed.

End ReadTag.

Ltac read_tag_step :=
  match goal with
  | |- context [bind (VisItDataCollection.read_tag ?key (picojson.object_ ?mem))
                  ?k ?w0] =>
      rewrite (bind_run (VisItDataCollection.read_tag key (picojson.object_ mem))
                 k w0 _ w0 (read_tag_found key mem _ _ w0 eq_refl eq_refl))
  end.
Ltac root_steps :=
  repeat (rewrite bind_ret;
          cbn [picojson.get picojson.get_double picojson.get_string
               StrMap.find String.eqb Ascii.eqb Bool.eqb app
               VisItDataCollection.asserted VisItDataCollection.read_tag]).

(** What [ParseVisItRootString] takes from the document of [dc]. *)
Lemma ParseVisItRootString_reads {C : Collaborators}
    (dc dc0 : VisItDataCollection.t) (json : string) (w : World) :
  (forall z, int_range z -> int_of_double (double_of_int z) = z) ->
  picojson.parse json = Some (VisItDataCollection.root_document dc) ->
  int_range (DataCollection.cycle (VisItDataCollection.base dc)) ->
  int_range (DataCollection.num_procs (VisItDataCollection.base dc)) ->
  int_range (VisItDataCollection.spatial_dim dc) ->
  int_range (VisItDataCollection.topo_dim dc) ->
  int_range (VisItDataCollection.visit_max_levels_of_detail dc) ->
  StrMap.sorted (VisItDataCollection.field_info_map dc) ->
  Forall (fun it : string * VisItFieldInfo =>
            int_range (num_components (snd it)))
    (VisItDataCollection.field_info_map dc) ->
  let b := VisItDataCollection.base dc in
  exists dc',
    VisItDataCollection.ParseVisItRootString json dc0 w = Ok dc' w
    /\ VisItDataCollection.base dc'
       = DataCollection.set_name (name_read_back (DataCollection.name b))
           (DataCollection.set_num_procs (DataCollection.num_procs b)
              (DataCollection.set_time (DataCollection.time b)
                 (DataCollection.set_cycle (DataCollection.cycle b)
                    (VisItDataCollection.base dc0))))
    /\ VisItDataCollection.spatial_dim dc' = VisItDataCollection.spatial_dim dc
    /\ VisItDataCollection.topo_dim dc' = VisItDataCollection.topo_dim dc
    /\ VisItDataCollection.visit_max_levels_of_detail dc'
       = VisItDataCollection.visit_max_levels_of_detail dc
    /\ VisItDataCollection.field_info_map dc'
       = VisItDataCollection.field_info_map dc
    /\ (DataCollection.name (VisItDataCollection.base dc') = DataCollection.name b
        <-> find_char "_" (DataCollection.name b) = None).
Proof.
  intros Hd Hparse Hc Hn Hsd Htd Hml Hs Hinfo b.
  unfold VisItDataCollection.ParseVisItRootString. rewrite Hparse.
  rewrite (root_document_members dc Hs). fold b.
  set (p := (DataCollection.name b ++ "_"
             ++ to_padded_string (DataCollection.cycle b)
                  (DataCollection.pad_digits b) ++ "/")%string).
  set (e := (".%0" ++ to_string (DataCollection.pad_digits b) ++ "d")%string).
  set (fim := VisItDataCollection.field_info_map dc) in *.
  set (mesh := picojson.object_ [("path"%string, _); _]).
  assert (Hpath : exists rest,
            (p ++ "mesh" ++ e)%string
            = (DataCollection.name b ++ String "_" rest)%string).
  { eexists. unfold p. rewrite append_assoc. reflexivity. }
  destruct Hpath as [rest Hpath].
  pose proof (name_read_back_app (DataCollection.name b) rest) as Hname.
  rewrite <- Hpath in Hname.
  destruct (find_char "_" (p ++ "mesh" ++ e)) as [right_sep|] eqn:Efind;
    [|destruct Hname].
  assert (Hfields :
            fold_left (fun acc it => StrMap.insert (fst it) (read_info it) acc)
              fim StrMap.empty = fim).
  { rewrite (fold_insert_sorted read_info).
    - cbn [app]. now apply read_info_id.
    - destruct fim as [|[k i] its]; [exact I|]. split; [intros k' []|exact Hs]. }
  subst mesh.
  destruct fim as [|it its] eqn:Efim; cbn [StrMap.is_empty app].
  - cbn [picojson.get picojson.get_double picojson.get_string
         StrMap.find String.eqb Ascii.eqb Bool.eqb app
         VisItDataCollection.asserted VisItDataCollection.read_tag].
    root_steps. rewrite Efind.
    read_tag_step.
    read_tag_step.
    read_tag_step.
    rewrite Hname, !Hd, !to_int_to_string by assumption.
    eexists. split; [reflexivity|].
    cbn [VisItDataCollection.base VisItDataCollection.on_base
         VisItDataCollection.set_base VisItDataCollection.set_topo_dim
         VisItDataCollection.set_spatial_dim VisItDataCollection.spatial_dim
         VisItDataCollection.topo_dim VisItDataCollection.field_info_map
         VisItDataCollection.set_field_info_map
         VisItDataCollection.set_visit_max_levels_of_detail
         VisItDataCollection.visit_max_levels_of_detail].
    repeat (split; [reflexivity|]).
    apply name_read_back_same.
  - cbn [picojson.get picojson.get_double picojson.get_string
         StrMap.find String.eqb Ascii.eqb Bool.eqb app
         VisItDataCollection.asserted VisItDataCollection.read_tag].
    root_steps. rewrite Efind.
    read_tag_step.
    read_tag_step.
    read_tag_step.
    cbn [VisItDataCollection.field_info_map
         VisItDataCollection.set_field_info_map].
    rewrite (bind_run _ _ _ _ _ (parse_fields_members p e _ _ w)), Hfields.
    rewrite Hname, !Hd, !to_int_to_string by assumption.
    eexists. split; [reflexivity|].
    cbn [VisItDataCollection.base VisItDataCollection.on_base
         VisItDataCollection.set_base VisItDataCollection.set_topo_dim
         VisItDataCollection.set_spatial_dim VisItDataCollection.spatial_dim
         VisItDataCollection.topo_dim VisItDataCollection.field_info_map
         VisItDataCollection.set_field_info_map
         VisItDataCollection.set_visit_max_levels_of_detail
         VisItDataCollection.visit_max_levels_of_detail].
    repeat (split; [reflexivity|]).
    apply name_read_back_same.
Qed.

(** X17.  What [GetVisItRootString] writes, [ParseVisItRootString]
    reads back: from a text that the reader turns into the document of a
    collection whose numbers are in the range of [int], it takes cycle,
    time, number of ranks, both dimensions, the levels of detail and the
    field info of that collection, and leaves prefix, pad digits, rank,
    mesh, fields and error flag of the reading collection as they were.
    The name it takes is the part of the written name in front of its
    first underscore: the written name itself exactly when that holds no
    underscore. *)
Theorem root_document_read_back {C : Collaborators}
    (dc dc0 : VisItDataCollection.t) (json : string) (w : World) :
  (forall z, int_range z -> int_of_double (double_of_int z) = z) ->
  picojson.parse json = Some (VisItDataCollection.root_document dc) ->
  int_range (DataCollection.cycle (VisItDataCollection.base dc)) ->
  int_range (DataCollection.num_procs (VisItDataCollection.base dc)) ->
  int_range (VisItDataCollection.spatial_dim dc) ->
  int_range (VisItDataCollection.topo_dim dc) ->
  int_range (VisItDataCollection.visit_max_levels_of_detail dc) ->
  StrMap.sorted (VisItDataCollection.field_info_map dc) ->
  Forall (fun it : string * VisItFieldInfo =>
            int_range (num_components (snd it)))
    (VisItDataCollection.field_info_map dc) ->
  let b := VisItDataCollection.base dc in
  exists dc',
    VisItDataCollection.ParseVisItRootString json dc0 w = Ok dc' w
    /\ VisItDataCollection.base dc'
       = DataCollection.set_name (name_read_back (DataCollection.name b))
           (DataCollection.set_num_procs (DataCollection.num_procs b)
              (DataCollection.set_time (DataCollection.time b)
                 (DataCollection.set_cycle (DataCollection.cycle b)
                    (VisItDataCollection.base dc0))))
    /\ VisItDataCollection.spatial_dim dc' = VisItDataCollection.spatial_dim dc
    /\ VisItDataCollection.topo_dim dc' = VisItDataCollection.topo_dim dc
    /\ VisItDataCollection.visit_max_levels_of_detail dc'
       = VisItDataCollection.visit_max_levels_of_detail dc
    /\ VisItDataCollection.field_info_map dc'
       = VisItDataCollection.field_info_map dc
    /\ (DataCollection.name (VisItDataCollection.base dc') = DataCollection.name b
        <-> find_char "_" (DataCollection.name b) = None)
    /\ DataCollection.prefix_path (VisItDataCollection.base dc')
       = DataCollection.prefix_path (VisItDataCollection.base dc0)
    /\ DataCollection.pad_digits (VisItDataCollection.base dc')
       = DataCollection.pad_digits (VisItDataCollection.base dc0)
    /\ DataCollection.myid (VisItDataCollection.base dc')
       = DataCollection.myid (VisItDataCollection.base dc0)
    /\ DataCollection.error (VisItDataCollection.base dc')
       = DataCollection.error (VisItDataCollection.base dc0)
    /\ DataCollection.mesh (VisItDataCollection.base dc')
       = DataCollection.mesh (VisItDataCollection.base dc0)
    /\ DataCollection.field_map (VisItDataCollection.base dc')
       = DataCollection.field_map (VisItDataCollection.base dc0).
Proof.
  intros Hd Hparse Hc Hn Hsd Htd Hml Hs Hinfo b.
  destruct (ParseVisItRootString_reads dc dc0 json w Hd Hparse Hc Hn Hsd Htd
              Hml Hs Hinfo) as (dc' & E & B & D & T & M & F & N).
  exists dc'. split; [exact E|]. split; [exact B|]. split; [exact D|].
  split; [exact T|]. split; [exact M|]. split; [exact F|]. split; [exact N|].
  rewrite B. repeat split.
Qed.

Lemma value_eqb_sound : forall a b, Demo.value_eqb a b = true -> a = b.
Proof.
  fix IH 1. intros [ | x | x | x | x | x] [ | y | y | y | y | y];
    cbn [Demo.value_eqb]; try discriminate.
  - reflexivity.
  - intros H. apply Bool.eqb_prop in H. now subst.
  - intros H. apply Z.eqb_eq in H. now subst.
  - intros H. apply String.eqb_eq in H. now subst.
  - intros H. f_equal. revert x y H. fix IHl 1.
    intros [|v1 l1] [|v2 l2]; try discriminate; [reflexivity|].
    intros H. apply andb_true_iff in H. destruct H as [H1 H2].
    f_equal; [apply IH, H1 | apply IHl, H2].
  - intros H. f_equal. revert x y H. fix IHl 1.
    intros [|[k1 v1] l1] [|[k2 v2] l2]; try discriminate; [reflexivity|].
    intros H. apply andb_true_iff in H. destruct H as [H1 H3].
    apply andb_true_iff in H1. destruct H1 as [H1 H2].
    apply String.eqb_eq in H1. subst k2.
    f_equal; [f_equal; apply IH, H2 | apply IHl, H3].
Qed.

Lemma same_document_sound o v : Demo.same_document o v = true -> o = Some v.
Proof.
  destruct o as [x|]; [|discriminate]. cbn. intros H.
  now rewrite (value_eqb_sound x v H).
Qed.

Lemma root_document_read_back_witness :
  returns
    (VisItDataCollection.ParseVisItRootString
       (VisItDataCollection.GetVisItRootString (Demo.named_dc "my_run"))
       (VisItDataCollection.create "other") (Demo.world [] []))
    (fun dc' _ =>
       DataCollection.name (VisItDataCollection.base dc') = "my"
       /\ DataCollection.cycle (VisItDataCollection.base dc') = 3
       /\ StrMap.keys (VisItDataCollection.field_info_map dc') = ["pressure"]).
Proof.
  set (dc := Demo.named_dc "my_run").
  assert (Hd : forall z, int_range z ->
                 @int_of_double Demo.collaborators (double_of_int z) = z)
    by reflexivity.
  assert (Hp : picojson.parse (VisItDataCollection.GetVisItRootString dc)
               = Some (VisItDataCollection.root_document dc))
    by (apply same_document_sound; vm_compute; reflexivity).
  assert (Hc : DataCollection.cycle (VisItDataCollection.base dc) = 3)
    by (vm_compute; reflexivity).
  assert (Hn : DataCollection.num_procs (VisItDataCollection.base dc) = 1)
    by (vm_compute; reflexivity).
  assert (Hsd : VisItDataCollection.spatial_dim dc = 3)
    by (vm_compute; reflexivity).
  assert (Htd : VisItDataCollection.topo_dim dc = 2)
    by (vm_compute; reflexivity).
  assert (Hml : VisItDataCollection.visit_max_levels_of_detail dc = 32)
    by (vm_compute; reflexivity).
  assert (Hf : VisItDataCollection.field_info_map dc
               = [("pressure"%string,
                   {| association := "nodes"; num_components := 1 |})])
    by (vm_compute; reflexivity).
  assert (Hnm : DataCollection.name (VisItDataCollection.base dc)
                = "my_run"%string) by (vm_compute; reflexivity).
  assert (R : forall z, -2147483648 <= z <= 2147483647 -> int_range z)
    by (intros z H; exact H).
  destruct (root_document_read_back dc (VisItDataCollection.create "other")
              (VisItDataCollection.GetVisItRootString dc) (Demo.world [] [])
              Hd Hp)
    as (dc' & E & B & _ & _ & _ & F & _).
  - rewrite Hc. apply R. lia.
  - rewrite Hn. apply R. lia.
  - rewrite Hsd. apply R. lia.
  - rewrite Htd. apply R. lia.
  - rewrite Hml. apply R. lia.
  - rewrite Hf. exact I.
  - rewrite Hf. repeat constructor; cbn; discriminate.
  - rewrite E. cbn [returns]. rewrite B, F, Hf, Hc, Hnm.
    repeat split.
Defined.

(** ** Save followed by Load *)


Section Quiet.
Context {C : Collaborators}.
Local Open Scope list_scope.
Import DataCollection.

Lemma quiet_writes w p : failing_files w = [] -> write_fails w p = false.
Proof. intros H. unfold write_fails. now rewrite H. Qed.

Lemma quiet_dirs w d : failing_dirs w = [] -> mkdir_fails w d = false.
Proof. intros H. unfold mkdir_fails. now rewrite H. Qed.

Lemma create_directory_quiet d p i w :
  mesh_ok p w -> failing_dirs w = [] ->
  exists w',
    create_directory d p i w = Ok 0 w'
    /\ same_heap w w' /\ files w' = files w.
Proof.
  intros Hok Hq.
  destruct (create_directory_run d p i w Hok) as (w' & E & _ & S & F).
  rewrite (quiet_dirs w d Hq) in E. now exists w'.
Qed.

Lemma write_mesh_quiet dc w a m :
  mesh dc = Some a -> heap_find a (meshes w) = Some m ->
  failing_files w = [] ->
  write_mesh dc w
  = Ok dc (set_files (StrMap.insert (mesh_name dc) (Mesh_Print m (precision dc))
                        (files w))
             (add_event (EvWrite (mesh_name dc)) w)).
Proof.
  intros Hp Hm Hq. unfold write_mesh, open_out, emit.
  rewrite (bind_run _ _ w tt (add_event (EvWrite (mesh_name dc)) w) eq_refl).
  rewrite Hp.
  rewrite (bind_run _ _ _ _ _
             (deref_mesh_live a m (add_event (EvWrite (mesh_name dc)) w) Hm)).
  unfold bind, stream_out.
  change (write_fails (add_event (EvWrite (mesh_name dc)) w) (mesh_name dc))
    with (write_fails w (mesh_name dc)).
  now rewrite (quiet_writes w _ Hq).
Qed.

Lemma same_heap_quiet w w' :
  same_heap w w' ->
  failing_dirs w = [] -> failing_files w = [] ->
  failing_dirs w' = [] /\ failing_files w' = [].
Proof. intros (H1 & H2 & _) Hd Hf. split; congruence. Qed.

Lemma SaveMesh_quiet dc w a m :
  mesh dc = Some a -> heap_find a (meshes w) = Some m ->
  failing_dirs w = [] -> failing_files w = [] ->
  exists w',
    SaveMesh dc w = Ok dc w'
    /\ same_heap w w'
    /\ files w'
       = StrMap.insert (mesh_name dc) (Mesh_Print m (precision dc)) (files w).
Proof.
  intros Hp Hm Hd Hf.
  assert (Hok : forall w0, same_heap w w0 -> mesh_ok (mesh dc) w0).
  { intros w0 (_ & _ & S & _). rewrite Hp. exists m. now rewrite S. }
  assert (Cyc : forall w0, same_heap w w0 -> files w0 = files w ->
            exists w', make_cycle_dir dc w0 = Ok dc w' /\ same_heap w w'
              /\ files w' = StrMap.insert (mesh_name dc)
                              (Mesh_Print m (precision dc)) (files w)).
  { intros w0 S0 F0. unfold make_cycle_dir.
    destruct (same_heap_quiet _ _ S0 Hd Hf) as [Hd0 Hf0].
    destruct (create_directory_quiet (dir_name dc) (mesh dc) (myid dc) w0
                (Hok w0 S0) Hd0) as (w1 & E1 & S1 & F1).
    rewrite (bind_run _ _ _ _ _ E1). cbn [Z.eqb negb].
    pose proof (same_heap_trans _ _ _ S0 S1) as S01.
    destruct (same_heap_quiet _ _ S01 Hd Hf) as [Hd1 Hf1].
    assert (Hm1 : heap_find a (meshes w1) = Some m)
      by (destruct S01 as (_ & _ & s3 & _); now rewrite s3).
    rewrite (write_mesh_quiet dc w1 a m Hp Hm1 Hf1).
    eexists. split; [reflexivity|]. split.
    - destruct S01 as (s1 & s2 & s3 & s4 & s5). repeat split; assumption.
    - cbn [files set_files add_event]. now rewrite F1, F0. }
  unfold SaveMesh. destruct (string_empty (prefix_path dc)); cbn [negb].
  - apply Cyc; [apply same_heap_refl | reflexivity].
  - destruct (create_directory_quiet (prefix_path dc) (mesh dc) (myid dc) w
                (Hok w (same_heap_refl w)) Hd) as (w1 & E1 & S1 & F1).
    rewrite (bind_run _ _ _ _ _ E1). cbn [Z.eqb negb].
    now apply Cyc.
Qed.

Lemma SaveOneField_quiet it dc w a g :
  snd it = Some a -> heap_find a (gfuncs w) = Some g ->
  failing_files w = [] ->
  SaveOneField it dc w
  = Ok dc (set_files (StrMap.insert (file_name (fst it) dc)
                        (GridFunction_Save g (precision dc)) (files w))
             (add_event (EvWrite (file_name (fst it) dc)) w)).
Proof.
  intros Hp Hg Hq. unfold SaveOneField, open_out, emit.
  rewrite (bind_run _ _ w tt (add_event (EvWrite (file_name (fst it) dc)) w)
             eq_refl).
  rewrite Hp.
  rewrite (bind_run _ _ _ _ _
             (deref_field_live a g
                (add_event (EvWrite (file_name (fst it) dc)) w) Hg)).
  unfold bind, stream_out.
  change (write_fails (add_event (EvWrite (file_name (fst it) dc)) w)
            (file_name (fst it) dc))
    with (write_fails w (file_name (fst it) dc)).
  now rewrite (quiet_writes w _ Hq).
Qed.

Lemma find_insert_kept {V : Type} p q (v : V) m :
  StrMap.find p m <> None -> StrMap.find p (StrMap.insert q v m) <> None.
Proof.
  intros H. destruct (String.eqb_spec p q) as [->|Hne].
  - rewrite find_insert_same. discriminate.
  - now rewrite find_insert_other.
Qed.

Lemma save_fields_quiet its : forall dc w,
  fields_live its w -> failing_files w = [] ->
  exists w',
    save_fields its dc w = Ok dc w'
    /\ same_heap w w'
    /\ (forall p, StrMap.find p (files w) <> None ->
          StrMap.find p (files w') <> None)
    /\ (forall k, In k (StrMap.keys its) ->
          StrMap.find (file_name k dc) (files w') <> None)
    /\ (forall p, (forall k, In k (StrMap.keys its) -> file_name k dc <> p) ->
          StrMap.find p (files w') = StrMap.find p (files w)).
Proof.
  induction its as [|it its IH]; intros dc w Hl Hq.
  - exists w. split; [reflexivity|]. split; [apply same_heap_refl|].
    split; [auto|]. split; [intros k []|reflexivity].
  - inversion Hl as [|? ? (a & g & Hp & Hg) Hl']; subst.
    cbn [save_fields]. rewrite (bind_run _ _ _ _ _ (SaveOneField_quiet it dc w a g Hp Hg Hq)).
    match goal with
    | |- context [save_fields its dc ?w1] =>
        destruct (IH dc w1) as (w' & E & S & K & N & O)
    end.
    + unfold fields_live in *. eapply Forall_impl; [|exact Hl'].
      intros it' (a' & g' & H1 & H2). now exists a', g'.
    + exact Hq.
    + exists w'. split; [exact E|]. split.
      { destruct S as (s1 & s2 & s3 & s4 & s5). repeat split; assumption. }
      cbn [files set_files add_event] in K, O.
      split; [|split].
      * intros p H. apply K. now apply find_insert_kept.
      * intros k [<-|Hin]; [|now apply N].
        apply K. rewrite find_insert_same. discriminate.
      * intros p H. rewrite O.
        -- apply find_insert_other. intros ->. apply (H (fst it)); [now left|reflexivity].
        -- intros k Hin. apply H. now right.
Qed.

End Quiet.

Section SaveLoad.
Context {C : Collaborators}.
Local Open Scope list_scope.
Import DataCollection.

Lemma append_inj_l s a b : (s ++ a = s ++ b)%string -> a = b.
Proof.
  induction s as [|c s IH]; cbn [String.append]; [auto|].
  intros H. injection H as H. now apply IH.
Qed.

Lemma append_inj_r s : forall a b, (a ++ s = b ++ s)%string -> a = b.
Proof.
  assert (L : forall a b, (a ++ s = b ++ s)%string ->
                String.length a = String.length b).
  { intros a b H. apply (f_equal String.length) in H.
    rewrite !length_append in H. lia. }
  induction a as [|c a IH]; intros b H; pose proof (L _ _ H) as Hl;
    destruct b as [|d b]; try discriminate Hl; [reflexivity|].
  cbn [String.append] in H. injection H as -> H. f_equal. now apply IH.
Qed.

(** The VisIt [Save] of a collection that is ready. *)
Lemma VisIt_Save_quiet (dc : VisItDataCollection.t) w am m :
  ready_to_save dc w ->
  mesh (VisItDataCollection.base dc) = Some am ->
  heap_find am (meshes w) = Some m ->
  exists ws,
    VisItDataCollection.Save dc w = Ok dc ws
    /\ same_heap w ws
    /\ StrMap.find (VisItDataCollection.root_name dc) (files ws)
       = Some (VisItDataCollection.GetVisItRootString dc)
    /\ StrMap.find (mesh_name (VisItDataCollection.base dc)) (files ws) <> None
    /\ (forall k, In k (StrMap.keys (field_map (VisItDataCollection.base dc))) ->
          StrMap.find (file_name k (VisItDataCollection.base dc)) (files ws)
          <> None)
    /\ (~ In "mesh"%string (StrMap.keys (field_map (VisItDataCollection.base dc))) ->
        StrMap.find (mesh_name (VisItDataCollection.base dc)) (files ws)
        = Some (Mesh_Print m (precision (VisItDataCollection.base dc)))).
Proof.
  intros (Hs & Hd & Hf & Hser & Hid & He & Hc & _) Hp Hm.
  set (b := VisItDataCollection.base dc) in *.
  destruct Hs as [_ Hl].
  destruct (SaveMesh_quiet b w am m Hp Hm Hd Hf) as (w1 & E1 & S1 & F1).
  destruct (same_heap_quiet _ _ S1 Hd Hf) as [Hd1 Hf1].
  destruct (save_fields_quiet (field_map b) b w1) as (w2 & E2 & S2 & K & N & O).
  { eapply fields_live_same_heap; eassumption. }
  { exact Hf1. }
  pose proof (same_heap_trans _ _ _ S1 S2) as S12.
  destruct (same_heap_quiet _ _ S12 Hd Hf) as [Hd2 Hf2].
  assert (B : DataCollection.Save b w = Ok b w2).
  { unfold DataCollection.Save. rewrite (bind_run _ _ _ _ _ E1).
    rewrite He. exact E2. }
  assert (Hdc : VisItDataCollection.set_base b dc = dc)
    by (destruct dc; reflexivity).
  set (root := VisItDataCollection.root_name dc).
  set (text := VisItDataCollection.GetVisItRootString dc).
  exists (set_files (StrMap.insert root text (files w2))
            (add_event (EvWrite root) w2)).
  assert (Hmesh1 : StrMap.find (mesh_name b) (files w1)
                   = Some (Mesh_Print m (precision b)))
    by (rewrite F1; apply find_insert_same).
  assert (Hroot : mesh_name b <> root).
  { unfold root, VisItDataCollection.root_name, VisItDataCollection.cycle_path,
      mesh_name, dir_name. fold b. rewrite Hser.
    destruct (cycle b =? -1); rewrite !append_assoc; intros H.
    - do 2 apply append_inj_l in H. cbn [String.append] in H. discriminate H.
    - do 4 apply append_inj_l in H. cbn [String.append] in H. discriminate H. }
  split.
  - unfold VisItDataCollection.Save. rewrite (bind_run _ _ _ _ _ B).
    rewrite Hdc. unfold VisItDataCollection.SaveRootFile. fold b.
    rewrite Hid. cbn [Z.eqb]. unfold open_out, emit.
    rewrite (bind_run _ _ w2 tt (add_event (EvWrite root) w2) eq_refl).
    unfold bind, stream_out. fold root. fold text.
    change (write_fails (add_event (EvWrite root) w2) root)
      with (write_fails w2 root).
    now rewrite (quiet_writes w2 _ Hf2).
  - cbn [files set_files add_event].
    split.
    { destruct S12 as (s1 & s2 & s3 & s4 & s5). repeat split; assumption. }
    split; [apply find_insert_same|].
    split.
    { apply find_insert_kept. apply K. rewrite Hmesh1. discriminate. }
    split.
    { intros k Hk. apply find_insert_kept. now apply N. }
    intros Hno. rewrite find_insert_other by exact Hroot.
    rewrite O; [exact Hmesh1|].
    intros k Hk. unfold file_name, mesh_name. rewrite Hser.
    intros H. apply append_inj_l in H.
    change ("/mesh." ++ to_padded_string (myid b) (pad_digits b))%string
      with ("/" ++ ("mesh" ++ ("." ++ to_padded_string (myid b) (pad_digits b))))%string in H.
    apply (append_inj_l "/") in H.
    rewrite <- !append_assoc in H. apply append_inj_r in H.
    apply append_inj_r in H. subst k. contradiction.
Qed.


Lemma parse_nonempty json (v : picojson.value) :
  picojson.parse json = Some v -> json <> ""%string.
Proof. intros H ->. discriminate H. Qed.

(** The names of the files that [Load] opens are those that [Save]
    wrote. *)
Lemma load_names (dc dc1 : VisItDataCollection.t) :
  let b := VisItDataCollection.base dc in
  let b1 := VisItDataCollection.base dc1 in
  serial b = false -> 0 <= cycle b ->
  name b1 = name b -> prefix_path b1 = prefix_path b ->
  cycle b1 = cycle b -> pad_digits b1 = pad_digits b -> myid b1 = myid b ->
  VisItDataCollection.mesh_fname dc1 = mesh_name b
  /\ forall k, VisItDataCollection.field_fname k dc1 = file_name k b.
Proof.
  intros b b1 Hser Hc H1 H2 H3 H4 H5.
  unfold VisItDataCollection.mesh_fname, VisItDataCollection.field_fname,
    VisItDataCollection.cycle_path, mesh_name, file_name, dir_name.
  fold b. fold b1. rewrite Hser, H1, H2, H3, H4, H5.
  destruct (Z.eqb_spec (cycle b) (-1)) as [E|_]; [lia|].
  split; [now rewrite !append_assoc|].
  intros k. now rewrite !append_assoc.
Qed.

(** The root file stage of a [Load] that follows the [Save] of a
    collection that is ready. *)
Lemma root_stage_after_save (dc l : VisItDataCollection.t) w am m :
  (forall z, int_range z -> int_of_double (double_of_int z) = z) ->
  picojson.parse (VisItDataCollection.GetVisItRootString dc)
  = Some (VisItDataCollection.root_document dc) ->
  ready_to_save dc w ->
  loads_for dc l ->
  mesh (VisItDataCollection.base dc) = Some am ->
  heap_find am (meshes w) = Some m ->
  let b := VisItDataCollection.base dc in
  let dcc := VisItDataCollection.on_base (set_cycle (cycle b))
               (visit_emptied l) in
  exists ws dc1,
    VisItDataCollection.Save dc w = Ok dc ws
    /\ StrMap.find (mesh_name b) (files ws) <> None
    /\ (forall k, In k (StrMap.keys (field_map b)) ->
          StrMap.find (file_name k b) (files ws) <> None)
    /\ (~ In "mesh"%string (StrMap.keys (field_map b)) ->
        StrMap.find (mesh_name b) (files ws)
        = Some (Mesh_Print m (precision b)))
    /\ VisItDataCollection.DeleteAll l ws = Ok (visit_emptied l) ws
    /\ VisItDataCollection.LoadVisItRootFile
         (VisItDataCollection.root_name dcc) dcc ws
       = Ok dc1 (add_event (EvRead (VisItDataCollection.root_name dc)) ws)
    /\ VisItDataCollection.base dc1
       = set_name (name_read_back (name b))
           (set_num_procs (num_procs b)
              (set_time (time b)
                 (set_cycle (cycle b) (VisItDataCollection.base dcc))))
    /\ VisItDataCollection.field_info_map dc1
       = VisItDataCollection.field_info_map dc
    /\ VisItDataCollection.visit_max_levels_of_detail dc1
       = VisItDataCollection.visit_max_levels_of_detail dc.
Proof.
  intros Hd Hparse Hready Hl Hp Hm b dcc.
  destruct (VisIt_Save_quiet dc w am m Hready Hp Hm)
    as (ws & ES & SS & Froot & Fmesh & Ffields & Fcontent).
  destruct Hready as (_ & _ & _ & Hser & Hid & He & Hc & Hn & Hsd & Htd & Hml
                      & Hs & Hinfo & Hkeys).
  destruct Hl as (Lo & Le & Ln & Lp & Lpad & Lid).
  fold b in Hser, Hid, He, Hc, Hn, Hkeys, Fmesh, Ffields, Fcontent, Ln, Lp, Lpad.
  assert (Hroot : VisItDataCollection.root_name dcc
                  = VisItDataCollection.root_name dc).
  { unfold VisItDataCollection.root_name, VisItDataCollection.cycle_path.
    cbn [dcc VisItDataCollection.base VisItDataCollection.on_base
         VisItDataCollection.set_base visit_emptied emptied
         VisItDataCollection.set_field_info_map
         name prefix_path cycle pad_digits set_cycle
         set_field_map set_own_data set_mesh].
    fold b. now rewrite Ln, Lp, Lpad. }
  destruct (ParseVisItRootString_reads dc dcc
              (VisItDataCollection.GetVisItRootString dc)
              (add_event (EvRead (VisItDataCollection.root_name dc)) ws)
              Hd Hparse Hc Hn Hsd Htd Hml Hs Hinfo)
    as (dc1 & E1 & B1 & D1 & T1 & M1 & F1 & N1).
  exists ws, dc1. split; [exact ES|]. split; [exact Fmesh|].
  split; [exact Ffields|]. split; [exact Fcontent|].
  split; [now apply VisIt_DeleteAll_borrowed|].
  split.
  { rewrite (LoadVisItRootFile_nonempty _ dcc ws
               (VisItDataCollection.GetVisItRootString dc)).
    - rewrite Hroot. exact E1.
    - exact (parse_nonempty _ _ Hparse).
    - rewrite Hroot. exact Froot. }
  split; [exact B1|]. split; [exact F1 | exact M1].
Qed.

(** A [Load] that does not find the mesh file. *)
Lemma Load_mesh_missing c (l dc0 dc1 : VisItDataCollection.t) w w0 w1 :
  VisItDataCollection.DeleteAll l w = Ok dc0 w0 ->
  VisItDataCollection.LoadVisItRootFile
    (VisItDataCollection.root_name
       (VisItDataCollection.on_base (set_cycle c) dc0))
    (VisItDataCollection.on_base (set_cycle c) dc0) w0 = Ok dc1 w1 ->
  error (VisItDataCollection.base dc1) = NO_ERROR ->
  own_data (VisItDataCollection.base dc1) = false ->
  StrMap.find (VisItDataCollection.mesh_fname dc1) (files w1) = None ->
  VisItDataCollection.Load c l w
  = Ok (visit_emptied
          (VisItDataCollection.on_base (set_error READ_ERROR) dc1))
       (add_event (EvWarning ("Unable to open mesh file: "
                              ++ VisItDataCollection.mesh_fname dc1)%string)
          (add_event (EvRead (VisItDataCollection.mesh_fname dc1)) w1)).
Proof.
  intros H0 H1 He Ho Hm. unfold VisItDataCollection.Load.
  rewrite (bind_run _ _ _ _ _ H0). rewrite (bind_run _ _ _ _ _ H1).
  rewrite He. cbn [is_error negb].
  rewrite (bind_run _ _ _ _ _ (LoadMesh_missing dc1 w1 Hm)).
  cbn [VisItDataCollection.base VisItDataCollection.on_base
       VisItDataCollection.set_base error set_error is_error negb].
  repeat (rewrite bind_ret;
          cbn [VisItDataCollection.base VisItDataCollection.on_base
               VisItDataCollection.set_base error set_error is_error negb]).
  apply VisIt_DeleteAll_borrowed. exact Ho.
Qed.

(** A [Load] after a [Save] that looks for the mesh file at a path
    where there is none. *)
Lemma load_after_save_misses (dc l : VisItDataCollection.t) w am m path :
  (forall z, int_range z -> int_of_double (double_of_int z) = z) ->
  picojson.parse (VisItDataCollection.GetVisItRootString dc)
  = Some (VisItDataCollection.root_document dc) ->
  ready_to_save dc w ->
  loads_for dc l ->
  mesh (VisItDataCollection.base dc) = Some am ->
  heap_find am (meshes w) = Some m ->
  let b := VisItDataCollection.base dc in
  path = (prefix_path b ++ name_read_back (name b) ++ "_"
          ++ to_padded_string (cycle b) (pad_digits b)
          ++ "/mesh." ++ to_padded_string 0 (pad_digits b))%string ->
  StrMap.find path (files (world_of (VisItDataCollection.Save dc w))) = None ->
  exists ws dc' w',
    VisItDataCollection.Save dc w = Ok dc ws
    /\ StrMap.find (mesh_name b) (files ws) <> None
    /\ VisItDataCollection.Load (cycle b) l ws = Ok dc' w'
    /\ error (VisItDataCollection.base dc') = READ_ERROR
    /\ own_data (VisItDataCollection.base dc') = false
    /\ mesh (VisItDataCollection.base dc') = None
    /\ field_map (VisItDataCollection.base dc') = StrMap.empty
    /\ VisItDataCollection.field_info_map dc' = StrMap.empty
    /\ name (VisItDataCollection.base dc') = name_read_back (name b)
    /\ reads (log w')
       = reads (log ws) ++ [VisItDataCollection.root_name dc; path].
Proof.
  intros Hd Hparse Hready Hl Hp Hm b Hpath Hmiss.
  destruct (root_stage_after_save dc l w am m Hd Hparse Hready Hl Hp Hm)
    as (ws & dc1 & ES & Fmesh & _ & _ & E0 & E1 & B1 & _).
  fold b in Fmesh, E1, B1.
  rewrite ES in Hmiss. cbn [world_of] in Hmiss.
  destruct Hl as (Lo & Le & Ln & Lp & Lpad & Lid).
  fold b in Ln, Lp, Lpad.
  assert (He1 : error (VisItDataCollection.base dc1) = NO_ERROR)
    by (rewrite B1; exact Le).
  assert (Ho1 : own_data (VisItDataCollection.base dc1) = false)
    by (rewrite B1; reflexivity).
  assert (Hname : name (VisItDataCollection.base dc1) = name_read_back (name b))
    by (rewrite B1; reflexivity).
  assert (Hfn : VisItDataCollection.mesh_fname dc1 = path).
  { unfold VisItDataCollection.mesh_fname, VisItDataCollection.cycle_path.
    rewrite Hname. rewrite B1.
    cbn [prefix_path cycle pad_digits myid set_name set_num_procs set_time
         set_cycle VisItDataCollection.base VisItDataCollection.on_base
         VisItDataCollection.set_base visit_emptied emptied
         VisItDataCollection.set_field_info_map
         set_field_map set_own_data set_mesh].
    rewrite Lp, Lpad, Lid, Hpath. now rewrite !append_assoc. }
  pose proof (Load_mesh_missing (cycle b) l (visit_emptied l) dc1 ws ws _
                E0 E1 He1 Ho1) as EL.
  rewrite Hfn in EL. specialize (EL Hmiss).
  eexists ws, _, _. split; [exact ES|]. split; [exact Fmesh|].
  split; [exact EL|].
  cbn [VisItDataCollection.base VisItDataCollection.on_base
       VisItDataCollection.set_base visit_emptied emptied
       VisItDataCollection.set_field_info_map
       VisItDataCollection.field_info_map
       error own_data mesh field_map name
       set_field_map set_own_data set_mesh set_error].
  repeat (split; [reflexivity|]).
  split; [exact Hname|].
  cbn [log add_event]. rewrite !reads_app. cbn [reads flat_map app].
  rewrite app_nil_r, <- app_assoc. reflexivity.
Qed.

End SaveLoad.

(** X18.  Save followed by Load.  A VisIt collection on rank 0 whose
    name holds no underscore and whose cycle is not negative is saved in
    a world where nothing fails; a collection that owns nothing and has
    the same name, prefix and pad digits then loads that cycle.  Provided
    the reader turns the root file into the document that was written,
    the [Load] returns without error and owning its data, with the field
    info, the names of the fields, the name, cycle, time, number of ranks
    and levels of detail of the saved collection; the two dimensions are
    those of the mesh read from the mesh file, which holds what
    [Mesh::Print] wrote unless a field is called "mesh". *)
Theorem save_then_load {C : Collaborators}
    (dc l : VisItDataCollection.t) (w : World) (am : addr) (m : Mesh) :
  (forall z, int_range z -> int_of_double (double_of_int z) = z) ->
  picojson.parse (VisItDataCollection.GetVisItRootString dc)
  = Some (VisItDataCollection.root_document dc) ->
  ready_to_save dc w ->
  loads_for dc l ->
  DataCollection.mesh (VisItDataCollection.base dc) = Some am ->
  heap_find am (meshes w) = Some m ->
  find_char "_" (DataCollection.name (VisItDataCollection.base dc)) = None ->
  0 <= DataCollection.cycle (VisItDataCollection.base dc) ->
  let b := VisItDataCollection.base dc in
  exists ws dc' w' text,
    VisItDataCollection.Save dc w = Ok dc ws
    /\ VisItDataCollection.Load (DataCollection.cycle b) l ws = Ok dc' w'
    /\ DataCollection.error (VisItDataCollection.base dc') = NO_ERROR
    /\ DataCollection.own_data (VisItDataCollection.base dc') = true
    /\ VisItDataCollection.field_info_map dc'
       = VisItDataCollection.field_info_map dc
    /\ StrMap.keys (DataCollection.field_map (VisItDataCollection.base dc'))
       = StrMap.keys (DataCollection.field_map b)
    /\ DataCollection.name (VisItDataCollection.base dc') = DataCollection.name b
    /\ DataCollection.cycle (VisItDataCollection.base dc') = DataCollection.cycle b
    /\ DataCollection.time (VisItDataCollection.base dc') = DataCollection.time b
    /\ DataCollection.num_procs (VisItDataCollection.base dc')
       = DataCollection.num_procs b
    /\ VisItDataCollection.visit_max_levels_of_detail dc'
       = VisItDataCollection.visit_max_levels_of_detail dc
    /\ StrMap.find (DataCollection.mesh_name b) (files ws) = Some text
    /\ (~ In "mesh"%string (StrMap.keys (DataCollection.field_map b)) ->
        text = Mesh_Print m (DataCollection.precision b))
    /\ VisItDataCollection.spatial_dim dc' = SpaceDimension (Mesh_read text)
    /\ VisItDataCollection.topo_dim dc' = Dimension (Mesh_read text).
Proof.
  intros Hd Hparse Hready Hl Hp Hm Hus Hc b.
  destruct (root_stage_after_save dc l w am m Hd Hparse Hready Hl Hp Hm)
    as (ws & dc1 & ES & Fmesh & Ffields & Fcontent & E0 & E1 & B1 & F1 & M1).
  fold b in Fmesh, Ffields, Fcontent, E1, B1.
  destruct Hready as (_ & _ & _ & Hser & Hid & _ & _ & _ & _ & _ & _
                      & _ & _ & Hkeys).
  destruct Hl as (Lo & Le & Ln & Lp & Lpad & Lid).
  fold b in Hser, Hid, Hkeys, Ln, Lp, Lpad.
  assert (Hname : DataCollection.name (VisItDataCollection.base dc1)
                  = DataCollection.name b).
  { rewrite B1. cbn [DataCollection.name DataCollection.set_name].
    unfold name_read_back. fold b in Hus. now rewrite Hus. }
  assert (He1 : DataCollection.error (VisItDataCollection.base dc1) = NO_ERROR)
    by (rewrite B1; exact Le).
  destruct (load_names dc dc1) as [Nm Nf]; try assumption.
  { rewrite B1. exact Lp. }
  { rewrite B1. reflexivity. }
  { rewrite B1. exact Lpad. }
  { rewrite B1. cbn [DataCollection.myid DataCollection.set_name
                     DataCollection.set_num_procs DataCollection.set_time
                     DataCollection.set_cycle VisItDataCollection.base
                     VisItDataCollection.on_base VisItDataCollection.set_base
                     visit_emptied emptied
                     VisItDataCollection.set_field_info_map
                     DataCollection.set_field_map DataCollection.set_own_data
                     DataCollection.set_mesh].
    fold b. now rewrite Lid, Hid. }
  fold b in Nm, Nf.
  destruct (StrMap.find (DataCollection.mesh_name b) (files ws)) as [text|] eqn:Et;
    [|now elim Fmesh].
  destruct (Load_run (DataCollection.cycle b) l (visit_emptied l) dc1 ws ws _
              text E0 E1 He1)
    as (w' & EL & _).
  { rewrite Nm. exact Et. }
  { intros k Hk. rewrite Nf. apply Ffields. rewrite Hkeys, <- F1. exact Hk. }
  eexists ws, _, w', text. split; [exact ES|]. split; [exact EL|].
  cbn [VisItDataCollection.base VisItDataCollection.on_base
       VisItDataCollection.set_base VisItDataCollection.set_topo_dim
       VisItDataCollection.set_spatial_dim VisItDataCollection.spatial_dim
       VisItDataCollection.topo_dim VisItDataCollection.field_info_map
       VisItDataCollection.visit_max_levels_of_detail
       DataCollection.error DataCollection.own_data DataCollection.mesh
       DataCollection.field_map DataCollection.set_own_data
       DataCollection.set_field_map DataCollection.set_mesh
       DataCollection.name DataCollection.cycle DataCollection.time
       DataCollection.num_procs].
  split; [exact He1|]. split; [reflexivity|]. split; [exact F1|].
  split; [now rewrite loaded_list_keys, F1, Hkeys|].
  split; [exact Hname|].
  rewrite B1.
  cbn [DataCollection.cycle DataCollection.time DataCollection.num_procs
       DataCollection.set_name DataCollection.set_num_procs
       DataCollection.set_time DataCollection.set_cycle].
  split; [reflexivity|]. split; [reflexivity|]. split; [reflexivity|].
  split; [exact M1|]. split; [exact Et|].
  split; [|split; reflexivity].
  intros Hno. specialize (Fcontent Hno). now injection Fcontent.
Qed.

Lemma named_dc_ready nm :
  ready_to_save (Demo.named_dc nm)
    (Demo.world [(1%nat, Demo.serial_mesh)] [(2%nat, 1)]).
Proof.
  assert (Hfm : DataCollection.field_map (VisItDataCollection.base (Demo.named_dc nm))
                = [("pressure"%string, Some 2%nat)]) by reflexivity.
  assert (Hfi : VisItDataCollection.field_info_map (Demo.named_dc nm)
                = [("pressure"%string,
                    {| association := "nodes"; num_components := 1 |})])
    by reflexivity.
  unfold ready_to_save. rewrite Hfm, Hfi.
  split.
  { split.
    - exists 1%nat, Demo.serial_mesh. split; reflexivity.
    - rewrite Hfm. repeat constructor. exists 2%nat, 1. split; reflexivity. }
  repeat (split; [reflexivity|]).
  unfold int_range, INT_MIN, INT_MAX.
  split; [cbn; lia|].
  split; [cbn; lia|]. split; [cbn; lia|]. split; [cbn; lia|].
  split; [cbn; lia|]. split; [exact I|].
  split; [repeat constructor; cbn; lia|]. reflexivity.
Qed.

Lemma save_then_load_witness :
  exists ws dc' w',
    VisItDataCollection.Save (Demo.named_dc "run")
      (Demo.world [(1%nat, Demo.serial_mesh)] [(2%nat, 1)])
    = Ok (Demo.named_dc "run") ws
    /\ VisItDataCollection.Load 3 (VisItDataCollection.create "run") ws
       = Ok dc' w'
    /\ DataCollection.own_data (VisItDataCollection.base dc') = true
    /\ StrMap.keys (VisItDataCollection.field_info_map dc') = ["pressure"]
    /\ VisItDataCollection.spatial_dim dc' = 3.
Proof.
  set (dc := Demo.named_dc "run").
  set (w := Demo.world [(1%nat, Demo.serial_mesh)] [(2%nat, 1)]).
  assert (Hd : forall z, int_range z ->
                 @int_of_double Demo.collaborators (double_of_int z) = z)
    by reflexivity.
  assert (Hp : picojson.parse (VisItDataCollection.GetVisItRootString dc)
               = Some (VisItDataCollection.root_document dc))
    by (apply same_document_sound; vm_compute; reflexivity).
  assert (Hl : loads_for dc (VisItDataCollection.create "run"))
    by (repeat split).
  assert (Hu : find_char "_" (DataCollection.name (VisItDataCollection.base dc))
               = None) by reflexivity.
  assert (Hc : 0 <= DataCollection.cycle (VisItDataCollection.base dc))
    by (cbn; lia).
  destruct (save_then_load dc (VisItDataCollection.create "run") w 1%nat
              Demo.serial_mesh Hd Hp (named_dc_ready "run") Hl eq_refl eq_refl
              Hu Hc)
    as (ws & dc' & w' & text & ES & EL & _ & Ho & Hf & _ & _ & _ & _ & _ & _
        & _ & Ht & Hs & _).
  exists ws, dc', w'. split; [exact ES|]. split; [exact EL|].
  split; [exact Ho|]. split; [rewrite Hf; reflexivity|].
  rewrite Hs, Ht; [reflexivity|].
  intros [H|[]]. discriminate H.
Defined.

(** X19.  With an underscore in the name the same [Load] fails: the
    name taken from the root file is the part in front of the first
    underscore, the mesh file is looked for under that name, and when no
    such file is there the [Load] sets [READ_ERROR] and leaves the
    collection empty, with the cut name, after reading the root file and
    trying that one mesh file. *)
Theorem save_then_load_underscore {C : Collaborators}
    (dc l : VisItDataCollection.t) (w : World) (am : addr) (m : Mesh)
    (n : nat) :
  (forall z, int_range z -> int_of_double (double_of_int z) = z) ->
  picojson.parse (VisItDataCollection.GetVisItRootString dc)
  = Some (VisItDataCollection.root_document dc) ->
  ready_to_save dc w ->
  loads_for dc l ->
  DataCollection.mesh (VisItDataCollection.base dc) = Some am ->
  heap_find am (meshes w) = Some m ->
  let b := VisItDataCollection.base dc in
  find_char "_" (DataCollection.name b) = Some n ->
  let cut := substr0 n (DataCollection.name b) in
  let path :=
    (DataCollection.prefix_path b ++ cut ++ "_"
     ++ to_padded_string (DataCollection.cycle b) (DataCollection.pad_digits b)
     ++ "/mesh." ++ to_padded_string 0 (DataCollection.pad_digits b))%string in
  StrMap.find path (files (world_of (VisItDataCollection.Save dc w))) = None ->
  exists ws dc' w',
    VisItDataCollection.Save dc w = Ok dc ws
    /\ VisItDataCollection.Load (DataCollection.cycle b) l ws = Ok dc' w'
    /\ DataCollection.error (VisItDataCollection.base dc') = READ_ERROR
    /\ DataCollection.own_data (VisItDataCollection.base dc') = false
    /\ DataCollection.mesh (VisItDataCollection.base dc') = None
    /\ DataCollection.field_map (VisItDataCollection.base dc') = StrMap.empty
    /\ VisItDataCollection.field_info_map dc' = StrMap.empty
    /\ DataCollection.name (VisItDataCollection.base dc') = cut
    /\ cut <> DataCollection.name b
    /\ reads (log w')
       = (reads (log ws) ++ [VisItDataCollection.root_name dc; path])%list.
Proof.
  intros Hd Hparse Hready Hl Hp Hm b Hus cut path Hmiss.
  assert (Hcut : name_read_back (DataCollection.name b) = cut)
    by (unfold name_read_back; now rewrite Hus).
  destruct (load_after_save_misses dc l w am m path Hd Hparse Hready Hl Hp Hm)
    as (ws & dc' & w' & ES & _ & EL & He & Ho & Hmesh & Hfm & Hfi & Hn & R).
  - fold b. now rewrite Hcut.
  - exact Hmiss.
  - fold b in EL, Hn. rewrite Hcut in Hn.
    exists ws, dc', w'. split; [exact ES|]. split; [exact EL|].
    split; [exact He|]. split; [exact Ho|]. split; [exact Hmesh|].
    split; [exact Hfm|]. split; [exact Hfi|]. split; [exact Hn|].
    split; [|exact R].
    intros H. rewrite <- Hcut in H. apply name_read_back_same in H.
    congruence.
Qed.

Lemma save_then_load_underscore_witness :
  exists ws dc' w',
    VisItDataCollection.Save (Demo.named_dc "my_run")
      (Demo.world [(1%nat, Demo.serial_mesh)] [(2%nat, 1)])
    = Ok (Demo.named_dc "my_run") ws
    /\ VisItDataCollection.Load 3 (VisItDataCollection.create "my_run") ws
       = Ok dc' w'
    /\ DataCollection.error (VisItDataCollection.base dc') = READ_ERROR
    /\ DataCollection.name (VisItDataCollection.base dc') = "my"
    /\ reads (log w')
       = ["my_run_000003.mfem_root"; "my_000003/mesh.000000"].
Proof.
  set (dc := Demo.named_dc "my_run").
  set (w := Demo.world [(1%nat, Demo.serial_mesh)] [(2%nat, 1)]).
  assert (Hd : forall z, int_range z ->
                 @int_of_double Demo.collaborators (double_of_int z) = z)
    by reflexivity.
  assert (Hp : picojson.parse (VisItDataCollection.GetVisItRootString dc)
               = Some (VisItDataCollection.root_document dc))
    by (apply same_document_sound; vm_compute; reflexivity).
  assert (Hl : loads_for dc (VisItDataCollection.create "my_run"))
    by (repeat split).
  assert (Hu : find_char "_" (DataCollection.name (VisItDataCollection.base dc))
               = Some 2%nat) by reflexivity.
  assert (Hr : reads (log (world_of (VisItDataCollection.Save dc w))) = [])
    by (vm_compute; reflexivity).
  destruct (save_then_load_underscore dc (VisItDataCollection.create "my_run")
              w 1%nat Demo.serial_mesh 2%nat Hd Hp (named_dc_ready "my_run") Hl
              eq_refl eq_refl Hu)
    as (ws & dc' & w' & ES & EL & He & _ & _ & _ & _ & Hn & _ & R).
  - vm_compute. reflexivity.
  - exists ws, dc', w'. split; [exact ES|]. split; [exact EL|].
    split; [exact He|]. split; [rewrite Hn; reflexivity|].
    rewrite ES in Hr. cbn [world_of] in Hr. rewrite R, Hr. reflexivity.
Defined.

(** X22.  A VisIt collection saved at cycle -1 is not loaded again:
    [Save] then writes the mesh into the directory without a cycle
    suffix, while [Load] looks for it in the directory named after the
    padded cycle; when no file is there the [Load] of cycle -1 sets
    [READ_ERROR] and leaves the collection empty, after reading the root
    file and trying that one mesh file. *)
Theorem cycle_minus_one_is_not_loaded {C : Collaborators}
    (dc l : VisItDataCollection.t) (w : World) (am : addr) (m : Mesh) :
  (forall z, int_range z -> int_of_double (double_of_int z) = z) ->
  picojson.parse (VisItDataCollection.GetVisItRootString dc)
  = Some (VisItDataCollection.root_document dc) ->
  ready_to_save dc w ->
  loads_for dc l ->
  DataCollection.mesh (VisItDataCollection.base dc) = Some am ->
  heap_find am (meshes w) = Some m ->
  let b := VisItDataCollection.base dc in
  DataCollection.cycle b = -1 ->
  find_char "_" (DataCollection.name b) = None ->
  let rank := to_padded_string 0 (DataCollection.pad_digits b) in
  let written :=
    (DataCollection.prefix_path b ++ DataCollection.name b
     ++ "/mesh." ++ rank)%string in
  let sought :=
    (DataCollection.prefix_path b ++ DataCollection.name b ++ "_"
     ++ to_padded_string (-1) (DataCollection.pad_digits b)
     ++ "/mesh." ++ rank)%string in
  StrMap.find sought (files (world_of (VisItDataCollection.Save dc w))) = None ->
  exists ws dc' w',
    VisItDataCollection.Save dc w = Ok dc ws
    /\ StrMap.find written (files ws) <> None
    /\ VisItDataCollection.Load (-1) l ws = Ok dc' w'
    /\ DataCollection.error (VisItDataCollection.base dc') = READ_ERROR
    /\ DataCollection.own_data (VisItDataCollection.base dc') = false
    /\ DataCollection.mesh (VisItDataCollection.base dc') = None
    /\ VisItDataCollection.field_info_map dc' = StrMap.empty
    /\ reads (log w')
       = (reads (log ws) ++ [VisItDataCollection.root_name dc; sought])%list.
Proof.
  intros Hd Hparse Hready Hl Hp Hm b Hc Hus rank written sought Hmiss.
  assert (Hname : name_read_back (DataCollection.name b) = DataCollection.name b)
    by (unfold name_read_back; now rewrite Hus).
  assert (Hser : DataCollection.serial b = false)
    by (destruct Hready as (_ & _ & _ & H & _); exact H).
  assert (Hid : DataCollection.myid b = 0)
    by (destruct Hready as (_ & _ & _ & _ & H & _); exact H).
  destruct (load_after_save_misses dc l w am m sought Hd Hparse Hready Hl Hp Hm)
    as (ws & dc' & w' & ES & Fm & EL & He & Ho & Hmesh & _ & Hfi & _ & R).
  - fold b. rewrite Hname, Hc. reflexivity.
  - exact Hmiss.
  - fold b in Fm, EL. rewrite Hc in EL.
    exists ws, dc', w'. split; [exact ES|]. split.
    { unfold DataCollection.mesh_name, DataCollection.dir_name in Fm.
      rewrite Hser, Hc, Hid in Fm. cbn [Z.eqb] in Fm.
      unfold written, rank. now rewrite <- append_assoc. }
    split; [exact EL|]. split; [exact He|]. split; [exact Ho|].
    split; [exact Hmesh|]. split; [exact Hfi | exact R].
Qed.

Lemma cycle_minus_one_is_not_loaded_witness :
  exists ws dc' w',
    VisItDataCollection.Save
      (VisItDataCollection.on_base (DataCollection.set_cycle (-1))
         (Demo.named_dc "run"))
      (Demo.world [(1%nat, Demo.serial_mesh)] [(2%nat, 1)])
    = Ok (VisItDataCollection.on_base (DataCollection.set_cycle (-1))
            (Demo.named_dc "run")) ws
    /\ StrMap.find "run/mesh.000000" (files ws) <> None
    /\ VisItDataCollection.Load (-1) (VisItDataCollection.create "run") ws
       = Ok dc' w'
    /\ DataCollection.error (VisItDataCollection.base dc') = READ_ERROR
    /\ reads (log w')
       = ["run_0000-1.mfem_root"; "run_0000-1/mesh.000000"].
Proof.
  set (dc := VisItDataCollection.on_base (DataCollection.set_cycle (-1))
               (Demo.named_dc "run")).
  set (w := Demo.world [(1%nat, Demo.serial_mesh)] [(2%nat, 1)]).
  assert (Hd : forall z, int_range z ->
                 @int_of_double Demo.collaborators (double_of_int z) = z)
    by reflexivity.
  assert (Hp : picojson.parse (VisItDataCollection.GetVisItRootString dc)
               = Some (VisItDataCollection.root_document dc))
    by (apply same_document_sound; vm_compute; reflexivity).
  assert (Hready : ready_to_save dc w).
  { destruct (named_dc_ready "run")
      as (H1 & H2 & H3 & H4 & H5 & H6 & _ & H8 & H9 & H10 & H11 & H12 & H13 & H14).
    split; [exact H1|]. split; [exact H2|]. split; [exact H3|].
    split; [exact H4|]. split; [exact H5|]. split; [exact H6|].
    split; [unfold int_range, INT_MIN, INT_MAX; cbn; lia|].
    split; [exact H8|]. split; [exact H9|]. split; [exact H10|].
    split; [exact H11|]. split; [exact H12|]. split; [exact H13 | exact H14]. }
  assert (Hl : loads_for dc (VisItDataCollection.create "run"))
    by (repeat split).
  assert (Hr : reads (log (world_of (VisItDataCollection.Save dc w))) = [])
    by (vm_compute; reflexivity).
  destruct (cycle_minus_one_is_not_loaded dc (VisItDataCollection.create "run")
              w 1%nat Demo.serial_mesh Hd Hp Hready Hl eq_refl eq_refl
              eq_refl eq_refl)
    as (ws & dc' & w' & ES & Fw & EL & He & _ & _ & _ & R).
  - vm_compute. reflexivity.
  - exists ws, dc', w'. split; [exact ES|]. split; [exact Fw|].
    split; [exact EL|]. split; [exact He|].
    rewrite ES in Hr. cbn [world_of] in Hr. rewrite R, Hr. reflexivity.
Defined.

(** ** The names of the two maps *)

Section Names.
Context {C : Collaborators}.
Local Open Scope list_scope.
Import DataCollection.

Lemma keys_insert {V : Type} k (v : V) : forall m,
  StrMap.keys (StrMap.insert k v m) = insert_key k (StrMap.keys m).
Proof.
  induction m as [|[k' v'] m IH]; [reflexivity|].
  cbn [StrMap.insert StrMap.keys map fst insert_key].
  destruct (String.compare k k'); cbn [map fst]; [reflexivity..|].
  f_equal. exact IH.
Qed.

Lemma sorted_keys {V W : Type} (m : StrMap.t V) : forall (m' : StrMap.t W),
  StrMap.keys m = StrMap.keys m' -> StrMap.sorted m -> StrMap.sorted m'.
Proof.
  assert (F : forall (m : StrMap.t V) (m' : StrMap.t W) k,
            StrMap.keys m = StrMap.keys m' ->
            StrMap.sorted_from k m -> StrMap.sorted_from k m').
  { induction m0 as [|[k1 v1] m0 IH]; intros [|[k2 v2] m'] k H Hs;
      try discriminate H; [exact I|].
    cbn in H. injection H as <- H. destruct Hs as [H1 Hs].
    split; [exact H1|]. now apply (IH m'). }
  destruct m as [|[k1 v1] m]; intros [|[k2 v2] m'] H Hs;
    try discriminate H; [exact I|].
  cbn in H. injection H as <- H. now apply (F m m').
Qed.

Lemma nulled_keys its : StrMap.keys (nulled its) = StrMap.keys its.
Proof.
  unfold nulled, StrMap.keys. rewrite map_map. reflexivity.
Qed.

Lemma insert_key_above k : forall l,
  (forall k', In k' l -> String.compare k' k = Lt) ->
  insert_key k l = l ++ [k].
Proof.
  induction l as [|k' l IH]; intros H; [reflexivity|].
  cbn [insert_key app].
  rewrite (string_compare_lt_gt k' k) by (apply H; now left).
  rewrite IH; [reflexivity|]. intros k2 H2. apply H. now right.
Qed.

Lemma fold_insert_key {V : Type} (its : StrMap.t V) : forall acc,
  match its with
  | [] => True
  | (k, _) :: its' =>
      (forall k', In k' acc -> String.compare k' k = Lt)
      /\ StrMap.sorted_from k its'
  end ->
  fold_left (fun l k => insert_key k l) (StrMap.keys its) acc
  = acc ++ StrMap.keys its.
Proof.
  induction its as [|[k v] its IH]; intros acc H;
    cbn [StrMap.keys map fst fold_left].
  - now rewrite app_nil_r.
  - destruct H as [Hb Hs]. rewrite (insert_key_above k acc Hb).
    change (map fst its) with (StrMap.keys its). rewrite IH.
    + now rewrite <- app_assoc.
    + destruct its as [|[k2 v2] its]; [exact I|].
      destruct Hs as [H12 Hs]. split; [|exact Hs].
      intros k' Hin. apply in_app_or in Hin. destruct Hin as [Hin|[<-|[]]].
      * apply (string_compare_lt_trans k' k k2); [now apply Hb | exact H12].
      * exact H12.
Qed.

Lemma fold_insert_key_sorted {V : Type} (its : StrMap.t V) :
  StrMap.sorted its ->
  fold_left (fun l k => insert_key k l) (StrMap.keys its) [] = StrMap.keys its.
Proof.
  intros H. rewrite fold_insert_key; [reflexivity|].
  destruct its as [|[k v] its]; [exact I|]. split; [intros k' []|exact H].
Qed.

(** *** What the calls do to the field map *)

Lemma SetMesh_field_map p dc w :
  ensures (fun b => field_map b = field_map dc) (SetMesh p dc w).
Proof.
  unfold SetMesh. repeat ensures_step.
  all: match goal with
       | |- context [use_ranks ?pr _] => destruct pr as [[? ?]|]
       end; reflexivity.
Qed.

Lemma SaveMesh_field_map dc w :
  ensures (fun b => field_map b = field_map dc) (SaveMesh dc w).
Proof.
  unfold SaveMesh, make_cycle_dir, write_mesh. repeat ensures_step.
Qed.

Lemma SaveOneField_field_map it dc w :
  ensures (fun b => field_map b = field_map dc) (SaveOneField it dc w).
Proof. unfold SaveOneField. repeat ensures_step. Qed.

Lemma save_fields_field_map its : forall dc w,
  ensures (fun b => field_map b = field_map dc) (save_fields its dc w).
Proof.
  induction its as [|it its IH]; intros dc w; cbn [save_fields].
  - now apply ensures_ret.
  - apply ensures_bind. intros dc1 w1 E.
    pose proof (ensures_ok _ _ _ _ (SaveOneField_field_map it dc w) E) as K.
    cbv beta in K. eapply ensures_impl; [|apply IH].
    intros b Hb. cbv beta in Hb. congruence.
Qed.

Lemma Save_field_map dc w :
  ensures (fun b => field_map b = field_map dc) (Save dc w).
Proof.
  unfold Save. apply ensures_bind. intros dc1 w1 E.
  pose proof (ensures_ok _ _ _ _ (SaveMesh_field_map dc w) E) as K.
  cbv beta in K.
  destruct (is_error (error dc1)); [now apply ensures_ret|].
  eapply ensures_impl; [|apply save_fields_field_map].
  intros b Hb. cbv beta in Hb. congruence.
Qed.

Lemma SaveField_field_map nm dc w :
  ensures (fun b => field_map b = field_map dc) (SaveField nm dc w).
Proof.
  unfold SaveField. destruct (StrMap.find nm (field_map dc));
    [apply SaveOneField_field_map | now apply ensures_ret].
Qed.

End Names.

Section NamesOfCalls.
Context {C : Collaborators}.
Local Open Scope list_scope.
Import DataCollection.

Lemma in_step_emptied (dc : VisItDataCollection.t) : in_step (visit_emptied dc).
Proof. repeat split. Qed.

Lemma in_step_same (dc dc' : VisItDataCollection.t) :
  field_map (VisItDataCollection.base dc')
  = field_map (VisItDataCollection.base dc) ->
  VisItDataCollection.field_info_map dc'
  = VisItDataCollection.field_info_map dc ->
  in_step dc -> in_step dc'.
Proof. unfold in_step. intros -> ->. auto. Qed.

Lemma ParseVisItRootString_field_map json dc w :
  ensures (fun dc1 => field_map (VisItDataCollection.base dc1)
                      = field_map (VisItDataCollection.base dc))
    (VisItDataCollection.ParseVisItRootString json dc w).
Proof.
  unfold VisItDataCollection.ParseVisItRootString.
  destruct (picojson.parse json) as [top|].
  2:{ apply ensures_bind. intros ? ? _. now apply ensures_ret. }
  repeat (apply ensures_bind; intros ? ? _).
  destruct (find_char "_" _) as [right_sep|].
  2:{ apply ensures_bind. intros ? ? _. now apply ensures_ret. }
  repeat (apply ensures_bind; intros ? ? _).
  match goal with
  | |- ensures _ (match ?f with _ => _ end _) => destruct f
  end; try (now apply ensures_ret).
  apply ensures_bind. intros fim wf E. now apply ensures_ret.
Qed.

Lemma LoadVisItRootFile_field_map r dc w :
  ensures (fun dc1 => field_map (VisItDataCollection.base dc1)
                      = field_map (VisItDataCollection.base dc))
    (VisItDataCollection.LoadVisItRootFile r dc w).
Proof.
  unfold VisItDataCollection.LoadVisItRootFile.
  apply ensures_bind. intros buffer w0 _.
  destruct buffer as [[|ch text]|].
  - apply ensures_bind. intros ? ? _. now apply ensures_ret.
  - apply ParseVisItRootString_field_map.
  - apply ensures_bind. intros ? ? _. now apply ensures_ret.
Qed.

Lemma LoadMesh_maps dc w :
  ensures (fun dc2 => field_map (VisItDataCollection.base dc2)
                      = field_map (VisItDataCollection.base dc)
                      /\ VisItDataCollection.field_info_map dc2
                         = VisItDataCollection.field_info_map dc)
    (VisItDataCollection.LoadMesh dc w).
Proof.
  unfold VisItDataCollection.LoadMesh.
  apply ensures_bind. intros file w0 _. destruct file as [text|].
  - repeat (apply ensures_bind; intros ? ? _). apply ensures_ret. now split.
  - apply ensures_bind. intros ? ? _. apply ensures_ret. now split.
Qed.

Lemma load_fields_names its : forall dc w,
  ensures (fun dc3 =>
             VisItDataCollection.field_info_map dc3
             = VisItDataCollection.field_info_map dc
             /\ (error (VisItDataCollection.base dc3) = NO_ERROR ->
                 StrMap.keys (field_map (VisItDataCollection.base dc3))
                 = fold_left (fun l k => insert_key k l) (StrMap.keys its)
                     (StrMap.keys (field_map (VisItDataCollection.base dc))))
             /\ (StrMap.sorted (field_map (VisItDataCollection.base dc)) ->
                 StrMap.sorted (field_map (VisItDataCollection.base dc3))))
    (VisItDataCollection.load_fields its dc w).
Proof.
  induction its as [|[k info] its IH]; intros dc w;
    cbn [VisItDataCollection.load_fields].
  - apply ensures_ret. repeat split; auto.
  - apply ensures_bind. intros file w0 _. destruct file as [text|].
    + apply ensures_bind. intros m w1 _.
      apply ensures_bind. intros p w2 _.
      eapply ensures_impl; [|apply IH].
      intros dc3 (H1 & H2 & H3).
      cbn [VisItDataCollection.base VisItDataCollection.on_base
           VisItDataCollection.set_base VisItDataCollection.field_info_map
           field_map set_field_map] in H1, H2, H3.
      split; [exact H1|]. split.
      * intros He. rewrite (H2 He). cbn [StrMap.keys map fst fold_left].
        now rewrite keys_insert.
      * intros Hs. apply H3. now apply insert_sorted.
    + apply ensures_bind. intros ? ? _. apply ensures_ret.
      split; [reflexivity|]. split; [discriminate|auto].
Qed.

Lemma Load_in_step c dc w :
  ensures in_step (VisItDataCollection.Load c dc w).
Proof.
  unfold VisItDataCollection.Load.
  apply ensures_bind. intros dc0 w0 E0.
  apply VisIt_DeleteAll_inv in E0. subst dc0.
  apply ensures_bind. intros dc1 w1 E1.
  pose proof (ensures_ok _ _ _ _ (LoadVisItRootFile_field_map _ _ _) E1) as F1.
  cbv beta in F1.
  pose proof (LoadVisItRootFile_sorted _ _ _ _ _ E1) as S1.
  apply ensures_bind. intros dc2 w2 E2.
  assert (K2 : field_map (VisItDataCollection.base dc2) = StrMap.empty
               /\ VisItDataCollection.field_info_map dc2
                  = VisItDataCollection.field_info_map dc1
               /\ (error (VisItDataCollection.base dc2) = NO_ERROR ->
                   error (VisItDataCollection.base dc1) = NO_ERROR)).
  { destruct (is_error (error (VisItDataCollection.base dc1))) eqn:Ee;
      cbn [negb] in E2.
    - injection E2 as <- _. repeat split; auto.
    - destruct (ensures_ok _ _ _ _ (LoadMesh_maps dc1 w1) E2) as [A B].
      split; [now rewrite A, F1|]. split; [exact B|].
      intros _. destruct (error (VisItDataCollection.base dc1));
        [reflexivity | discriminate Ee | discriminate Ee]. }
  destruct K2 as (Fm2 & Fi2 & He2).
  apply ensures_bind. intros dc3 w3 E3.
  destruct (is_error (error (VisItDataCollection.base dc3))) eqn:Ee3;
    cbn [negb].
  2:{ apply ensures_ret.
      assert (He3 : error (VisItDataCollection.base dc3) = NO_ERROR)
        by (destruct (error (VisItDataCollection.base dc3));
            [reflexivity | discriminate Ee3 | discriminate Ee3]).
      destruct (is_error (error (VisItDataCollection.base dc2))) eqn:Ee2;
        cbn [negb] in E3.
      - injection E3 as <- _. rewrite He3 in Ee2. discriminate Ee2.
      - unfold VisItDataCollection.LoadFields in E3.
        destruct (ensures_ok _ _ _ _ (load_fields_names _ _ _) E3)
          as (A & B & D).
        cbn [VisItDataCollection.base VisItDataCollection.on_base
             VisItDataCollection.set_base VisItDataCollection.field_info_map
             field_map set_field_map] in A, B, D.
        assert (He2' : error (VisItDataCollection.base dc2) = NO_ERROR)
          by (destruct (error (VisItDataCollection.base dc2));
              [reflexivity | discriminate Ee2 | discriminate Ee2]).
        pose proof (S1 (He2 He2')) as Hs1.
        unfold in_step.
        cbn [VisItDataCollection.base VisItDataCollection.on_base
             VisItDataCollection.set_base VisItDataCollection.field_info_map
             field_map set_own_data].
        rewrite A, Fi2. split; [apply D; exact I|]. split; [exact Hs1|].
        rewrite (B He3), Fi2. cbn [StrMap.keys map StrMap.empty].
        now apply fold_insert_key_sorted. }
  destruct (VisItDataCollection.DeleteAll dc3 w3) as [dc4 w4|w4] eqn:E4;
    [|exact I].
  apply VisIt_DeleteAll_inv in E4. subst dc4. cbn [ensures].
  apply in_step_emptied.
Qed.

Lemma run_op_in_step o dc w dc' w' :
  run_op o dc w = Ok dc' w' -> in_step dc -> in_step dc'.
Proof.
  intros E H. destruct o as [p|nm gf|prefix|n| |nm| | |c]; cbn [run_op] in E.
  - unfold VisItDataCollection.SetMesh in E.
    apply bind_ok_inv in E. destruct E as (b & w1 & E1 & E).
    apply bind_ok_inv in E. destruct E as (m & w2 & _ & E).
    injection E as <- _.
    pose proof (ensures_ok _ _ _ _ (SetMesh_field_map _ _ _) E1) as K.
    cbv beta in K. eapply in_step_same; [| |exact H]; [exact K | reflexivity].
  - unfold VisItDataCollection.RegisterField in E.
    apply bind_ok_inv in E. destruct E as (b & w1 & E1 & E).
    apply bind_ok_inv in E. destruct E as (g & w2 & _ & E).
    injection E as <- _. apply RegisterField_inv in E1. subst b.
    destruct H as (H1 & H2 & H3). unfold in_step.
    cbn [VisItDataCollection.base VisItDataCollection.set_base
         VisItDataCollection.field_info_map
         VisItDataCollection.set_field_info_map field_map set_field_map].
    split; [now apply insert_sorted|]. split; [now apply insert_sorted|].
    now rewrite !keys_insert, H3.
  - injection E as <- _. eapply in_step_same; [| |exact H]; [|reflexivity].
    cbn [VisItDataCollection.base VisItDataCollection.on_base
         VisItDataCollection.set_base].
    unfold SetPrefixPath. destruct prefix as [p|]; [|reflexivity].
    destruct (negb (string_empty p) && negb (Ascii.eqb (last_char p "/") "/"));
      reflexivity.
  - injection E as <- _. exact H.
  - unfold VisItDataCollection.Save in E.
    apply bind_ok_inv in E. destruct E as (b & w1 & E1 & E).
    pose proof (ensures_ok _ _ _ _ (Save_field_map _ _) E1) as K.
    cbv beta in K.
    assert (Hb : in_step (VisItDataCollection.set_base b dc))
      by (eapply in_step_same; [| |exact H]; [exact K | reflexivity]).
    unfold VisItDataCollection.SaveRootFile in E.
    destruct (myid (VisItDataCollection.base (VisItDataCollection.set_base b dc)) =? 0).
    + apply bind_ok_inv in E. destruct E as (u & w2 & _ & E).
      apply bind_ok_inv in E. destruct E as (ok & w3 & _ & E).
      destruct ok.
      * injection E as <- _. exact Hb.
      * apply bind_ok_inv in E. destruct E as (u' & w4 & _ & E).
        injection E as <- _.
        eapply in_step_same; [| |exact Hb]; reflexivity.
    + injection E as <- _. exact Hb.
  - apply bind_ok_inv in E. destruct E as (b & w1 & E1 & E).
    injection E as <- _.
    pose proof (ensures_ok _ _ _ _ (SaveField_field_map _ _ _) E1) as K.
    cbv beta in K. eapply in_step_same; [| |exact H]; [exact K | reflexivity].
  - apply bind_ok_inv in E. destruct E as (b & w1 & E1 & E).
    injection E as <- _. apply DeleteData_result in E1. subst b.
    destruct H as (H1 & H2 & H3). unfold in_step.
    cbn [VisItDataCollection.base VisItDataCollection.set_base
         VisItDataCollection.field_info_map field_map set_field_map
         set_own_data set_mesh].
    split; [|split; [exact H2|]].
    + apply (sorted_keys (field_map (VisItDataCollection.base dc)));
        [now rewrite nulled_keys | exact H1].
    + now rewrite nulled_keys.
  - apply VisIt_DeleteAll_inv in E. subst dc'. apply in_step_emptied.
  - exact (ensures_ok _ _ _ _ (Load_in_step c dc w) E).
Qed.

End NamesOfCalls.

Lemma find_keys {V : Type} k (m : StrMap.t V) :
  StrMap.find k m <> None <-> In k (StrMap.keys m).
Proof.
  induction m as [|[k' v'] m IH]; cbn [StrMap.find StrMap.keys map fst In].
  - split; [intros H; now elim H | intros []].
  - destruct (String.eqb_spec k k') as [->|Hne].
    + split; [intros _; now left | intros _; discriminate].
    + rewrite IH. split; [intros H; now right|].
      intros [H|H]; [congruence | exact H].
Qed.

(** X20.  The two maps of a VisIt collection stay in step.  A new
    collection has no name in either; after any run of operations from a
    collection whose field map and field info hold the same names in
    strictly increasing order they still do, so a name is registered
    exactly when it has a field info. *)
Theorem names_stay_in_step {C : Collaborators}
    (dc dc' : VisItDataCollection.t) (w w' : World) :
  in_step dc ->
  Reachable dc w dc' w' ->
  in_step dc'
  /\ (forall k, DataCollection.HasField k (VisItDataCollection.base dc') = true
                <-> In k (StrMap.keys (VisItDataCollection.field_info_map dc')))
  /\ (forall nm, in_step (VisItDataCollection.create nm)).
Proof.
  intros H R.
  assert (K : in_step dc').
  { induction R as [dc w|dc w dc1 w1 o dc2 w2 R IH E]; [exact H|].
    eapply run_op_in_step; [exact E | now apply IH]. }
  split; [exact K|]. split; [|intros nm; repeat split].
  intros k. destruct K as (_ & _ & <-). rewrite <- find_keys.
  unfold DataCollection.HasField.
  destruct (StrMap.find k _); split; congruence.
Qed.

Lemma names_stay_in_step_witness :
  returns
    (run_op (OpRegisterField "pressure" (Some 2%nat))
       (VisItDataCollection.create "run") (Demo.run_world 0))
    (fun dc' _ =>
       in_step dc'
       /\ DataCollection.HasField "pressure" (VisItDataCollection.base dc')
          = true).
Proof.
  set (o := run_op (OpRegisterField "pressure" (Some 2%nat))
              (VisItDataCollection.create "run") (Demo.run_world 0)).
  assert (R : returns o (fun _ _ => True)) by (vm_compute; exact I).
  assert (K : returns o (fun dc' _ =>
                 StrMap.keys (VisItDataCollection.field_info_map dc')
                 = ["pressure"%string])) by (vm_compute; reflexivity).
  destruct o as [dc' w'|w'] eqn:E; [|destruct R]. cbn [returns] in *.
  destruct (names_stay_in_step (VisItDataCollection.create "run") dc'
              (Demo.run_world 0) w') as (H1 & H2 & _).
  - repeat split.
  - eapply Reachable_step; [apply Reachable_refl | exact E].
  - split; [exact H1|]. apply H2. rewrite K. now left.
Defined.

Section Ranks.
Context {C : Collaborators}.
Local Open Scope list_scope.
Import DataCollection.



End Ranks.



(** ** What the saved files hold *)

Section Written.
Context {C : Collaborators}.
Local Open Scope list_scope.
Import DataCollection.

Lemma file_name_inj k k' dc : file_name k dc = file_name k' dc -> k = k'.
Proof.
  unfold file_name. destruct (serial dc); intros H.
  - apply append_inj_l in H. now apply (append_inj_l "/") in H.
  - apply append_inj_l in H. apply (append_inj_l "/") in H.
    now apply append_inj_r in H.
Qed.

Lemma file_name_mesh dc : file_name "mesh" dc = mesh_name dc.
Proof. unfold file_name, mesh_name. destruct (serial dc); reflexivity. Qed.

Lemma sorted_tail {V : Type} (it : string * V) its :
  StrMap.sorted (it :: its) -> StrMap.sorted its.
Proof.
  destruct it as [k v]. destruct its as [|[k' v'] its]; [auto|].
  intros [_ H]. exact H.
Qed.

Lemma sorted_head_fresh {V : Type} k (v : V) its :
  StrMap.sorted ((k, v) :: its) -> ~ In k (StrMap.keys its).
Proof.
  intros Hs Hin. unfold StrMap.keys in Hin. apply in_map_iff in Hin.
  destruct Hin as ([k' v'] & Hk & Hin). cbn in Hk. subst k'.
  pose proof (sorted_from_in its k k v' Hs Hin) as H.
  rewrite string_compare_refl in H. discriminate H.
Qed.

Lemma save_fields_written its : forall dc w,
  fields_live its w -> failing_files w = [] -> StrMap.sorted its ->
  exists w',
    save_fields its dc w = Ok dc w'
    /\ same_heap w w'
    /\ (forall k p, In (k, p) its ->
          exists a g,
            p = Some a /\ heap_find a (gfuncs w) = Some g
            /\ StrMap.find (file_name k dc) (files w')
               = Some (GridFunction_Save g (precision dc)))
    /\ (forall p, (forall k, In k (StrMap.keys its) -> file_name k dc <> p) ->
          StrMap.find p (files w') = StrMap.find p (files w)).
Proof.
  induction its as [|[k0 p0] its IH]; intros dc w Hl Hq Hs.
  - exists w. split; [reflexivity|]. split; [apply same_heap_refl|].
    split; [intros k p []|reflexivity].
  - inversion Hl as [|? ? (a & g & Hp & Hg) Hl']; subst. cbn [snd] in Hp. subst p0.
    cbn [save_fields].
    rewrite (bind_run _ _ _ _ _
               (SaveOneField_quiet (k0, Some a) dc w a g eq_refl Hg Hq)).
    cbn [fst].
    match goal with
    | |- context [save_fields its dc ?w1] =>
        destruct (IH dc w1) as (w' & E & S & K & O)
    end.
    + unfold fields_live in *. eapply Forall_impl; [|exact Hl'].
      intros it' (a' & g' & H1 & H2). now exists a', g'.
    + exact Hq.
    + exact (sorted_tail _ _ Hs).
    + exists w'. split; [exact E|]. split.
      { destruct S as (s1 & s2 & s3 & s4 & s5). repeat split; assumption. }
      cbn [files set_files add_event gfuncs] in K, O.
      split.
      * intros k p [[= <- <-]|Hin]; [|now apply K].
        exists a, g. split; [reflexivity|]. split; [exact Hg|].
        rewrite O; [apply find_insert_same|].
        intros k Hk H. apply file_name_inj in H. subst k.
        exact (sorted_head_fresh _ _ _ Hs Hk).
      * intros p H. rewrite O.
        -- apply find_insert_other. intros ->. apply (H k0); [now left|reflexivity].
        -- intros k Hin. apply H. now right.
Qed.

End Written.

(** X23.  After a [Save] in which nothing fails and no error was
    pending, the file of every registered field holds what
    [GridFunction::Save] printed for it, and every other file but the
    mesh file is as it was.  The mesh file holds what [Mesh::Print]
    printed, unless a field is called "mesh": the file of that field is
    the mesh file, and it holds the field. *)
Theorem saved_files_hold_the_data {C : Collaborators}
    (dc : DataCollection.t) (w : World) (am : addr) (m : Mesh) :
  DataCollection.mesh dc = Some am ->
  heap_find am (meshes w) = Some m ->
  fields_live (DataCollection.field_map dc) w ->
  StrMap.sorted (DataCollection.field_map dc) ->
  failing_dirs w = [] -> failing_files w = [] ->
  DataCollection.error dc = NO_ERROR ->
  exists w',
    DataCollection.Save dc w = Ok dc w'
    /\ (forall k a g,
          StrMap.find k (DataCollection.field_map dc) = Some (Some a) ->
          heap_find a (gfuncs w) = Some g ->
          StrMap.find (DataCollection.file_name k dc) (files w')
          = Some (GridFunction_Save g (DataCollection.precision dc)))
    /\ (DataCollection.HasField "mesh" dc = false ->
        StrMap.find (DataCollection.mesh_name dc) (files w')
        = Some (Mesh_Print m (DataCollection.precision dc)))
    /\ (forall a g,
          StrMap.find "mesh" (DataCollection.field_map dc) = Some (Some a) ->
          heap_find a (gfuncs w) = Some g ->
          StrMap.find (DataCollection.mesh_name dc) (files w')
          = Some (GridFunction_Save g (DataCollection.precision dc)))
    /\ (forall p,
          p <> DataCollection.mesh_name dc ->
          (forall k, In k (StrMap.keys (DataCollection.field_map dc)) ->
             DataCollection.file_name k dc <> p) ->
          StrMap.find p (files w') = StrMap.find p (files w)).
Proof.
  intros Hp Hm Hl Hs Hd Hf He.
  destruct (SaveMesh_quiet dc w am m Hp Hm Hd Hf) as (w1 & E1 & S1 & F1).
  destruct (same_heap_quiet _ _ S1 Hd Hf) as [Hd1 Hf1].
  destruct (save_fields_written (DataCollection.field_map dc) dc w1)
    as (w2 & E2 & S2 & K & O); try assumption.
  { eapply fields_live_same_heap; eassumption. }
  assert (Hg : gfuncs w1 = gfuncs w) by (destruct S1 as (_ & _ & _ & s4 & _); exact s4).
  assert (Fields : forall k a g,
            StrMap.find k (DataCollection.field_map dc) = Some (Some a) ->
            heap_find a (gfuncs w) = Some g ->
            StrMap.find (DataCollection.file_name k dc) (files w2)
            = Some (GridFunction_Save g (DataCollection.precision dc))).
  { intros k a g Hk Ha. apply find_in in Hk.
    destruct (K k (Some a) Hk) as (a' & g' & [= <-] & Ha' & R).
    rewrite Hg in Ha'. congruence. }
  exists w2. split.
  { unfold DataCollection.Save. rewrite (bind_run _ _ _ _ _ E1).
    rewrite He. exact E2. }
  split; [exact Fields|]. split; [|split].
  - intros Hno. rewrite O.
    + rewrite F1. apply find_insert_same.
    + intros k Hk H. rewrite <- file_name_mesh in H.
      apply file_name_inj in H. subst k.
      apply find_keys in Hk. unfold DataCollection.HasField in Hno.
      destruct (StrMap.find "mesh" (DataCollection.field_map dc));
        [discriminate Hno | now elim Hk].
  - intros a g Hk Ha. rewrite <- file_name_mesh. now apply (Fields "mesh"%string a g).
  - intros p Hpm Hpf. rewrite O by exact Hpf. rewrite F1.
    now apply find_insert_other.
Qed.

Lemma saved_files_hold_the_data_witness :
  StrMap.find "run/mesh"
    (files (world_of
              (DataCollection.Save
                 (DataCollection.set_field_map [("mesh"%string, Some 2%nat)]
                    (DataCollection.set_mesh (Some 1%nat)
                       (DataCollection.create "run")))
                 (Demo.world [(1%nat, Demo.serial_mesh)] [(2%nat, 7)]))))
  = Some "7"%string.
Proof.
  set (dc := DataCollection.set_field_map [("mesh"%string, Some 2%nat)]
               (DataCollection.set_mesh (Some 1%nat)
                  (DataCollection.create "run"))).
  set (w := Demo.world [(1%nat, Demo.serial_mesh)] [(2%nat, 7)]).
  assert (Hl : fields_live (DataCollection.field_map dc) w).
  { repeat constructor. exists 2%nat, 7. split; reflexivity. }
  destruct (saved_files_hold_the_data dc w 1%nat Demo.serial_mesh
              eq_refl eq_refl Hl I eq_refl eq_refl eq_refl)
    as (w' & E & _ & _ & H & _).
  rewrite E. cbn [world_of].
  exact (H 2%nat 7 eq_refl eq_refl).
Defined.

(** ** Null handles *)

(** X24.  The VisIt class reads what it is given.  [RegisterField] with a
    live field on data that is not owned returns in the same world, with
    the handle under the name and the field info "nodes" with the number
    of components of that field, and the infos of the other names as
    they were.  With a null pointer the base class stores the pointer
    and returns, but the VisIt class dereferences it; and so does the
    VisIt [SetMesh] with a null mesh, which the base class accepts. *)
Theorem visit_calls_read_their_argument {C : Collaborators}
    (nm : string) (dc : VisItDataCollection.t) (w : World) :
  DataCollection.own_data (VisItDataCollection.base dc) = false ->
  (forall a g,
     heap_find a (gfuncs w) = Some g ->
     exists dc',
       VisItDataCollection.RegisterField nm (Some a) dc w = Ok dc' w
       /\ DataCollection.GetField nm (VisItDataCollection.base dc') = Some a
       /\ StrMap.find nm (VisItDataCollection.field_info_map dc')
          = Some {| association := "nodes"; num_components := VectorDim g |}
       /\ (forall other, other <> nm ->
             StrMap.find other (VisItDataCollection.field_info_map dc')
             = StrMap.find other (VisItDataCollection.field_info_map dc)))
  /\ (exists b,
        DataCollection.RegisterField nm None (VisItDataCollection.base dc) w
        = Ok b w
        /\ DataCollection.HasField nm b = true
        /\ DataCollection.GetField nm b = None)
  /\ VisItDataCollection.RegisterField nm None dc w = Abort w
  /\ (exists b,
        DataCollection.SetMesh None (VisItDataCollection.base dc) w = Ok b w
        /\ DataCollection.mesh b = None)
  /\ VisItDataCollection.SetMesh None dc w = Abort w.
Proof.
  intros Ho.
  assert (R : forall gf,
            DataCollection.RegisterField nm gf (VisItDataCollection.base dc) w
            = Ok (DataCollection.set_field_map
                    (StrMap.insert nm gf
                       (DataCollection.field_map (VisItDataCollection.base dc)))
                    (VisItDataCollection.base dc)) w).
  { intros gf. unfold DataCollection.RegisterField. now rewrite Ho. }
  assert (M : DataCollection.SetMesh None (VisItDataCollection.base dc) w
              = Ok (DataCollection.set_serial true
                      (DataCollection.set_num_procs 1
                         (DataCollection.set_myid 0
                            (DataCollection.set_mesh None
                               (VisItDataCollection.base dc))))) w).
  { unfold DataCollection.SetMesh. now rewrite Ho. }
  split; [|split; [|split; [|split]]].
  - intros a g Hg. unfold VisItDataCollection.RegisterField.
    rewrite (bind_run _ _ _ _ _ (R (Some a))).
    rewrite (bind_run _ _ _ _ _ (deref_field_live a g w Hg)).
    eexists. split; [reflexivity|].
    cbn [VisItDataCollection.base VisItDataCollection.set_base
         VisItDataCollection.field_info_map
         VisItDataCollection.set_field_info_map].
    split.
    + unfold DataCollection.GetField, DataCollection.HasField,
        DataCollection.field_at.
      cbn [DataCollection.field_map DataCollection.set_field_map].
      now rewrite find_insert_same.
    + split; [apply find_insert_same|].
      intros other Hne. now apply find_insert_other.
  - eexists. split; [apply R|].
    unfold DataCollection.GetField, DataCollection.HasField,
      DataCollection.field_at.
    cbn [DataCollection.field_map DataCollection.set_field_map].
    now rewrite find_insert_same.
  - unfold VisItDataCollection.RegisterField.
    now rewrite (bind_run _ _ _ _ _ (R None)).
  - eexists. split; [exact M | reflexivity].
  - unfold VisItDataCollection.SetMesh.
    now rewrite (bind_run _ _ _ _ _ M).
Qed.

Lemma visit_calls_read_their_argument_witness :
  returns
    (VisItDataCollection.RegisterField "density" (Some 2%nat) Demo.run_dc
       (Demo.run_world 0))
    (fun dc' _ =>
       StrMap.find "density" (VisItDataCollection.field_info_map dc')
       = Some {| association := "nodes"; num_components := 1 |})
  /\ VisItDataCollection.SetMesh None Demo.run_dc (Demo.run_world 0)
     = Abort (Demo.run_world 0).
Proof.
  destruct (visit_calls_read_their_argument "density" Demo.run_dc
              (Demo.run_world 0) eq_refl) as (H & _ & _ & _ & A).
  split; [|exact A].
  destruct (H 2%nat 1 eq_refl) as (dc' & E & _ & F & _).
  unfold addr in E. rewrite E. exact F.
Defined.
